(** * The training harness of deeppavlov/core/commands/train.py

    A shallow embedding of [_test_model], [_train_batches], [_fit] and the
    strategy dispatch of [train_experimental], and the properties their
    specification states about them.  Further properties of these functions
    follow, read off the code, and an embedding of the functions that build
    the components from a configuration file: [train_model_from_config],
    [train_agent_models] and the first part of [train_experimental].

    Python objects are modelled as follows.
    - A configuration dictionary is a [gmap string value]; [value] covers the
      JSON values the harness reads (integers, booleans, strings, lists of
      metric names, null).  JSON numbers are restricted to integers.
    - The model and the dataset are external collaborators: their state is
      an abstract type and their methods are section variables.  [infer] and
      [batch_generator] return the new state of the object with their result,
      so that a collaborator which mutates itself is expressible.
    - Code runs in a monad [prog S A] with a state [S], exceptions, a fuel
      bound for [while True], and a trace of the calls made on the
      collaborators and of the lines printed.
    - [KeyboardInterrupt] is asynchronous.  The world carries the number of
      interruptible steps left before the signal arrives ([None]: it never
      does); every call on a collaborator, every print and every assignment to
      a variable of the training loop is such a step.
    - Wall-clock time ([time_spent]) is left out of the reports: it is not a
      function of the inputs of the program. *)

From Stdlib Require Import ZArith Lia Floats.
From stdpp Require Import base option list strings gmap.

Local Open Scope string_scope.
Local Open Scope list_scope.
Local Open Scope Z_scope.

(** ** Python values and dictionaries *)

Inductive value : Type :=
  | VInt (n : Z)
  | VBool (b : bool)
  | VStr (s : string)
  | VStrs (l : list string)
  | VNone.

(** [int(v)] for the operands of [>], [>=] and [%]: [bool] is a subclass of
    [int]; the other values raise [TypeError] against an integer. *)
Definition as_num (v : value) : option Z :=
  match v with
  | VInt n => Some n
  | VBool b => Some (if b then 1 else 0)
  | _ => None
  end.

(** [v == s] for a string literal [s]. *)
Definition is_str (v : value) (s : string) : bool :=
  match v with
  | VStr s' => String.eqb s' s
  | _ => false
  end.

(** Truth value of [v], as [if v] and [v or w] test it. *)
Definition truthy (v : value) : bool :=
  match v with
  | VInt n => negb (n =? 0)
  | VBool b => b
  | VStr s => negb (String.eqb s "")
  | VStrs l => match l with [] => false | _ => true end
  | VNone => false
  end.

(** [OrderedDict(pairs)] and [dict(pairs)]: keys in the order of their first
    occurrence, each with the value of its last occurrence. *)
Fixpoint od_set {V} (k : string) (v : V) (d : list (string * V)) : list (string * V) :=
  match d with
  | [] => [(k, v)]
  | (k', v') :: r => if String.eqb k k' then (k, v) :: r else (k', v') :: od_set k v r
  end.

Definition ordered_dict {V} (pairs : list (string * V)) : list (string * V) :=
  fold_left (fun d kv => od_set kv.1 kv.2 d) pairs [].

Inductive split : Type := Train | Valid | Test.

Inductive exn : Type :=
  | KeyboardInterrupt
  | ConfigError
  | KeyError (k : string)
  | TypeError
  | IndexError.

(** Result of a run: a value, an exception, or the fuel of [while True] ran out. *)
Inductive res (A : Type) : Type :=
  | Val (a : A)
  | Raise (e : exn)
  | Timeout.
Arguments Val {A} a.
Arguments Raise {A} e.
Arguments Timeout {A}.

(** The terminal states of the training loop (ghost: the code only breaks). *)
Inductive stop : Type := STOPPED_PATIENCE | STOPPED_EPOCHS | STOPPED_INTERRUPT.

Inductive flow : Type := Continue | Break (r : stop).

(** [default_train_config] of [_train_batches]. *)
Definition default_train_config : gmap string value :=
  <["epochs" := VInt 0]> (
  <["batch_size" := VInt 1]> (
  <["metric_optimization" := VStr "maximize"]> (
  <["validation_patience" := VInt 5]> (
  <["val_every_n_epochs" := VInt 0]> (
  <["log_every_n_batches" := VInt 0]> (
  <["validate_best" := VBool true]> (
  <["test_best" := VBool true]> ∅))))))).

(** [dict(default_train_config, **train_config)]. *)
Definition merge_config (train_config : gmap string value) : gmap string value :=
  train_config ∪ default_train_config.

(** The defaults of [train_experimental]. *)
Definition experimental_defaults : gmap string value :=
  <["metrics" := VStrs ["accuracy"]]> (
  <["validate_best" := VBool true]> (
  <["test_best" := VBool true]> ∅)).

(** The integer under key [k], when there is one. *)
Definition lookup_num (d : gmap string value) (k : string) : option Z :=
  match d !! k with
  | Some v => as_num v
  | None => None
  end.

(** What the loop reads in its merged configuration: the batch size, and the
    integers under [log_every_n_batches], [val_every_n_epochs],
    [validation_patience] and [epochs]. *)
Definition reads (cfg : gmap string value) (bsv : value) (N V P E : Z) : Prop :=
  cfg !! "batch_size" = Some bsv /\
  lookup_num cfg "log_every_n_batches" = Some N /\
  lookup_num cfg "val_every_n_epochs" = Some V /\
  lookup_num cfg "validation_patience" = Some P /\
  lookup_num cfg "epochs" = Some E.

(** [train_config.get('batch_size', -1)]. *)
Definition get_batch_size (train_config : gmap string value) : value :=
  default (VInt (-1)) (train_config !! "batch_size").

Section Harness.

(** Inputs, labels, scores, and the states of the model and the dataset. *)
Context {X Y score M D : Type}.

Definition batch : Type := list X * list Y.
Definition metric : Type := string * (list Y -> list Y -> score).

(** The [Trainable]/[Inferable] model. *)
Variable infer : M -> list X -> M * list Y.
Variable train_on_batch : M -> batch -> M.
Variable fit : M -> list (X * Y) -> M.
Variable train : M -> D -> M.

(** The [Dataset]: [batch_generator(batch_size, data_type='train',
    shuffle=True)] and [iter_all(data_type)]. *)
Variable batch_generator : D -> value -> split -> bool -> D * list batch.
Variable iter_all : D -> split -> list (X * Y).

(** [score > best], [score < best], [float('-inf')], [float('inf')]. *)
Variable gt lt : score -> score -> bool.
Variable neg_inf pos_inf : score.

(** The instance that [from_params(..., mode='infer')] builds after training. *)
Variable infer_mode_model : M.

(** *** Reports, printed lines and the trace *)

Record report : Type := Report {
  examples_seen : Z;
  metrics : list (string * score);
  impatience : option Z;
  patience_limit : option value
}.

Inductive printed : Type :=
  | PTrain (epochs_done batches_seen examples_seen : Z) (metrics : list (string * score))
  | PSplit (sp : split) (r : report).

Inductive errmsg : Type :=
  | MsgMissingTrainConfig
  | MsgTestingBest
  | MsgNewBest (m_name : string) (s : score)
  | MsgNoImprove (m_name : string) (b : score)
  | MsgSaving
  | MsgOutOfPatience
  | MsgStopped.

Inductive event : Type :=
  | EvBatchGen (batch_size : value) (sp : split) (shuffle : bool) (out : list batch)
  | EvIterAll (sp : split)
  | EvInfer (xs : list X) (ys : list Y)
  | EvTrainOnBatch (b : batch)
  | EvFit (data : list (X * Y))
  | EvTrain
  | EvSave
  | EvFromParams
  | EvOut (p : printed)
  | EvErr (m : errmsg).

(** *** The monad *)

#[projections(primitive)]
Record out (S A : Type) : Type := Out { o_res : res A; o_st : S; o_tr : list event }.
Arguments Out {S A} _ _ _.
Arguments o_res {S A} _.
Arguments o_st {S A} _.
Arguments o_tr {S A} _.

Definition prog (S A : Type) : Type := S -> out S A.

Definition ret {S A} (a : A) : prog S A := fun s => Out (Val a) s [].

Definition raise {S A} (e : exn) : prog S A := fun s => Out (Raise e) s [].

Definition bind {S A B} (p : prog S A) (k : A -> prog S B) : prog S B := fun s =>
  let o := p s in
  match o_res o with
  | Val a => let o' := k a (o_st o) in Out (o_res o') (o_st o') (o_tr o ++ o_tr o')
  | Raise e => Out (Raise e) (o_st o) (o_tr o)
  | Timeout => Out Timeout (o_st o) (o_tr o)
  end.

#[local] Notation "x ← p ; q" := (bind p (fun x => q))
  (at level 20, p at level 100, q at level 200, only parsing).
#[local] Notation "p ;; q" := (bind p (fun _ => q))
  (at level 100, q at level 200, right associativity, only parsing).

(** [try: p except KeyboardInterrupt: h]. *)
Definition try_except {S A} (p h : prog S A) : prog S A := fun s =>
  let o := p s in
  match o_res o with
  | Raise KeyboardInterrupt => let o' := h (o_st o) in Out (o_res o') (o_st o') (o_tr o ++ o_tr o')
  | _ => o
  end.

(** [for a in l: body a]. *)
Fixpoint for_each {S A} (l : list A) (body : A -> prog S unit) : prog S unit :=
  match l with
  | [] => ret tt
  | a :: r => body a ;; for_each r body
  end.

(** [while True: body], with [break]. *)
Fixpoint while_true {S} (fuel : nat) (body : prog S flow) : prog S stop :=
  match fuel with
  | O => fun s => Out Timeout s []
  | S n => f ← body; match f with Continue => while_true n body | Break r => ret r end
  end.

(** [d[k]]. *)
Definition getitem {S} (d : gmap string value) (k : string) : prog S value :=
  match d !! k with
  | Some v => ret v
  | None => raise (KeyError k)
  end.

(** The integer a value stands for in a comparison with an integer. *)
Definition num {S} (v : value) : prog S Z :=
  match as_num v with
  | Some n => ret n
  | None => raise TypeError
  end.

(** *** The world: the model, the dataset and the pending interrupt *)

Record world : Type := World { model : M; dataset : D; intr : option nat }.

Definition tick : prog world unit := fun w =>
  match intr w with
  | None => Out (Val tt) w []
  | Some (S n) => Out (Val tt) (World (model w) (dataset w) (Some n)) []
  | Some O => Out (Raise KeyboardInterrupt) (World (model w) (dataset w) None) []
  end.

Definition emit (e : event) : prog world unit := fun w => Out (Val tt) w [e].

(** [list(model.infer(list(x)))]. *)
Definition call_infer (x : list X) : prog world (list Y) :=
  tick ;;
  fun w =>
    let r := infer (model w) x in
    Out (Val r.2) (World r.1 (dataset w) (intr w)) [EvInfer x r.2].

(** [model.train_on_batch(batch)]. *)
Definition call_train_on_batch (b : batch) : prog world unit :=
  tick ;;
  fun w => Out (Val tt) (World (train_on_batch (model w) b) (dataset w) (intr w)) [EvTrainOnBatch b].

(** [model.save()]. *)
Definition call_save : prog world unit := tick ;; emit EvSave.

(** [model.fit(data)]. *)
Definition call_fit (data : list (X * Y)) : prog world unit :=
  tick ;;
  fun w => Out (Val tt) (World (fit (model w) data) (dataset w) (intr w)) [EvFit data].

(** [model.train(dataset)]. *)
Definition call_train : prog world unit :=
  tick ;;
  fun w => Out (Val tt) (World (train (model w) (dataset w)) (dataset w) (intr w)) [EvTrain].

(** [dataset.batch_generator(batch_size, data_type, shuffle)], drawn to the end. *)
Definition call_batch_generator (batch_size : value) (data_type : split) (shuffle : bool)
  : prog world (list batch) :=
  tick ;;
  fun w =>
    let r := batch_generator (dataset w) batch_size data_type shuffle in
    Out (Val r.2) (World (model w) r.1 (intr w)) [EvBatchGen batch_size data_type shuffle r.2].

(** [dataset.iter_all(data_type)]. *)
Definition call_iter_all (data_type : split) : prog world (list (X * Y)) :=
  tick ;;
  fun w => Out (Val (iter_all (dataset w) data_type)) w [EvIterAll data_type].

(** [print(json.dumps(report))] and [print(..., file=sys.stderr)]. *)
Definition print_out (p : printed) : prog world unit := tick ;; emit (EvOut p).
Definition print_err (m : errmsg) : prog world unit := tick ;; emit (EvErr m).

(** ** [_test_model] *)

Definition apply_metrics (metrics_functions : list metric) (y_true y_predicted : list Y)
  : list (string * score) :=
  map (fun sf => (sf.1, sf.2 y_true y_predicted)) metrics_functions.

(** The loop over the batches of the split, on the two accumulators. *)
Fixpoint test_batches (batches : list batch) (val_y_true val_y_predicted : list Y)
  : prog world (list Y * list Y) :=
  match batches with
  | [] => ret (val_y_true, val_y_predicted)
  | (x, y_true) :: rest =>
      y_predicted ← call_infer x;
      test_batches rest (val_y_true ++ y_true) (val_y_predicted ++ y_predicted)
  end.

Definition _test_model (metrics_functions : list metric) (batch_size : value)
    (data_type : split) : prog world report :=
  batches ← call_batch_generator batch_size data_type false;
  acc ← test_batches batches [] [];
  let metrics := apply_metrics metrics_functions acc.1 acc.2 in
  ret (Report (Z.of_nat (length acc.1)) (ordered_dict metrics) None None).

(** ** [_fit] *)

Definition _fit : prog world unit :=
  data ← call_iter_all Train;
  call_fit data ;;
  call_save.

(** ** [_train_batches] *)

(** The variables of the loop ([TrainingState]). *)
Record locals : Type := Locals {
  i : Z;
  epochs : Z;
  examples : Z;
  saved : bool;
  patience : Z;
  best : score;
  train_y_true : list Y;
  train_y_predicted : list Y
}.

Definition set_i (v : Z) (l : locals) : locals :=
  Locals v (epochs l) (examples l) (saved l) (patience l) (best l)
         (train_y_true l) (train_y_predicted l).
Definition set_epochs (v : Z) (l : locals) : locals :=
  Locals (i l) v (examples l) (saved l) (patience l) (best l)
         (train_y_true l) (train_y_predicted l).
Definition set_examples (v : Z) (l : locals) : locals :=
  Locals (i l) (epochs l) v (saved l) (patience l) (best l)
         (train_y_true l) (train_y_predicted l).
Definition set_saved (v : bool) (l : locals) : locals :=
  Locals (i l) (epochs l) (examples l) v (patience l) (best l)
         (train_y_true l) (train_y_predicted l).
Definition set_patience (v : Z) (l : locals) : locals :=
  Locals (i l) (epochs l) (examples l) (saved l) v (best l)
         (train_y_true l) (train_y_predicted l).
Definition set_best (v : score) (l : locals) : locals :=
  Locals (i l) (epochs l) (examples l) (saved l) (patience l) v
         (train_y_true l) (train_y_predicted l).
Definition set_train_y_true (v : list Y) (l : locals) : locals :=
  Locals (i l) (epochs l) (examples l) (saved l) (patience l) (best l)
         v (train_y_predicted l).
Definition set_train_y_predicted (v : list Y) (l : locals) : locals :=
  Locals (i l) (epochs l) (examples l) (saved l) (patience l) (best l)
         (train_y_true l) v.

(** The state inside [try]: the world and the variables of the loop, which
    keep their values when the body is left by an exception. *)
Definition state : Type := world * locals.

Definition lift {A} (p : prog world A) : prog state A := fun s =>
  let o := p s.1 in Out (o_res o) (o_st o, s.2) (o_tr o).

Definition get_locals : prog state locals := fun s => Out (Val s.2) s [].

(** An assignment to variables of the loop. *)
Definition assign (f : locals -> locals) : prog state unit :=
  lift tick ;; fun s => Out (Val tt) (s.1, f s.2) [].

(** Runs [p] on fresh loop variables and hands back their final values. *)
Definition with_locals {A} (l0 : locals) (p : prog state A) : prog world (A * locals) := fun w =>
  let o := p (w, l0) in
  Out (match o_res o with
       | Val a => Val (a, (o_st o).2)
       | Raise e => Raise e
       | Timeout => Timeout
       end) (o_st o).1 (o_tr o).

(** Lines 191-200: the improvement predicate and the initial [best]. *)
Definition improvement {S} (train_config : gmap string value)
  : prog S ((score -> score -> bool) * score) :=
  v ← getitem train_config "metric_optimization";
  if is_str v "maximize" then ret (fun score best => gt score best, neg_inf)
  else
    v ← getitem train_config "metric_optimization";
    if is_str v "minimize" then ret (fun score best => lt score best, pos_inf)
    else raise ConfigError.

(** Lines 214-235: the body of [for batch in ...]. *)
Definition train_batch (train_config : gmap string value) (metrics_functions : list metric)
    (log_on : bool) (b : batch) : prog state unit :=
  let x := b.1 in
  let y_true := b.2 in
  (if log_on then
     y_predicted ← lift (call_infer x);
     assign (fun l => set_train_y_true (train_y_true l ++ y_true) l) ;;
     assign (fun l => set_train_y_predicted (train_y_predicted l ++ y_predicted) l)
   else ret tt) ;;
  lift (call_train_on_batch b) ;;
  assign (fun l => set_i (i l + 1) l) ;;
  assign (fun l => set_examples (examples l + Z.of_nat (length x)) l) ;;
  v ← getitem train_config "log_every_n_batches";
  n ← num v;
  l ← get_locals;
  if (0 <? n) && (i l mod n =? 0) then
    let metrics := apply_metrics metrics_functions (train_y_true l) (train_y_predicted l) in
    lift (print_out (PTrain (epochs l) (i l) (examples l) (ordered_dict metrics))) ;;
    assign (set_train_y_true []) ;;
    assign (set_train_y_predicted [])
  else ret tt.

(** Lines 244-271: the validation block; returns whether it breaks. *)
Definition validation (train_config : gmap string value) (metrics_functions : list metric)
    (improved : score -> score -> bool) : prog state bool :=
  bs ← getitem train_config "batch_size";
  report ← lift (_test_model metrics_functions bs Valid);
  match metrics report with
  | [] => raise IndexError
  | (m_name, score) :: _ =>
      l ← get_locals;
      (if improved score (best l) then
         assign (set_patience 0) ;;
         lift (print_err (MsgNewBest m_name score)) ;;
         assign (set_best score) ;;
         lift (print_err MsgSaving) ;;
         lift call_save ;;
         assign (set_saved true)
       else
         assign (fun l => set_patience (patience l + 1) l) ;;
         l ← get_locals;
         lift (print_err (MsgNoImprove m_name (best l)))) ;;
      l ← get_locals;
      vp ← getitem train_config "validation_patience";
      p ← num vp;
      lift (print_out (PSplit Valid
              (Report (examples_seen report) (metrics report) (Some (patience l))
                      (if 0 <? p then Some vp else None)))) ;;
      vp ← getitem train_config "validation_patience";
      p ← num vp;
      if (p <=? patience l) && (0 <? p) then
        lift (print_err MsgOutOfPatience) ;; ret true
      else ret false
  end.

(** Modelled from the spec: the defaults of [batch_generator], whose class
    is not part of the sources: [batchGenerator(batchSize, splitName='train',
    shuffle=true)]. *)
Definition default_data_type : split := Train.
Definition default_shuffle : bool := true.

(** Lines 213-274: the body of [while True]. *)
Definition epoch_body (train_config : gmap string value) (metrics_functions : list metric)
    (improved : score -> score -> bool) (log_on : bool) : prog state flow :=
  bs ← getitem train_config "batch_size";
  batches ← lift (call_batch_generator bs default_data_type default_shuffle);
  for_each batches (train_batch train_config metrics_functions log_on) ;;
  assign (fun l => set_epochs (epochs l + 1) l) ;;
  v ← getitem train_config "val_every_n_epochs";
  n ← num v;
  l ← get_locals;
  out_of_patience ←
    (if (0 <? n) && (epochs l mod n =? 0)
     then validation train_config metrics_functions improved
     else ret false);
  if (out_of_patience : bool) then ret (Break STOPPED_PATIENCE)
  else
    v ← getitem train_config "epochs";
    e ← num v;
    l ← get_locals;
    if (e <=? epochs l) && (0 <? e) then ret (Break STOPPED_EPOCHS) else ret Continue.

(** Lines 211-276: [try: while True: ... except KeyboardInterrupt: ...]. *)
Definition training_loop (fuel : nat) (train_config : gmap string value)
    (metrics_functions : list metric) (improved : score -> score -> bool) (log_on : bool)
  : prog state stop :=
  try_except
    (while_true fuel (epoch_body train_config metrics_functions improved log_on))
    (lift (print_err MsgStopped) ;; ret STOPPED_INTERRUPT).

(** Lines 278-280. *)
Definition final_save (l : locals) : prog world unit :=
  if saved l then ret tt else (print_err MsgSaving ;; call_save).

(** Lines 191-276, on the merged configuration: the set-up and the guarded
    loop; hands back the terminal state and the variables of the loop. *)
Definition loop_phase (fuel : nat) (train_config : gmap string value)
    (metrics_functions : list metric) : prog world (stop * locals) :=
  ib ← improvement train_config;
  v ← getitem train_config "log_every_n_batches";
  n ← num v;
  let log_on := 0 <? n in
  let l0 := Locals 0 0 0 false 0 ib.2 [] [] in
  with_locals l0 (training_loop fuel train_config metrics_functions ib.1 log_on).

(** The function returns the model, which is the [model] of the final world;
    the value returned here is the terminal state the loop was left in. *)
Definition _train_batches (fuel : nat) (train_config : gmap string value)
    (metrics_functions : list metric) : prog world stop :=
  let train_config := merge_config train_config in
  rl ← loop_phase fuel train_config metrics_functions;
  final_save rl.2 ;;
  ret rl.1.

(** ** [train_experimental], from line 106 on

    The dataset, the vocabularies and the training-mode model are built by
    the registry and are the initial world.  [config_train] is
    [config['train']] when the key is present; [has_train_on_batch] and
    [has_fit] are [callable(getattr(model, ..., None))];
    [get_metrics_by_names] is the metrics registry, which resolves the
    names in order and fails on an unknown name with a configuration error
    (its code is not part of the sources). *)

Variable get_metrics_by_names : list string -> option (list (list Y -> list Y -> score)).

Definition names_of {S} (v : value) : prog S (list string) :=
  match v with
  | VStrs l => ret l
  | _ => raise TypeError
  end.

(** Lines 129-145. *)
Definition test_best_saved (train_config : gmap string value) (metrics_functions : list metric)
  : prog world unit :=
  vb ← getitem train_config "validate_best";
  tb ← (if truthy vb then ret true
        else tb ← getitem train_config "test_best"; ret (truthy tb));
  if (tb : bool) then
    tick ;;
    (fun w => Out (Val tt) (World infer_mode_model (dataset w) (intr w)) [EvFromParams]) ;;
    print_err MsgTestingBest ;;
    vb ← getitem train_config "validate_best";
    (if truthy vb then
       r ← _test_model metrics_functions (get_batch_size train_config) Valid;
       print_out (PSplit Valid r)
     else ret tt) ;;
    tb ← getitem train_config "test_best";
    (if truthy tb then
       r ← _test_model metrics_functions (get_batch_size train_config) Test;
       print_out (PSplit Test r)
     else ret tt)
  else ret tt.

(** Lines 106-118: the training configuration and the metric functions. *)
Definition configure (config_train : option (gmap string value))
  : prog world (gmap string value * list metric) :=
  train_config ←
    match config_train with
    | Some user => ret (user ∪ experimental_defaults)
    | None => print_err MsgMissingTrainConfig ;; ret experimental_defaults
    end;
  v ← getitem train_config "metrics";
  names ← names_of v;
  fs ← match get_metrics_by_names names with
       | Some fs => ret fs
       | None => raise ConfigError
       end;
  ret (train_config, zip names fs).

(** Lines 120-145. *)
Definition train_experimental (fuel : nat) (has_train_on_batch has_fit : bool)
    (config_train : option (gmap string value)) : prog world unit :=
  cm ← configure config_train;
  let train_config := cm.1 in
  let metrics_functions := cm.2 in
  if has_train_on_batch then
    _train_batches fuel train_config metrics_functions ;;
    test_best_saved train_config metrics_functions
  else if has_fit then
    _fit ;;
    test_best_saved train_config metrics_functions
  else
    call_train.

(** What the evaluation of the best saved model may do when
    [train_config.get('batch_size', -1)] is [batch_size]. *)
Definition testing_event (batch_size : value) (e : event) : Prop :=
  match e with
  | EvFromParams | EvErr _ | EvInfer _ _ => True
  | EvBatchGen v Valid false _ | EvBatchGen v Test false _ => v = batch_size
  | EvOut (PSplit Valid _) | EvOut (PSplit Test _) => True
  | _ => False
  end.

(** The events each strategy of [train_experimental] does not produce. *)
Definition batch_strategy_event (e : event) : Prop :=
  match e with EvFit _ | EvTrain | EvIterAll _ => False | _ => True end.
Definition fit_strategy_event (e : event) : Prop :=
  match e with EvTrainOnBatch _ | EvTrain => False | _ => True end.
Definition legacy_strategy_event (e : event) : Prop :=
  match e with EvTrain | EvErr _ => True | _ => False end.


(** The trace before the inference-mode model is built, and from there on. *)
Definition is_from_params (e : event) : bool :=
  match e with EvFromParams => true | _ => false end.

Fixpoint training_phase (t : list event) : list event :=
  match t with
  | [] => []
  | e :: r => if is_from_params e then [] else e :: training_phase r
  end.

Fixpoint evaluation_phase (t : list event) : list event :=
  match t with
  | [] => []
  | e :: r => if is_from_params e then e :: r else evaluation_phase r
  end.

(** ** Observations on traces *)

Definition is_save (e : event) : bool :=
  match e with EvSave => true | _ => false end.

(** Number of [model.save()] calls. *)
Definition saves (t : list event) : nat := length (List.filter is_save t).

(** What [_test_model] may do: draw unshuffled batches and call [infer]. *)
Definition evaluator_event (e : event) : Prop :=
  match e with
  | EvBatchGen _ _ false _ => True
  | EvInfer _ _ => True
  | _ => False
  end.

(** Number of labels in a list of batches. *)
Definition labels_count (batches : list batch) : nat :=
  sum_list (map (fun b : batch => length b.2) batches).
Definition inputs_count (batches : list batch) : nat :=
  sum_list (map (fun b : batch => length b.1) batches).

(** Passes over the training split: the batches each one was offered, and
    the batches the model was trained on. *)
Definition is_pass (e : event) : bool :=
  match e with EvBatchGen _ Train true _ => true | _ => false end.
Definition passes (t : list event) : nat := length (List.filter is_pass t).
Definition offered (t : list event) : list batch :=
  flat_map (fun e => match e with EvBatchGen _ Train true out => out | _ => [] end) t.
Definition trained (t : list event) : list batch :=
  flat_map (fun e => match e with EvTrainOnBatch b => [b] | _ => [] end) t.

(** The outcome of each validation: [true] when it improved. *)
Definition val_outcomes (t : list event) : list bool :=
  flat_map (fun e => match e with
                     | EvErr (MsgNewBest _ _) => [true]
                     | EvErr (MsgNoImprove _ _) => [false]
                     | _ => []
                     end) t.

(** The [{'valid': ...}] reports printed. *)
Definition valid_reports (t : list event) : list report :=
  flat_map (fun e => match e with EvOut (PSplit Valid r) => [r] | _ => [] end) t.
(** The interim [{'train': ...}] reports: [batches_seen] and [metrics]. *)
Definition interim_reports (t : list event) : list (Z * list (string * score)) :=
  flat_map (fun e => match e with EvOut (PTrain _ seen _ ms) => [(seen, ms)] | _ => [] end) t.

(** The labels and the predictions of a list of records. *)
Definition labels_of (recs : list (batch * list Y)) : list Y :=
  concat (map (fun r : batch * list Y => r.1.2) recs).
Definition predictions_of (recs : list (batch * list Y)) : list Y :=
  concat (map snd recs).

(** The [k]-th window of [n] batches, the metrics computed over it, and the
    reports a pass over [recs] is to print when it starts on a window
    boundary with [seen] batches behind it: one per complete window. *)
Definition window (n k : nat) (recs : list (batch * list Y)) : list (batch * list Y) :=
  take n (drop (k * n) recs).

Definition window_metrics (mf : list metric) (w : list (batch * list Y))
  : list (string * score) :=
  ordered_dict (apply_metrics mf (labels_of w) (predictions_of w)).

Definition window_reports (mf : list metric) (seen : Z) (n : nat)
    (recs : list (batch * list Y)) : list (Z * list (string * score)) :=
  map (fun k => (seen + Z.of_nat ((k + 1) * n), window_metrics mf (window n k recs)))
      (seq 0 (length recs / n)).

(** The events of one batch of the training pass, and of the evaluator's
    loop. *)
Definition batch_event (e : event) : Prop :=
  match e with
  | EvInfer _ _ | EvTrainOnBatch _ | EvOut (PTrain _ _ _ _) => True
  | _ => False
  end.
Definition infer_event (e : event) : Prop :=
  match e with EvInfer _ _ => True | _ => False end.


(** *** The training pass as a transition function

    What lines 214-235 do to the model and to the variables of the loop for
    one batch when no interrupt arrives.  A record pairs a batch with the
    predictions made for it before the model was trained on it (none when
    logging is off). *)
Definition model_after_batch (log_on : bool) (m : M) (b : batch) : M :=
  train_on_batch (if log_on then (infer m b.1).1 else m) b.

Definition model_after (log_on : bool) (m : M) (batches : list batch) : M :=
  fold_left (model_after_batch log_on) batches m.

Fixpoint batch_records (log_on : bool) (m : M) (batches : list batch)
  : list (batch * list Y) :=
  match batches with
  | [] => []
  | b :: r =>
      (b, if log_on then (infer m b.1).2 else [])
        :: batch_records log_on (model_after_batch log_on m b) r
  end.

Definition flushes (N : Z) (l : locals) : bool := (0 <? N) && ((i l + 1) mod N =? 0).

Definition log_step (N : Z) (l : locals) (rec : batch * list Y) : locals :=
  let yt := if 0 <? N then train_y_true l ++ rec.1.2 else train_y_true l in
  let yp := if 0 <? N then train_y_predicted l ++ rec.2 else train_y_predicted l in
  Locals (i l + 1) (epochs l) (examples l + Z.of_nat (length rec.1.1))
         (saved l) (patience l) (best l)
         (if flushes N l then [] else yt) (if flushes N l then [] else yp).

Definition step_events (N : Z) (mf : list metric) (l : locals) (rec : batch * list Y)
  : list event :=
  let yt := if 0 <? N then train_y_true l ++ rec.1.2 else train_y_true l in
  let yp := if 0 <? N then train_y_predicted l ++ rec.2 else train_y_predicted l in
  (if 0 <? N then [EvInfer rec.1.1 rec.2] else []) ++
  [EvTrainOnBatch rec.1] ++
  (if flushes N l
   then [EvOut (PTrain (epochs l) (i l + 1) (examples l + Z.of_nat (length rec.1.1))
                       (ordered_dict (apply_metrics mf yt yp)))]
   else []).

Fixpoint pass_events (N : Z) (mf : list metric) (l : locals) (recs : list (batch * list Y))
  : list event :=
  match recs with
  | [] => []
  | rec :: r => step_events N mf l rec ++ pass_events N mf (log_step N l rec) r
  end.


(** *** One iteration of [while True] as a transition

    [validation_due]: line 243; [epoch_limit]: lines 273-274;
    [epoch_step]: what an uninterrupted iteration does to the control
    variables and what it leaves in the trace, for validation every [V]
    epochs, patience [P] and epoch limit [E]. *)
Definition validation_due (V : Z) (l : locals) : bool :=
  (0 <? V) && ((epochs l + 1) mod V =? 0).

Definition epoch_limit (E : Z) (e : Z) : flow :=
  if (E <=? e) && (0 <? E) then Break STOPPED_EPOCHS else Continue.

Definition summary (t : list event) (outcomes : list bool) (reports saved_now : nat) : Prop :=
  passes t = 1%nat /\ trained t = offered t /\ val_outcomes t = outcomes /\
  length (valid_reports t) = reports /\ saves t = saved_now.

Inductive epoch_step (V P E : Z) (mf : list metric) (improved : score -> score -> bool)
    (l : locals) : res flow -> locals -> list event -> Prop :=
  | step_plain l' t :
      validation_due V l = false ->
      epochs l' = epochs l + 1 -> saved l' = saved l ->
      patience l' = patience l -> best l' = best l ->
      summary t [] 0 0 ->
      epoch_step V P E mf improved l (Val (epoch_limit E (epochs l + 1))) l' t
  | step_improved l' t sc :
      validation_due V l = true -> mf <> [] ->
      improved sc (best l) = true ->
      epochs l' = epochs l + 1 -> saved l' = true ->
      patience l' = 0 -> best l' = sc ->
      summary t [true] 1 1 ->
      epoch_step V P E mf improved l (Val (epoch_limit E (epochs l + 1))) l' t
  | step_not_improved l' t sc :
      validation_due V l = true -> mf <> [] ->
      improved sc (best l) = false ->
      (P <=? patience l + 1) && (0 <? P) = false ->
      epochs l' = epochs l + 1 -> saved l' = saved l ->
      patience l' = patience l + 1 -> best l' = best l ->
      summary t [false] 1 0 ->
      epoch_step V P E mf improved l (Val (epoch_limit E (epochs l + 1))) l' t
  | step_out_of_patience l' t sc :
      validation_due V l = true -> mf <> [] ->
      improved sc (best l) = false ->
      (P <=? patience l + 1) && (0 <? P) = true ->
      epochs l' = epochs l + 1 -> saved l' = saved l ->
      patience l' = patience l + 1 -> best l' = best l ->
      summary t [false] 1 0 ->
      last t = Some (EvErr MsgOutOfPatience) ->
      epoch_step V P E mf improved l (Val (Break STOPPED_PATIENCE)) l' t
  | step_no_metric l' t :
      validation_due V l = true -> mf = [] ->
      saved l' = saved l ->
      summary t [] 0 0 ->
      epoch_step V P E mf improved l (Raise IndexError) l' t.


(** The same transition read off the outcome of the validation of the epoch
    (none, improved, or not improved). *)
Definition count_true (outcomes : list bool) : nat := length (List.filter id outcomes).

Definition patience_after (p : Z) (outcomes : list bool) : Z :=
  fold_left (fun p (b : bool) => if b then 0 else p + 1) outcomes p.

Definition epoch_flag (P E : Z) (l : locals) (outcomes : list bool) : flow :=
  if existsb negb outcomes && ((P <=? patience l + 1) && (0 <? P))
  then Break STOPPED_PATIENCE
  else epoch_limit E (epochs l + 1).


(** Uninterrupted runs of [while True] on [fuel] iterations at most, as
    sequences of [epoch_step]s. *)
Inductive loop_run (V P E : Z) (mf : list metric) (improved : score -> score -> bool)
  : nat -> locals -> res stop -> locals -> list event -> Prop :=
  | run_timeout l : loop_run V P E mf improved 0 l Timeout l []
  | run_continue fuel l l1 t1 r l2 t2 :
      epoch_step V P E mf improved l (Val Continue) l1 t1 ->
      loop_run V P E mf improved fuel l1 r l2 t2 ->
      loop_run V P E mf improved (S fuel) l r l2 (t1 ++ t2)
  | run_break fuel l st l1 t1 :
      epoch_step V P E mf improved l (Val (Break st)) l1 t1 ->
      loop_run V P E mf improved (S fuel) l (Val st) l1 t1
  | run_raise fuel l e l1 t1 :
      epoch_step V P E mf improved l (Raise e) l1 t1 ->
      loop_run V P E mf improved (S fuel) l (Raise e) l1 t1.

(** The trace [_train_batches] leaves after a loop that ended in [r] with
    variables [l] and trace [t] (lines 278-280). *)
Definition finished (r : res stop) (l : locals) (t : list event) : list event :=
  match r with
  | Val _ => t ++ (if saved l then [] else [EvErr MsgSaving; EvSave])
  | _ => t
  end.

(** [metric_optimization] is one of the two supported values. *)
Definition valid_optimization (cfg : gmap string value) : Prop :=
  cfg !! "metric_optimization" = Some (VStr "maximize") \/
  cfg !! "metric_optimization" = Some (VStr "minimize").

(** The initial [best] (lines 194 and 198). *)
Definition initial_best (cfg : gmap string value) : score :=
  match cfg !! "metric_optimization" with
  | Some v => if is_str v "minimize" then pos_inf else neg_inf
  | None => neg_inf
  end.


(** *** Sequences of validation outcomes

    [never_improves_after_first]: no validation improves after the first
    one that did.  [stops_at P p]: counting from patience [p], the patience
    reaches [P] exactly at the end of the sequence.  [below P p]: it stays
    below [P] all along. *)
Fixpoint never_improves_after_first (outcomes : list bool) : bool :=
  match outcomes with
  | [] => true
  | true :: r => forallb negb r
  | false :: r => never_improves_after_first r
  end.

Fixpoint stops_at (P p : Z) (outcomes : list bool) : Prop :=
  match outcomes with
  | [] => False
  | true :: r => stops_at P 0 r
  | false :: r => if P <=? p + 1 then r = [] else stops_at P (p + 1) r
  end.

Fixpoint below (P p : Z) (outcomes : list bool) : Prop :=
  match outcomes with
  | [] => True
  | true :: r => below P 0 r
  | false :: r => p + 1 < P /\ below P (p + 1) r
  end.


(** What [_train_batches] may do when the merged configuration has
    [batch_size] as its batch size. *)
Definition training_event (batch_size : value) (e : event) : Prop :=
  match e with
  | EvBatchGen v Train true _ => v = batch_size
  | EvBatchGen v Valid false _ => v = batch_size
  | EvInfer _ _ | EvTrainOnBatch _ | EvSave | EvErr _ => True
  | EvOut (PTrain _ _ _ _) => True
  | EvOut (PSplit Valid _) => True
  | _ => False
  end.

(** A program is sound for a relation [R] between the state before, the
    trace and the state after, and a condition [K] on the state in which a
    [KeyboardInterrupt] leaves it. *)
Definition sound {S A} (R : S -> list event -> S -> Prop) (K : S -> Prop)
    (p : prog S A) : Prop :=
  forall s, R s (o_tr (p s)) (o_st (p s)) /\
            (o_res (p s) = Raise KeyboardInterrupt -> K (o_st (p s))).

(** ** Basic facts about the monad *)

Lemma bind_ret_l {S A B} (a : A) (k : A -> prog S B) s : bind (ret a) k s = k a s.
Proof. reflexivity. Qed.

Lemma bind_val {S A B} (p : prog S A) (k : A -> prog S B) s a s1 t1 :
  p s = Out (Val a) s1 t1 ->
  bind p k s = Out (o_res (k a s1)) (o_st (k a s1)) (t1 ++ o_tr (k a s1)).
Proof. intros H. unfold bind. rewrite H. reflexivity. Qed.

Lemma bind_raise {S A B} (p : prog S A) (k : A -> prog S B) s e s1 t1 :
  p s = Out (Raise e) s1 t1 -> bind p k s = Out (Raise e) s1 t1.
Proof. intros H. unfold bind. rewrite H. reflexivity. Qed.

Lemma bind_res_val {S A B} (p : prog S A) (k : A -> prog S B) s b :
  o_res (bind p k s) = Val b ->
  exists a, o_res (p s) = Val a /\ o_res (k a (o_st (p s))) = Val b
    /\ o_st (bind p k s) = o_st (k a (o_st (p s)))
    /\ o_tr (bind p k s) = o_tr (p s) ++ o_tr (k a (o_st (p s))).
Proof.
  unfold bind. destruct (o_res (p s)) as [a|e|] eqn:E; cbn; intros H; try discriminate.
  exists a. auto.
Qed.

(** [tick] changes nothing but the pending interrupt. *)
Lemma tick_world w :
  model (o_st (tick w)) = model w /\ dataset (o_st (tick w)) = dataset w /\ o_tr (tick w) = [].
Proof. unfold tick. destruct (intr w) as [[|n]|]; cbn; auto. Qed.

Lemma tick_val w : o_res (tick w) = Val tt \/ o_res (tick w) = Raise KeyboardInterrupt.
Proof. unfold tick. destruct (intr w) as [[|n]|]; cbn; auto. Qed.

(** ** Invariants of every run, interrupted or not *)

Section Sound.
Context {S : Type} (R : S -> list event -> S -> Prop) (K : S -> Prop).
Hypothesis R_refl : forall s, R s [] s.
Hypothesis R_trans :
  forall s t1 s1 t2 s2, R s t1 s1 -> R s1 t2 s2 -> R s (t1 ++ t2) s2.

Lemma sound_ret {A} (a : A) : sound R K (ret a).
Proof. intros s. cbn. split; [apply R_refl | discriminate]. Qed.

Lemma sound_raise {A} e : e <> KeyboardInterrupt -> sound R K (@raise S A e).
Proof. intros He s. cbn. split; [apply R_refl | congruence]. Qed.

Lemma sound_getitem d k : sound R K (@getitem S d k).
Proof.
  unfold getitem. destruct (d !! k); [apply sound_ret | apply sound_raise; discriminate].
Qed.

Lemma sound_num v : sound R K (@num S v).
Proof.
  unfold num. destruct (as_num v); [apply sound_ret | apply sound_raise; discriminate].
Qed.

Lemma sound_bind {A B} (p : prog S A) (k : A -> prog S B) :
  sound R K p -> (forall a, sound R K (k a)) -> sound R K (bind p k).
Proof.
  intros Hp Hk s. destruct (Hp s) as [HR HK]. unfold bind.
  destruct (o_res (p s)) as [a|e|] eqn:E; cbn.
  - destruct (Hk a (o_st (p s))) as [HR' HK']. split; eauto.
  - split; [exact HR | intros [= ->]; auto].
  - split; [exact HR | discriminate].
Qed.

Lemma sound_for_each {A} (l : list A) (body : A -> prog S unit) :
  (forall a, sound R K (body a)) -> sound R K (for_each l body).
Proof.
  intros Hb. induction l as [|a l IH]; cbn [for_each].
  - apply sound_ret.
  - apply sound_bind; auto.
Qed.

Lemma sound_while_true fuel (body : prog S flow) :
  sound R K body -> sound R K (while_true fuel body).
Proof.
  intros Hb. induction fuel as [|n IH]; cbn [while_true].
  - intros s. cbn. split; [apply R_refl | discriminate].
  - apply sound_bind; [exact Hb |]. intros [|r]; [exact IH | apply sound_ret].
Qed.

Lemma sound_try_except {A} (p h : prog S A) :
  sound R K p -> sound R K h -> sound R K (try_except p h).
Proof.
  intros Hp Hh s. destruct (Hp s) as [HR HK]. unfold try_except.
  destruct (o_res (p s)) as [a|e|] eqn:E.
  - split; [exact HR | rewrite E; discriminate].
  - destruct e; try (split; [exact HR | rewrite E; discriminate]).
    destruct (Hh (o_st (p s))) as [HR' HK']. cbn. split; eauto.
  - split; [exact HR | rewrite E; discriminate].
Qed.
End Sound.

(** The world-level relation: every event of the trace satisfies [P]. *)
Definition Rw (P : event -> Prop) (w : world) (t : list event) (w' : world) : Prop :=
  Forall P t.
Definition Kw (w : world) : Prop := intr w = None.

(** The loop-level relation: moreover [saved] only becomes true by a save. *)
Definition Rs (P : event -> Prop) (s : state) (t : list event) (s' : state) : Prop :=
  Forall P t /\ (saved s'.2 = true -> saved s.2 = true \/ In EvSave t).
Definition Ks (s : state) : Prop := intr s.1 = None.

Lemma Rw_refl P w : Rw P w [] w.
Proof. constructor. Qed.

Lemma Rw_trans P w t1 w1 t2 w2 : Rw P w t1 w1 -> Rw P w1 t2 w2 -> Rw P w (t1 ++ t2) w2.
Proof. unfold Rw. intros. apply Forall_app. auto. Qed.

Lemma Rs_refl P s : Rs P s [] s.
Proof. split; [constructor | auto]. Qed.

Lemma Rs_trans P s t1 s1 t2 s2 : Rs P s t1 s1 -> Rs P s1 t2 s2 -> Rs P s (t1 ++ t2) s2.
Proof.
  intros [F1 S1] [F2 S2]. split; [apply Forall_app; auto |].
  intros H. rewrite in_app_iff. destruct (S2 H) as [H1|H1]; [|auto].
  destruct (S1 H1); auto.
Qed.

Create HintDb sound.
#[local] Hint Resolve Rw_refl Rw_trans Rs_refl Rs_trans : sound.

Lemma sound_tick P : sound (Rw P) Kw tick.
Proof.
  intros w. unfold tick, Rw, Kw. destruct (intr w) as [[|n]|]; cbn;
    (split; [constructor | try discriminate; auto]).
Qed.

Lemma sound_after_tick {A} P (f : prog world A) :
  (forall w, Forall P (o_tr (f w)) /\ o_res (f w) <> Raise KeyboardInterrupt) ->
  sound (Rw P) Kw (tick ;; f).
Proof.
  intros Hf. apply sound_bind; [apply Rw_trans | apply sound_tick |].
  intros _ w. destruct (Hf w). split; [assumption | contradiction].
Qed.

Lemma sound_call_infer P x : (forall ys, P (EvInfer x ys)) -> sound (Rw P) Kw (call_infer x).
Proof. intros H. apply sound_after_tick. intros w. cbn. split; [repeat constructor; auto | discriminate]. Qed.

Lemma sound_call_train_on_batch P b : P (EvTrainOnBatch b) -> sound (Rw P) Kw (call_train_on_batch b).
Proof. intros H. apply sound_after_tick. intros w. cbn. split; [repeat constructor; auto | discriminate]. Qed.

Lemma sound_emit_tick P e : P e -> sound (Rw P) Kw (tick ;; emit e).
Proof. intros H. apply sound_after_tick. intros w. cbn. split; [repeat constructor; auto | discriminate]. Qed.

Lemma sound_call_save P : P EvSave -> sound (Rw P) Kw call_save.
Proof. apply sound_emit_tick. Qed.

Lemma sound_print_out P p : P (EvOut p) -> sound (Rw P) Kw (print_out p).
Proof. apply sound_emit_tick. Qed.

Lemma sound_print_err P m : P (EvErr m) -> sound (Rw P) Kw (print_err m).
Proof. apply sound_emit_tick. Qed.

Lemma sound_call_batch_generator P bs sp sh :
  (forall out, P (EvBatchGen bs sp sh out)) -> sound (Rw P) Kw (call_batch_generator bs sp sh).
Proof. intros H. apply sound_after_tick. intros w. cbn. split; [repeat constructor; auto | discriminate]. Qed.

Lemma sound_test_batches P batches yt yp :
  (forall x ys, P (EvInfer x ys)) -> sound (Rw P) Kw (test_batches batches yt yp).
Proof.
  intros H. revert yt yp. induction batches as [|[x y] r IH]; intros yt yp; cbn [test_batches].
  - apply sound_ret. apply Rw_refl.
  - apply sound_bind; [apply Rw_trans | apply sound_call_infer; auto | auto].
Qed.

Lemma sound_test_model P mf bs sp :
  (forall out, P (EvBatchGen bs sp false out)) -> (forall x ys, P (EvInfer x ys)) ->
  sound (Rw P) Kw (_test_model mf bs sp).
Proof.
  intros H1 H2. unfold _test_model.
  apply sound_bind; [apply Rw_trans | apply sound_call_batch_generator; auto |].
  intros batches. apply sound_bind; [apply Rw_trans | apply sound_test_batches; auto |].
  intros acc. apply sound_ret. apply Rw_refl.
Qed.


Lemma sound_lift {A} P (p : prog world A) : sound (Rw P) Kw p -> sound (Rs P) Ks (lift p).
Proof.
  intros Hp [w l]. destruct (Hp w) as [HR HK]. cbn. split; [split; auto | exact HK].
Qed.

Lemma sound_get_locals P : sound (Rs P) Ks get_locals.
Proof. intros s. cbn. split; [apply Rs_refl | discriminate]. Qed.

Lemma sound_assign P f :
  (forall l, saved (f l) = true -> saved l = true) -> sound (Rs P) Ks (assign f).
Proof.
  intros Hf. unfold assign.
  apply sound_bind; [apply Rs_trans | apply sound_lift, sound_tick |].
  intros _ [w l]. cbn. split; [split; [constructor | auto] | discriminate].
Qed.

(** [model.save(); saved = True]: the flag is set only after the call. *)
Lemma sound_save_then_flag P :
  P EvSave -> sound (Rs P) Ks (lift call_save ;; assign (set_saved true)).
Proof.
  intros HP [[m d k] l]. unfold Rs, Ks.
  destruct k as [[|[|n]]|]; cbn;
    (split; [split; [repeat constructor; auto | auto] | try discriminate; auto]).
Qed.


Lemma sound_bind_ret {S A B} R K (a : A) (k : A -> prog S B) :
  sound R K (k a) -> sound R K (bind (ret a) k).
Proof. intros H s. exact (H s). Qed.

Ltac sound_loop :=
  repeat (intros;
    lazymatch goal with
    | |- sound _ _ (bind (ret _) _) => apply sound_bind_ret
    | |- sound _ _ (bind (lift call_save) (fun _ => assign (set_saved true))) =>
        apply sound_save_then_flag
    | |- sound _ _ (bind _ _) => apply sound_bind; [apply Rs_trans | | intros]
    | |- sound _ _ (ret _) => apply sound_ret; apply Rs_refl
    | |- sound _ _ (raise _) => apply sound_raise; [apply Rs_refl | discriminate]
    | |- sound _ _ (getitem _ _) => apply sound_getitem; apply Rs_refl
    | |- sound _ _ (num _) => apply sound_num; apply Rs_refl
    | |- sound _ _ get_locals => apply sound_get_locals
    | |- sound _ _ (assign _) => apply sound_assign; cbn; auto
    | |- sound _ _ (lift (call_infer _)) => apply sound_lift, sound_call_infer
    | |- sound _ _ (lift (call_train_on_batch _)) => apply sound_lift, sound_call_train_on_batch
    | |- sound _ _ (lift (print_out _)) => apply sound_lift, sound_print_out
    | |- sound _ _ (lift (print_err _)) => apply sound_lift, sound_print_err
    | |- sound _ _ (lift (_test_model _ _ _)) => apply sound_lift, sound_test_model
    | |- sound _ _ (lift (call_batch_generator _ _ _)) =>
        apply sound_lift, sound_call_batch_generator
    | |- sound _ _ (if ?c then _ else _) => destruct c
    | |- sound _ _ (match ?x with _ => _ end) => destruct x
    end).

Lemma sound_train_batch bs0 cfg mf log_on b :
  sound (Rs (training_event bs0)) Ks (train_batch cfg mf log_on b).
Proof. unfold train_batch. sound_loop; cbn; auto. Qed.

Lemma sound_validation bs0 cfg mf improved :
  cfg !! "batch_size" = Some bs0 ->
  sound (Rs (training_event bs0)) Ks (validation cfg mf improved).
Proof.
  intros Hbs. unfold validation, getitem at 1. rewrite Hbs.
  sound_loop; cbn; auto.
Qed.

Lemma sound_epoch_body bs0 cfg mf improved log_on :
  cfg !! "batch_size" = Some bs0 ->
  sound (Rs (training_event bs0)) Ks (epoch_body cfg mf improved log_on).
Proof.
  intros Hbs. unfold epoch_body, getitem at 1. rewrite Hbs.
  apply sound_bind_ret.
  apply sound_bind; [apply Rs_trans | sound_loop; cbn; auto |]. intros batches.
  apply sound_bind; [apply Rs_trans | |].
  { apply sound_for_each; [apply Rs_refl | apply Rs_trans |]. intros b. apply sound_train_batch. }
  intros _. apply sound_bind; [apply Rs_trans | sound_loop |]. intros _.
  apply sound_bind; [apply Rs_trans | sound_loop |]. intros v.
  apply sound_bind; [apply Rs_trans | sound_loop |]. intros n.
  apply sound_bind; [apply Rs_trans | sound_loop |]. intros l.
  apply sound_bind; [apply Rs_trans | |].
  { destruct (_ && _); [apply sound_validation; exact Hbs | sound_loop]. }
  intros stop. sound_loop.
Qed.

Lemma sound_training_loop bs0 fuel cfg mf improved log_on :
  cfg !! "batch_size" = Some bs0 ->
  sound (Rs (training_event bs0)) Ks (training_loop fuel cfg mf improved log_on).
Proof.
  intros Hbs. unfold training_loop. apply sound_try_except; [apply Rs_trans | |].
  - apply sound_while_true; [apply Rs_refl | apply Rs_trans |]. apply sound_epoch_body, Hbs.
  - sound_loop. exact I.
Qed.


(** Programs without effect. *)
Definition pure {S A} (p : prog S A) : Prop :=
  forall s, o_st (p s) = s /\ o_tr (p s) = [] /\ o_res (p s) <> Raise KeyboardInterrupt
            /\ o_res (p s) <> Timeout.

Lemma pure_ret {S A} (a : A) : pure (@ret S A a).
Proof. intros s. cbn. repeat split; discriminate. Qed.

Lemma pure_raise {S A} e : e <> KeyboardInterrupt -> pure (@raise S A e).
Proof. intros He s. cbn. repeat split; congruence. Qed.

Lemma pure_bind {S A B} (p : prog S A) (k : A -> prog S B) :
  pure p -> (forall a, pure (k a)) -> pure (bind p k).
Proof.
  intros Hp Hk s. destruct (Hp s) as (Hs & Ht & Hr & Hr'). unfold bind.
  destruct (o_res (p s)) as [a|e|] eqn:E; cbn.
  - rewrite Hs, Ht. destruct (Hk a s) as (Hs' & Ht' & Hr'' & Hr''').
    rewrite Hs', Ht'. repeat split; auto.
  - repeat split; auto; congruence.
  - congruence.
Qed.

Lemma pure_getitem {S} d k : pure (@getitem S d k).
Proof. unfold getitem. destruct (d !! k); [apply pure_ret | apply pure_raise; discriminate]. Qed.

Lemma pure_num {S} v : pure (@num S v).
Proof. unfold num. destruct (as_num v); [apply pure_ret | apply pure_raise; discriminate]. Qed.

Lemma pure_improvement {S} cfg : pure (@improvement S cfg).
Proof.
  unfold improvement. apply pure_bind; [apply pure_getitem |]. intros v.
  destruct (is_str v "maximize"); [apply pure_ret |].
  apply pure_bind; [apply pure_getitem |]. intros v'.
  destruct (is_str v' "minimize"); [apply pure_ret | apply pure_raise; discriminate].
Qed.

Lemma bind_pure {S A B} (p : prog S A) (k : A -> prog S B) s :
  pure p ->
  bind p k s = match o_res (p s) with
               | Val a => k a s
               | Raise e => Out (Raise e) s []
               | Timeout => Out Timeout s []
               end.
Proof.
  intros Hp. destruct (Hp s) as (Hs & Ht & _). unfold bind. rewrite Hs, Ht.
  destruct (o_res (p s)); reflexivity.
Qed.

Lemma merge_config_batch_size cfg :
  merge_config cfg !! "batch_size" = Some (default (VInt 1) (cfg !! "batch_size")).
Proof.
  unfold merge_config. rewrite lookup_union.
  destruct (cfg !! "batch_size") as [v|]; reflexivity.
Qed.


(** Postconditions on the value a program returns. *)
Definition returns {S A} (Q : A -> Prop) (p : prog S A) : Prop :=
  forall s a, o_res (p s) = Val a -> Q a.

Lemma returns_ret {S A} (Q : A -> Prop) a : Q a -> returns Q (@ret S A a).
Proof. intros H s a' [= <-]. exact H. Qed.

Lemma returns_bind {S A B} (Q1 : A -> Prop) (Q : B -> Prop) (p : prog S A) (k : A -> prog S B) :
  returns Q1 p -> (forall a, Q1 a -> returns Q (k a)) -> returns Q (bind p k).
Proof.
  intros Hp Hk s b H. apply bind_res_val in H as (a & Ha & Hb & _).
  exact (Hk a (Hp s a Ha) _ b Hb).
Qed.

Lemma returns_any {S A} (p : prog S A) : returns (fun _ => True) p.
Proof. intros s a _. exact I. Qed.

Lemma epoch_body_returns cfg mf improved log_on :
  returns (fun f => f <> Break STOPPED_INTERRUPT) (epoch_body cfg mf improved log_on).
Proof.
  unfold epoch_body.
  repeat lazymatch goal with
    | |- returns _ (bind _ _) => eapply returns_bind; [apply returns_any | intros ? _]
    | |- returns _ (if ?c then _ else _) => destruct c
    | |- returns _ (ret _) => apply returns_ret; discriminate
    end.
Qed.

Lemma while_true_returns {S} fuel (body : prog S flow) :
  returns (fun f => f <> Break STOPPED_INTERRUPT) body ->
  returns (fun r => r <> STOPPED_INTERRUPT) (while_true fuel body).
Proof.
  intros Hb. induction fuel as [|n IH]; cbn [while_true].
  - intros s a. cbn. discriminate.
  - eapply returns_bind; [exact Hb |]. intros [|r] Hr; [exact IH |].
    apply returns_ret. congruence.
Qed.

(** What holds of the set-up and the guarded loop in every run. *)
Lemma loop_phase_inv fuel cfg mf w bs0 :
  cfg !! "batch_size" = Some bs0 ->
  Forall (training_event bs0) (o_tr (loop_phase fuel cfg mf w)) /\
  o_res (loop_phase fuel cfg mf w) <> Raise KeyboardInterrupt /\
  (forall r l, o_res (loop_phase fuel cfg mf w) = Val (r, l) ->
     (saved l = true -> In EvSave (o_tr (loop_phase fuel cfg mf w))) /\
     (r = STOPPED_INTERRUPT -> intr (o_st (loop_phase fuel cfg mf w)) = None)).
Proof.
  intros Hbs. unfold loop_phase.
  rewrite bind_pure by apply pure_improvement.
  destruct (pure_improvement cfg w) as (_ & _ & Hni & _).
  destruct (o_res (improvement cfg w)) as [ib|e|];
    [| cbn; repeat split; solve [constructor | congruence | discriminate]
     | cbn; repeat split; solve [constructor | congruence | discriminate]].
  rewrite bind_pure by apply pure_getitem.
  destruct (pure_getitem (S:=world) cfg "log_every_n_batches" w) as (_ & _ & Hni1 & _).
  destruct (o_res (getitem cfg "log_every_n_batches" w)) as [v|e|];
    [| cbn; repeat split; solve [constructor | congruence | discriminate]
     | cbn; repeat split; solve [constructor | congruence | discriminate]].
  rewrite bind_pure by apply pure_num.
  destruct (pure_num (S:=world) v w) as (_ & _ & Hni2 & _).
  destruct (o_res (num v w)) as [n|e|];
    [| cbn; repeat split; solve [constructor | congruence | discriminate]
     | cbn; repeat split; solve [constructor | congruence | discriminate]].
  cbv zeta. unfold with_locals.
  set (l0 := Locals 0 0 0 false 0 ib.2 [] []).
  set (body := epoch_body cfg mf ib.1 (0 <? n)).
  pose proof (sound_while_true _ Ks (Rs_refl _) (Rs_trans _) fuel body
                (sound_epoch_body bs0 cfg mf ib.1 (0 <? n) Hbs) (w, l0)) as [[HF HS] HK].
  pose proof (while_true_returns fuel body (epoch_body_returns _ _ _ _) (w, l0)) as HQ.
  unfold training_loop, try_except. fold body.
  destruct (o_res (while_true fuel body (w, l0))) as [r|e|] eqn:E.
  - rewrite E. cbn. split; [exact HF |]. split; [discriminate |].
    intros r' l' [= <- <-]. split.
    + intros H. destruct (HS H) as [H'|H']; [discriminate H' | exact H'].
    + intros ->. exfalso. exact (HQ _ eq_refl eq_refl).
  - destruct e;
      try (rewrite E; cbn; split; [exact HF |]; split; [discriminate | discriminate]).
    specialize (HK eq_refl). unfold Ks in HK.
    destruct (o_st (while_true fuel body (w, l0))) as [[m d k] l] eqn:Est.
    cbn in HK. subst k. cbn.
    split; [rewrite Forall_app; split; [exact HF | repeat constructor] |].
    split; [discriminate |].
    intros r' l' [= <- <-]. split; [| reflexivity].
    intros H. rewrite in_app_iff. left.
    cbn in HS. destruct (HS H) as [H'|H']; [discriminate H' | exact H'].
  - rewrite E. cbn. split; [exact HF |]. split; discriminate.
Qed.


Lemma saves_app t1 t2 : saves (t1 ++ t2) = (saves t1 + saves t2)%nat.
Proof. unfold saves. rewrite List.filter_app, length_app. reflexivity. Qed.



Lemma final_save_quiet l w :
  intr w = None ->
  final_save l w = Out (Val tt) w (if saved l then [] else [EvErr MsgSaving; EvSave]).
Proof.
  destruct w as [m d k]. cbn. intros ->. unfold final_save.
  destruct (saved l); reflexivity.
Qed.



(** ** Evaluation of the pure steps *)

Lemma bind_getitem {S B} d k v (K : value -> prog S B) s :
  d !! k = Some v -> bind (getitem d k) K s = K v s.
Proof. intros H. unfold getitem. rewrite H. reflexivity. Qed.

Lemma bind_num {S B} v n (K : Z -> prog S B) s :
  as_num v = Some n -> bind (num v) K s = K n s.
Proof. intros H. unfold num. rewrite H. reflexivity. Qed.

Lemma bind_getitem_num {S B} d k n (K : Z -> prog S B) s :
  lookup_num d k = Some n ->
  bind (getitem d k) (fun v => bind (num v) K) s = K n s.
Proof.
  unfold lookup_num. destruct (d !! k) as [v|] eqn:E; [|discriminate].
  intros H. rewrite (bind_getitem _ _ _ _ _ E). apply bind_num, H.
Qed.

Lemma is_str_true v s : is_str v s = true <-> v = VStr s.
Proof.
  destruct v; cbn; try (split; [discriminate | discriminate]).
  rewrite String.eqb_eq. split; congruence.
Qed.

Lemma is_str_false v s : v <> VStr s -> is_str v s = false.
Proof.
  intros H. destruct (is_str v s) eqn:E; [|reflexivity].
  apply is_str_true in E. contradiction.
Qed.

Lemma improvement_maximize {S} cfg (s : S) :
  cfg !! "metric_optimization" = Some (VStr "maximize") ->
  improvement cfg s = Out (Val (gt, neg_inf)) s [].
Proof. intros H. unfold improvement. rewrite (bind_getitem _ _ _ _ _ H). reflexivity. Qed.

Lemma improvement_minimize {S} cfg (s : S) :
  cfg !! "metric_optimization" = Some (VStr "minimize") ->
  improvement cfg s = Out (Val (lt, pos_inf)) s [].
Proof.
  intros H. unfold improvement. rewrite (bind_getitem _ _ _ _ _ H). cbv beta.
  rewrite (is_str_false (VStr "minimize") "maximize") by discriminate.
  rewrite (bind_getitem _ _ _ _ _ H). reflexivity.
Qed.

Lemma improvement_other {S} cfg v (s : S) :
  cfg !! "metric_optimization" = Some v ->
  v <> VStr "maximize" -> v <> VStr "minimize" ->
  improvement cfg s = Out (Raise ConfigError) s [].
Proof.
  intros H H1 H2. unfold improvement. rewrite (bind_getitem _ _ _ _ _ H). cbv beta.
  rewrite (is_str_false _ _ H1). rewrite (bind_getitem _ _ _ _ _ H). cbv beta.
  rewrite (is_str_false _ _ H2). reflexivity.
Qed.

(** When the set-up succeeds, the loop phase is the guarded loop on the
    initial variables. *)
Lemma loop_phase_eq fuel cfg mf w improved best0 n :
  improvement cfg w = Out (Val (improved, best0)) w [] ->
  lookup_num cfg "log_every_n_batches" = Some n ->
  loop_phase fuel cfg mf w =
  with_locals (Locals 0 0 0 false 0 best0 [] [])
              (training_loop fuel cfg mf improved (0 <? n)) w.
Proof.
  intros Hi Hn. unfold loop_phase.
  rewrite (bind_val _ _ _ _ _ _ Hi). cbn [app fst snd].
  rewrite (bind_getitem_num _ _ _ _ _ Hn). reflexivity.
Qed.

(** C3. The improvement predicate and the initial [best] follow
    [metric_optimization]: [maximize] gives [score > best] and [-inf],
    [minimize] gives [score < best] and [+inf], and the loop runs with them;
    any other value makes [_train_batches] raise [ConfigError] with an empty
    trace and an unchanged world (no batch drawn, no call on the model). *)
Theorem improvement_by_metric_optimization cfg v :
  merge_config cfg !! "metric_optimization" = Some v ->
  (v = VStr "maximize" ->
     (forall w : world, improvement (merge_config cfg) w = Out (Val (gt, neg_inf)) w []) /\
     (forall fuel mf w n,
        lookup_num (merge_config cfg) "log_every_n_batches" = Some n ->
        loop_phase fuel (merge_config cfg) mf w =
        with_locals (Locals 0 0 0 false 0 neg_inf [] [])
                    (training_loop fuel (merge_config cfg) mf gt (0 <? n)) w)) /\
  (v = VStr "minimize" ->
     (forall w : world, improvement (merge_config cfg) w = Out (Val (lt, pos_inf)) w []) /\
     (forall fuel mf w n,
        lookup_num (merge_config cfg) "log_every_n_batches" = Some n ->
        loop_phase fuel (merge_config cfg) mf w =
        with_locals (Locals 0 0 0 false 0 pos_inf [] [])
                    (training_loop fuel (merge_config cfg) mf lt (0 <? n)) w)) /\
  (v <> VStr "maximize" -> v <> VStr "minimize" ->
     forall fuel mf w, _train_batches fuel cfg mf w = Out (Raise ConfigError) w []).
Proof.
  intros Hv. split; [|split].
  - intros ->. split.
    + intros w. apply improvement_maximize, Hv.
    + intros. apply loop_phase_eq; [apply improvement_maximize, Hv | assumption].
  - intros ->. split.
    + intros w. apply improvement_minimize, Hv.
    + intros. apply loop_phase_eq; [apply improvement_minimize, Hv | assumption].
  - intros H1 H2 fuel mf w. unfold _train_batches. cbv zeta.
    apply bind_raise. unfold loop_phase. apply bind_raise.
    apply (improvement_other _ _ _ Hv H1 H2).
Qed.


(** ** The evaluator *)

Lemma call_infer_val x w ys :
  o_res (call_infer x w) = Val ys ->
  ys = (infer (model w) x).2 /\
  model (o_st (call_infer x w)) = (infer (model w) x).1 /\
  dataset (o_st (call_infer x w)) = dataset w /\
  o_tr (call_infer x w) = [EvInfer x ys].
Proof.
  destruct w as [m d [[|n]|]]; cbn; intros H; try discriminate;
    injection H as <-; auto.
Qed.

Lemma call_infer_quiet x m d :
  call_infer x (World m d None) =
  Out (Val (infer m x).2) (World (infer m x).1 d None) [EvInfer x (infer m x).2].
Proof. reflexivity. Qed.

Lemma call_infer_world x w :
  dataset (o_st (call_infer x w)) = dataset w /\
  (model (o_st (call_infer x w)) = model w \/
   model (o_st (call_infer x w)) = (infer (model w) x).1).
Proof. destruct w as [m d [[|n]|]]; cbn; auto. Qed.

Lemma call_batch_generator_val bs sp sh w batches :
  o_res (call_batch_generator bs sp sh w) = Val batches ->
  batches = (batch_generator (dataset w) bs sp sh).2 /\
  model (o_st (call_batch_generator bs sp sh w)) = model w /\
  dataset (o_st (call_batch_generator bs sp sh w)) = (batch_generator (dataset w) bs sp sh).1.
Proof.
  destruct w as [m d [[|n]|]]; cbn; intros H; try discriminate;
    injection H as <-; auto.
Qed.

Lemma call_batch_generator_world bs sp sh w :
  model (o_st (call_batch_generator bs sp sh w)) = model w /\
  (dataset (o_st (call_batch_generator bs sp sh w)) = dataset w \/
   dataset (o_st (call_batch_generator bs sp sh w)) = (batch_generator (dataset w) bs sp sh).1).
Proof. destruct w as [m d [[|n]|]]; cbn; auto. Qed.

(** The accumulated labels are those of the batches, in order. *)
Lemma test_batches_labels batches : forall yt yp w acc,
  o_res (test_batches batches yt yp w) = Val acc ->
  acc.1 = yt ++ concat (map snd batches).
Proof.
  induction batches as [|[x y] r IH]; intros yt yp w acc H; cbn [test_batches] in H.
  - injection H as <-. cbn. rewrite app_nil_r. reflexivity.
  - apply bind_res_val in H as (ys & _ & H & _).
    rewrite (IH _ _ _ _ H). cbn. rewrite app_assoc. reflexivity.
Qed.

(** The value returned depends on the model only. *)
Lemma test_batches_deterministic batches : forall yt yp w1 w2 a1 a2,
  model w1 = model w2 ->
  o_res (test_batches batches yt yp w1) = Val a1 ->
  o_res (test_batches batches yt yp w2) = Val a2 ->
  a1 = a2.
Proof.
  induction batches as [|[x y] r IH]; intros yt yp w1 w2 a1 a2 Hm H1 H2;
    cbn [test_batches] in H1, H2.
  - cbn in H1, H2. congruence.
  - apply bind_res_val in H1 as (ys1 & Hi1 & H1 & _).
    apply bind_res_val in H2 as (ys2 & Hi2 & H2 & _).
    apply call_infer_val in Hi1 as (-> & Hm1 & _).
    apply call_infer_val in Hi2 as (-> & Hm2 & _).
    rewrite Hm in H1. eapply IH; [| exact H1 | exact H2]. congruence.
Qed.

(** The evaluator leaves the dataset alone, and the model too when [infer] does. *)
Lemma test_batches_world batches : forall yt yp w,
  dataset (o_st (test_batches batches yt yp w)) = dataset w /\
  ((forall m xs, (infer m xs).1 = m) ->
   model (o_st (test_batches batches yt yp w)) = model w).
Proof.
  induction batches as [|[x y] r IH]; intros yt yp w; cbn [test_batches].
  - cbn. auto.
  - unfold bind. destruct (call_infer_world x w) as [Hd Hm].
    destruct (o_res (call_infer x w)) as [ys|e|]; cbn.
    + destruct (IH (yt ++ y) (yp ++ ys) (o_st (call_infer x w))) as [Hd' Hm'].
      split; [congruence |]. intros Hc. rewrite (Hm' Hc).
      destruct Hm as [->| ->]; auto.
    + split; [exact Hd |]. intros Hc. destruct Hm as [->| ->]; auto.
    + split; [exact Hd |]. intros Hc. destruct Hm as [->| ->]; auto.
Qed.

Lemma test_batches_quiet batches : forall yt yp m d,
  exists acc m' t,
    test_batches batches yt yp (World m d None) = Out (Val acc) (World m' d None) t.
Proof.
  induction batches as [|[x y] r IH]; intros yt yp m d; cbn [test_batches].
  - eexists _, _, _. reflexivity.
  - destruct (IH (yt ++ y) (yp ++ (infer m x).2) (infer m x).1 d) as (acc & m' & t & H).
    exists acc, m', ([EvInfer x (infer m x).2] ++ t).
    rewrite (bind_val _ _ _ _ _ _ (call_infer_quiet x m d)). rewrite H. reflexivity.
Qed.

Lemma test_model_quiet mf bs sp m d :
  exists r m' t,
    _test_model mf bs sp (World m d None) =
    Out (Val r) (World m' (batch_generator d bs sp false).1 None) t.
Proof.
  unfold _test_model.
  destruct (test_batches_quiet (batch_generator d bs sp false).2 [] [] m
              (batch_generator d bs sp false).1) as (acc & m' & t & H).
  eexists _, m', _.
  erewrite bind_val by reflexivity. cbn [o_res o_st o_tr].
  erewrite bind_val by exact H. reflexivity.
Qed.

Lemma test_model_val mf bs sp w r :
  o_res (_test_model mf bs sp w) = Val r ->
  exists acc,
    o_res (test_batches (batch_generator (dataset w) bs sp false).2 [] []
             (o_st (call_batch_generator bs sp false w))) = Val acc /\
    r = Report (Z.of_nat (length acc.1))
               (ordered_dict (apply_metrics mf acc.1 acc.2)) None None.
Proof.
  unfold _test_model. intros H.
  apply bind_res_val in H as (batches & Hb & H & _).
  apply call_batch_generator_val in Hb as (-> & _).
  apply bind_res_val in H as (acc & Ha & H & _).
  exists acc. split; [exact Ha |]. cbn in H. congruence.
Qed.


Lemma length_concat_labels (batches : list batch) :
  length (concat (map snd batches)) = labels_count batches.
Proof.
  unfold labels_count. induction batches as [|b r IH]; [reflexivity |].
  cbn. rewrite length_app, IH. reflexivity.
Qed.

Lemma labels_inputs_count (batches : list batch) :
  Forall (fun b : batch => length b.1 = length b.2) batches ->
  labels_count batches = inputs_count batches.
Proof.
  unfold labels_count, inputs_count. induction 1 as [|b r Hb _ IH]; [reflexivity |].
  cbn. rewrite IH, Hb. reflexivity.
Qed.

(** C6. The [examples_seen] of the evaluator's report is the number of
    labels of the batches it drew from the split: the sum of the batch
    sizes.  When the generator hands the whole split over as one batch, it
    is the number of examples of the split.  Without interrupt the
    evaluator does return a report. *)
Theorem examples_seen_is_labels_drawn mf bs sp w :
  let batches := (batch_generator (dataset w) bs sp false).2 in
  (intr w = None -> exists r, o_res (_test_model mf bs sp w) = Val r) /\
  (forall r, o_res (_test_model mf bs sp w) = Val r ->
     examples_seen r = Z.of_nat (labels_count batches) /\
     (Forall (fun b : batch => length b.1 = length b.2) batches ->
      examples_seen r = Z.of_nat (inputs_count batches)) /\
     (forall b, batches = [b] -> b.2 = map snd (iter_all (dataset w) sp) ->
      examples_seen r = Z.of_nat (length (iter_all (dataset w) sp)))).
Proof.
  intros batches. split.
  - destruct w as [m d k]. cbn. intros ->.
    destruct (test_model_quiet mf bs sp m d) as (r & m' & t & H).
    exists r. rewrite H. reflexivity.
  - intros r Hr. apply test_model_val in Hr as (acc & Ha & ->).
    apply test_batches_labels in Ha. cbn [examples_seen].
    rewrite Ha. cbn [app]. rewrite length_concat_labels. fold batches.
    split; [reflexivity |]. split.
    + intros HF. rewrite (labels_inputs_count _ HF). reflexivity.
    + intros b Hb Hall. rewrite Hb. unfold labels_count. cbn.
      rewrite Hall, length_map. f_equal. lia.
Qed.

(** C7. The evaluator only draws unshuffled batches and calls [infer]; it
    leaves the model as it was whenever [infer] does; the report is a
    function of the model and the dataset it starts from; and, when neither
    [infer] nor the unshuffled generator mutates its object, a second
    invocation returns the same report (the same metrics mapping).  Without
    interrupt the evaluator does return a report. *)
Theorem evaluator_deterministic mf bs sp :
  (forall w, Forall evaluator_event (o_tr (_test_model mf bs sp w))) /\
  (forall w, (forall m xs, (infer m xs).1 = m) ->
     model (o_st (_test_model mf bs sp w)) = model w) /\
  (forall w1 w2 r1 r2,
     model w1 = model w2 -> dataset w1 = dataset w2 ->
     o_res (_test_model mf bs sp w1) = Val r1 ->
     o_res (_test_model mf bs sp w2) = Val r2 ->
     r1 = r2) /\
  (forall w r1 r2,
     (forall m xs, (infer m xs).1 = m) ->
     (forall d, (batch_generator d bs sp false).1 = d) ->
     o_res (_test_model mf bs sp w) = Val r1 ->
     o_res (_test_model mf bs sp (o_st (_test_model mf bs sp w))) = Val r2 ->
     r2 = r1 /\ metrics r2 = metrics r1) /\
  (forall w, intr w = None ->
     exists r, o_res (_test_model mf bs sp w) = Val r /\
               intr (o_st (_test_model mf bs sp w)) = None).
Proof.
  assert (Hworld : forall w,
    (forall m xs, (infer m xs).1 = m) ->
    model (o_st (_test_model mf bs sp w)) = model w).
  { intros w Hc. unfold _test_model. unfold bind at 1.
    destruct (call_batch_generator_world bs sp false w) as [Hm _].
    destruct (o_res (call_batch_generator bs sp false w)) as [batches|e|]; cbn [o_st];
      try exact Hm.
    unfold bind.
    destruct (test_batches_world batches [] [] (o_st (call_batch_generator bs sp false w)))
      as [_ Hm'].
    destruct (o_res (test_batches batches [] [] _)); cbn [o_st ret]; rewrite (Hm' Hc); exact Hm. }
  assert (Hdata : forall w,
    (forall d, (batch_generator d bs sp false).1 = d) ->
    dataset (o_st (_test_model mf bs sp w)) = dataset w).
  { intros w Hc. unfold _test_model. unfold bind at 1.
    destruct (call_batch_generator_world bs sp false w) as [_ Hd].
    rewrite Hc in Hd. assert (Hd' : dataset (o_st (call_batch_generator bs sp false w)) = dataset w)
      by (destruct Hd; assumption).
    destruct (o_res (call_batch_generator bs sp false w)) as [batches|e|]; cbn [o_st];
      try exact Hd'.
    unfold bind.
    destruct (test_batches_world batches [] [] (o_st (call_batch_generator bs sp false w)))
      as [Hd2 _].
    destruct (o_res (test_batches batches [] [] _)); cbn [o_st ret]; rewrite Hd2; exact Hd'. }
  assert (Hdet : forall w1 w2 r1 r2,
     model w1 = model w2 -> dataset w1 = dataset w2 ->
     o_res (_test_model mf bs sp w1) = Val r1 ->
     o_res (_test_model mf bs sp w2) = Val r2 ->
     r1 = r2).
  { intros w1 w2 r1 r2 Hm Hd H1 H2.
    apply test_model_val in H1 as (a1 & Ha1 & ->).
    apply test_model_val in H2 as (a2 & Ha2 & ->).
    rewrite Hd in Ha1.
    assert (a1 = a2) as ->; [| reflexivity].
    eapply test_batches_deterministic; [| exact Ha1 | exact Ha2].
    destruct (call_batch_generator_world bs sp false w1) as [-> _].
    destruct (call_batch_generator_world bs sp false w2) as [-> _]. exact Hm. }
  split; [| split; [exact Hworld | split; [exact Hdet | split]]].
  - intros w.
    destruct (sound_test_model evaluator_event mf bs sp) with (s := w) as [H _];
      [intros; exact I | intros; exact I | exact H].
  - intros w r1 r2 Hc1 Hc2 H1 H2.
    assert (r2 = r1) as ->; [| auto].
    eapply Hdet; [| | exact H2 | exact H1]; [apply Hworld, Hc1 | apply Hdata, Hc2].
  - intros [m d k]. cbn. intros ->.
    destruct (test_model_quiet mf bs sp m d) as (r & m' & t & H).
    exists r. rewrite H. auto.
Qed.


(** ** Runs without interrupt *)

Lemma assign_quiet f m d l :
  assign f (World m d None, l) = Out (Val tt) (World m d None, f l) [].
Proof. reflexivity. Qed.

Lemma bind_step {S A B} (p : prog S A) (k : A -> prog S B) s a s1 t1 r s2 t2 :
  p s = Out (Val a) s1 t1 -> k a s1 = Out r s2 t2 -> bind p k s = Out r s2 (t1 ++ t2).
Proof. intros H1 H2. rewrite (bind_val _ _ _ _ _ _ H1), H2. reflexivity. Qed.

Lemma getitem_step {S} d k v (s : S) :
  d !! k = Some v -> getitem d k s = Out (Val v) s [].
Proof. intros H. unfold getitem. rewrite H. reflexivity. Qed.

Lemma num_step {S} v n (s : S) : as_num v = Some n -> num v s = Out (Val n) s [].
Proof. intros H. unfold num. rewrite H. reflexivity. Qed.

Lemma lift_call_infer_quiet x m d l :
  lift (call_infer x) (World m d None, l) =
  Out (Val (infer m x).2) (World (infer m x).1 d None, l) [EvInfer x (infer m x).2].
Proof. reflexivity. Qed.

Lemma lift_call_train_on_batch_quiet b m d l :
  lift (call_train_on_batch b) (World m d None, l) =
  Out (Val tt) (World (train_on_batch m b) d None, l) [EvTrainOnBatch b].
Proof. reflexivity. Qed.

Lemma lift_call_save_quiet m d l :
  lift call_save (World m d None, l) = Out (Val tt) (World m d None, l) [EvSave].
Proof. reflexivity. Qed.

Lemma lift_print_out_quiet p m d l :
  lift (print_out p) (World m d None, l) = Out (Val tt) (World m d None, l) [EvOut p].
Proof. reflexivity. Qed.

Lemma lift_print_err_quiet e m d l :
  lift (print_err e) (World m d None, l) = Out (Val tt) (World m d None, l) [EvErr e].
Proof. reflexivity. Qed.

Lemma lift_call_batch_generator_quiet bs sp sh m d l :
  lift (call_batch_generator bs sp sh) (World m d None, l) =
  Out (Val (batch_generator d bs sp sh).2) (World m (batch_generator d bs sp sh).1 None, l)
      [EvBatchGen bs sp sh (batch_generator d bs sp sh).2].
Proof. reflexivity. Qed.

Lemma get_locals_quiet (s : state) : get_locals s = Out (Val s.2) s [].
Proof. reflexivity. Qed.

(** Symbolic execution of a program on a state without pending interrupt:
    the goal is [p s = Out ?r ?s' ?t]. *)
Ltac qprim :=
  lazymatch goal with
  | |- getitem _ _ _ = _ => apply getitem_step; eassumption
  | |- num _ _ = _ => apply num_step; eassumption
  | |- assign _ _ = _ => apply assign_quiet
  | |- get_locals _ = _ => apply get_locals_quiet
  | |- lift (call_infer _) _ = _ => apply lift_call_infer_quiet
  | |- lift (call_train_on_batch _) _ = _ => apply lift_call_train_on_batch_quiet
  | |- lift call_save _ = _ => apply lift_call_save_quiet
  | |- lift (print_out _) _ = _ => apply lift_print_out_quiet
  | |- lift (print_err _) _ = _ => apply lift_print_err_quiet
  | |- lift (call_batch_generator _ _ _) _ = _ => apply lift_call_batch_generator_quiet
  | |- ret _ _ = _ => reflexivity
  end.

Ltac qnorm :=
  cbv beta;
  cbn [fst snd i epochs examples saved patience best train_y_true train_y_predicted
       set_i set_epochs set_examples set_saved set_patience set_best
       set_train_y_true set_train_y_predicted].

Ltac qrun :=
  repeat (qnorm;
    lazymatch goal with
    | |- bind (bind _ _) _ _ = _ => eapply bind_step; [qrun |]
    | |- bind _ _ _ = _ => eapply bind_step; [qprim |]
    | |- ret _ _ = _ => reflexivity
    | |- lift _ _ = _ => qprim
    | |- assign _ _ = _ => qprim
    end);
  try qnorm.

(** One batch of the training pass. *)
Lemma train_batch_quiet cfg mf (b : batch) m d l vN N :
  cfg !! "log_every_n_batches" = Some vN -> as_num vN = Some N ->
  let log_on := 0 <? N in
  let y_predicted := (infer m b.1).2 in
  let yt := if log_on then train_y_true l ++ b.2 else train_y_true l in
  let yp := if log_on then train_y_predicted l ++ y_predicted else train_y_predicted l in
  let flush := (0 <? N) && ((i l + 1) mod N =? 0) in
  let ex := examples l + Z.of_nat (length b.1) in
  train_batch cfg mf log_on b (World m d None, l) =
  Out (Val tt)
      (World (train_on_batch (if log_on then (infer m b.1).1 else m) b) d None,
       Locals (i l + 1) (epochs l) ex (saved l) (patience l) (best l)
              (if flush then [] else yt) (if flush then [] else yp))
      ((if log_on then [EvInfer b.1 y_predicted] else []) ++
       [EvTrainOnBatch b] ++
       (if flush
        then [EvOut (PTrain (epochs l) (i l + 1) ex (ordered_dict (apply_metrics mf yt yp)))]
        else [])).
Proof.
  intros HvN HN log_on y_predicted yt yp flush ex. unfold train_batch.
  subst log_on yt yp flush ex y_predicted. destruct l as [i0 ep ex sv pa be yt yp].
  cbn [i epochs examples saved patience best train_y_true train_y_predicted].
  destruct (0 <? N) eqn:E0; cbn [andb].
  - destruct ((i0 + 1) mod N =? 0) eqn:E1.
    + eapply eq_trans.
      { qrun. rewrite E0, E1. cbn [andb]. qrun. }
      reflexivity.
    + eapply eq_trans.
      { qrun. rewrite E0, E1. cbn [andb]. qrun. }
      reflexivity.
  - eapply eq_trans.
    { qrun. rewrite E0. cbn [andb]. qrun. }
    reflexivity.
Qed.

Lemma train_batch_step cfg mf (b : batch) m d l vN N :
  cfg !! "log_every_n_batches" = Some vN -> as_num vN = Some N ->
  let rec := (b, if 0 <? N then (infer m b.1).2 else []) in
  train_batch cfg mf (0 <? N) b (World m d None, l) =
  Out (Val tt) (World (model_after_batch (0 <? N) m b) d None, log_step N l rec)
      (step_events N mf l rec).
Proof.
  intros HvN HN rec. rewrite (train_batch_quiet cfg mf b m d l vN N HvN HN).
  unfold log_step, step_events, flushes, model_after_batch. subst rec. cbn [fst snd].
  destruct (0 <? N); reflexivity.
Qed.

(** A whole pass over the batches of an epoch. *)
Lemma training_pass_quiet cfg mf vN N :
  cfg !! "log_every_n_batches" = Some vN -> as_num vN = Some N ->
  forall batches m d l,
    for_each batches (train_batch cfg mf (0 <? N)) (World m d None, l) =
    Out (Val tt)
        (World (model_after (0 <? N) m batches) d None,
         fold_left (log_step N) (batch_records (0 <? N) m batches) l)
        (pass_events N mf l (batch_records (0 <? N) m batches)).
Proof.
  intros HvN HN. induction batches as [|b r IH]; intros m d l.
  - reflexivity.
  - cbn [for_each batch_records fold_left pass_events model_after].
    eapply bind_step; [apply (train_batch_step _ _ _ _ _ _ _ _ HvN HN) |].
    apply IH.
Qed.


(** *** Observations of composed traces *)

Lemma passes_app t1 t2 : passes (t1 ++ t2) = (passes t1 + passes t2)%nat.
Proof. unfold passes. rewrite List.filter_app, length_app. reflexivity. Qed.

Lemma offered_app t1 t2 : offered (t1 ++ t2) = offered t1 ++ offered t2.
Proof. apply flat_map_app. Qed.

Lemma trained_app t1 t2 : trained (t1 ++ t2) = trained t1 ++ trained t2.
Proof. apply flat_map_app. Qed.

Lemma val_outcomes_app t1 t2 : val_outcomes (t1 ++ t2) = val_outcomes t1 ++ val_outcomes t2.
Proof. apply flat_map_app. Qed.

Lemma valid_reports_app t1 t2 :
  valid_reports (t1 ++ t2) = valid_reports t1 ++ valid_reports t2.
Proof. apply flat_map_app. Qed.

Lemma interim_reports_app t1 t2 :
  interim_reports (t1 ++ t2) = interim_reports t1 ++ interim_reports t2.
Proof. apply flat_map_app. Qed.

(** The events of the batches of a pass are not control events. *)
Lemma batch_events_obs t :
  Forall batch_event t ->
  passes t = 0%nat /\ offered t = [] /\ val_outcomes t = [] /\ valid_reports t = [] /\
  saves t = 0%nat.
Proof.
  induction 1 as [|e t He _ IH]; [repeat split |].
  destruct IH as (H1 & H2 & H3 & H4 & H5).
  destruct e as [| | | | | | | |[]|]; try contradiction; cbn;
    unfold passes, offered, val_outcomes, valid_reports, saves in *; cbn;
    rewrite ?H1, ?H2, ?H3, ?H4, ?H5; repeat split; assumption.
Qed.

Lemma infer_events_obs t :
  Forall infer_event t ->
  passes t = 0%nat /\ offered t = [] /\ val_outcomes t = [] /\ valid_reports t = [] /\
  saves t = 0%nat /\ trained t = [] /\ interim_reports t = [].
Proof.
  induction 1 as [|e t He _ IH]; [repeat split |].
  destruct IH as (H1 & H2 & H3 & H4 & H5 & H6 & H7).
  destruct e; try contradiction; cbn;
    unfold passes, offered, val_outcomes, valid_reports, saves, trained, interim_reports in *;
    cbn; rewrite ?H1, ?H2, ?H3, ?H4, ?H5, ?H6, ?H7; repeat split; assumption.
Qed.

Lemma step_events_batch N mf l rec : Forall batch_event (step_events N mf l rec).
Proof.
  unfold step_events. destruct (0 <? N), (flushes N l); repeat constructor.
Qed.

Lemma pass_events_batch N mf recs : forall l, Forall batch_event (pass_events N mf l recs).
Proof.
  induction recs as [|rec r IH]; intros l; cbn [pass_events]; [constructor |].
  apply Forall_app. split; [apply step_events_batch | apply IH].
Qed.

Lemma batch_records_batches log_on batches :
  forall m, map fst (batch_records log_on m batches) = batches.
Proof. induction batches as [|b r IH]; intros m; cbn; [|rewrite IH]; reflexivity. Qed.

Lemma pass_events_trained N mf recs :
  forall l, trained (pass_events N mf l recs) = map fst recs.
Proof.
  induction recs as [|rec r IH]; intros l; cbn [pass_events map]; [reflexivity |].
  rewrite trained_app, IH. unfold step_events.
  destruct (0 <? N), (flushes N l); reflexivity.
Qed.

(** A pass leaves the control variables of the loop alone. *)
Lemma pass_locals N recs : forall l,
  let l' := fold_left (log_step N) recs l in
  epochs l' = epochs l /\ saved l' = saved l /\ patience l' = patience l /\
  best l' = best l /\ i l' = i l + Z.of_nat (length recs).
Proof.
  induction recs as [|rec r IH]; intros l; cbn [fold_left length].
  - repeat split. lia.
  - destruct (IH (log_step N l rec)) as (H1 & H2 & H3 & H4 & H5).
    cbn zeta. rewrite H1, H2, H3, H4, H5. cbn. repeat split. lia.
Qed.


Lemma test_batches_quiet_events batches : forall yt yp m d,
  exists acc m' t,
    Forall infer_event t /\
    test_batches batches yt yp (World m d None) = Out (Val acc) (World m' d None) t.
Proof.
  induction batches as [|[x y] r IH]; intros yt yp m d; cbn [test_batches].
  - eexists _, _, _. split; [constructor | reflexivity].
  - destruct (IH (yt ++ y) (yp ++ (infer m x).2) (infer m x).1 d) as (acc & m' & t & HF & H).
    exists acc, m', ([EvInfer x (infer m x).2] ++ t). split.
    + constructor; [exact I | exact HF].
    + eapply bind_step; [apply call_infer_quiet | exact H].
Qed.

Lemma od_set_nonempty {V} k (v : V) d : od_set k v d <> [].
Proof. destruct d as [|[k' v'] r]; cbn; [discriminate |]. destruct (String.eqb k k'); discriminate. Qed.

Lemma fold_od_set_nonempty {V} (pairs : list (string * V)) : forall d,
  d <> [] -> fold_left (fun d kv => od_set kv.1 kv.2 d) pairs d <> [].
Proof.
  induction pairs as [|kv r IH]; intros d Hd; cbn [fold_left]; [exact Hd |].
  apply IH, od_set_nonempty.
Qed.

Lemma ordered_dict_nonempty {V} (pairs : list (string * V)) :
  pairs <> [] -> ordered_dict pairs <> [].
Proof.
  destruct pairs as [|kv r]; [congruence |]. intros _. unfold ordered_dict.
  cbn [fold_left]. apply fold_od_set_nonempty, od_set_nonempty.
Qed.

(** The evaluator inside the loop. *)
Lemma lift_test_model_quiet mf bs sp m d l :
  exists r m' ti,
    Forall infer_event ti /\
    (mf = [] -> metrics r = []) /\
    (mf <> [] -> metrics r <> []) /\
    lift (_test_model mf bs sp) (World m d None, l) =
    Out (Val r) (World m' (batch_generator d bs sp false).1 None, l)
        ([EvBatchGen bs sp false (batch_generator d bs sp false).2] ++ ti).
Proof.
  destruct (test_batches_quiet_events (batch_generator d bs sp false).2 [] [] m
              (batch_generator d bs sp false).1) as (acc & m' & ti & HF & H).
  exists (Report (Z.of_nat (length acc.1)) (ordered_dict (apply_metrics mf acc.1 acc.2))
                 None None), m', ti.
  split; [exact HF |]. split; [| split].
  - intros ->. reflexivity.
  - intros Hmf. cbn [metrics]. apply ordered_dict_nonempty.
    destruct mf; [congruence | discriminate].
  - assert (Hw : _test_model mf bs sp (World m d None) =
      Out (Val (Report (Z.of_nat (length acc.1))
                       (ordered_dict (apply_metrics mf acc.1 acc.2)) None None))
          (World m' (batch_generator d bs sp false).1 None)
          ([EvBatchGen bs sp false (batch_generator d bs sp false).2] ++ ti ++ [])).
    { unfold _test_model. eapply bind_step; [reflexivity |].
      eapply bind_step; [exact H | reflexivity]. }
    unfold lift. cbn [fst snd]. rewrite Hw. rewrite app_nil_r. reflexivity.
Qed.


(** The validation block, when there is a metric. *)
Lemma validation_quiet cfg mf improved m d l bsv vp P :
  cfg !! "batch_size" = Some bsv ->
  cfg !! "validation_patience" = Some vp -> as_num vp = Some P ->
  mf <> [] ->
  exists m' ti name sc rep,
    Forall infer_event ti /\
    let d' := (batch_generator d bsv Valid false).1 in
    let head := [EvBatchGen bsv Valid false (batch_generator d bsv Valid false).2] ++ ti in
    let stop := (P <=? patience l + 1) && (0 <? P) in
    validation cfg mf improved (World m d None, l) =
    if improved sc (best l) then
      Out (Val false)
          (World m' d' None, set_saved true (set_best sc (set_patience 0 l)))
          (head ++ [EvErr (MsgNewBest name sc); EvErr MsgSaving; EvSave;
                    EvOut (PSplit Valid (rep 0))])
    else
      Out (Val stop)
          (World m' d' None, set_patience (patience l + 1) l)
          (head ++ [EvErr (MsgNoImprove name (best l));
                    EvOut (PSplit Valid (rep (patience l + 1)))] ++
                   (if stop then [EvErr MsgOutOfPatience] else [])).
Proof.
  intros Hbs Hvp HP Hmf.
  destruct (lift_test_model_quiet mf bsv Valid m d l) as (r & m' & ti & HF & _ & Hne & Hrun).
  specialize (Hne Hmf). destruct (metrics r) as [|[name sc] rest] eqn:Em; [congruence |].
  exists m', ti, name, sc,
    (fun p => Report (examples_seen r) ((name, sc) :: rest) (Some p)
                     (if 0 <? P then Some vp else None)).
  split; [exact HF |]. cbv zeta. unfold validation.
  destruct l as [i0 ep ex sv pa be yt yp].
  cbn [best patience].
  destruct (improved sc be) eqn:Ei.
  - eapply eq_trans.
    { eapply bind_step; [qprim |]. eapply bind_step; [exact Hrun |].
      cbv beta. rewrite Em. qrun. rewrite Ei. qrun.
      assert ((P <=? 0) && (0 <? P) = false) as -> by lia. reflexivity. }
    cbn [i epochs examples saved patience best train_y_true train_y_predicted
         set_saved set_best set_patience].
    f_equal; rewrite <- ?app_assoc; reflexivity.
  - destruct ((P <=? pa + 1) && (0 <? P)) eqn:Es.
    + eapply eq_trans.
      { eapply bind_step; [qprim |]. eapply bind_step; [exact Hrun |].
        cbv beta. rewrite Em. qrun. rewrite Ei. qrun. rewrite Es. qrun. }
      cbn [i epochs examples saved patience best train_y_true train_y_predicted
           set_saved set_best set_patience].
      f_equal; rewrite <- ?app_assoc; reflexivity.
    + eapply eq_trans.
      { eapply bind_step; [qprim |]. eapply bind_step; [exact Hrun |].
        cbv beta. rewrite Em. qrun. rewrite Ei. qrun. rewrite Es. qrun. }
      cbn [i epochs examples saved patience best train_y_true train_y_predicted
           set_saved set_best set_patience].
      f_equal; rewrite <- ?app_assoc; reflexivity.
Qed.

(** The validation block, when there is no metric: [metrics[0]] fails. *)
Lemma validation_no_metric cfg improved m d l bsv :
  cfg !! "batch_size" = Some bsv ->
  exists m' ti,
    Forall infer_event ti /\
    validation cfg [] improved (World m d None, l) =
    Out (Raise IndexError) (World m' (batch_generator d bsv Valid false).1 None, l)
        ([EvBatchGen bsv Valid false (batch_generator d bsv Valid false).2] ++ ti).
Proof.
  intros Hbs.
  destruct (lift_test_model_quiet [] bsv Valid m d l) as (r & m' & ti & HF & He & _ & Hrun).
  specialize (He eq_refl). exists m', ti. split; [exact HF |].
  unfold validation. eapply eq_trans.
  { rewrite (bind_getitem _ _ _ _ _ Hbs). rewrite (bind_val _ _ _ _ _ _ Hrun).
    rewrite He. reflexivity. }
  cbn. rewrite app_nil_r. reflexivity.
Qed.


Lemma lookup_num_inv cfg k n :
  lookup_num cfg k = Some n -> exists v, cfg !! k = Some v /\ as_num v = Some n.
Proof. unfold lookup_num. destruct (cfg !! k) as [v|]; [eauto | discriminate]. Qed.

Lemma if_ret_step {S A} (c : bool) (a b : A) (s : S) :
  (if c then ret a else ret b) s = Out (Val (if c then a else b)) s [].
Proof. destruct c; reflexivity. Qed.

(** One iteration of [while True] without interrupt. *)
Lemma epoch_body_quiet cfg mf improved bsv N V P E m d l :
  reads cfg bsv N V P E ->
  exists r m' d' l' t,
    epoch_body cfg mf improved (0 <? N) (World m d None, l) =
    Out r (World m' d' None, l') t /\
    epoch_step V P E mf improved l r l' t.
Proof.
  intros (Hbs & HN & HV & HP & HE).
  apply lookup_num_inv in HN as (vN & HvN & HN).
  apply lookup_num_inv in HV as (vV & HvV & HV).
  apply lookup_num_inv in HP as (vP & HvP & HP).
  apply lookup_num_inv in HE as (vE & HvE & HE).
  set (B := (batch_generator d bsv Train true).2).
  set (d1 := (batch_generator d bsv Train true).1).
  set (recs := batch_records (0 <? N) m B).
  set (l1 := fold_left (log_step N) recs l).
  set (m1 := model_after (0 <? N) m B).
  destruct (pass_locals N recs l) as (Hep & Hsv & Hpa & Hbe & _). fold l1 in Hep, Hsv, Hpa, Hbe.
  pose proof (pass_events_batch N mf recs l) as Hbatch.
  pose proof (pass_events_trained N mf recs l) as Htr.
  unfold recs at 2 in Htr. rewrite batch_records_batches in Htr. fold recs in Htr.
  destruct (batch_events_obs _ Hbatch) as (Ho1 & Ho2 & Ho3 & Ho4 & Ho5).
  assert (Hsum : forall tv outcomes reports saved_now,
    passes tv = 0%nat -> trained tv = [] -> offered tv = [] ->
    val_outcomes tv = outcomes -> length (valid_reports tv) = reports ->
    saves tv = saved_now ->
    summary ([EvBatchGen bsv Train true B] ++ pass_events N mf l recs ++ tv)
            outcomes reports saved_now).
  { intros tv outcomes reports saved_now H1 H2 H3 H4 H5 H6. unfold summary.
    rewrite !passes_app, !trained_app, !offered_app, !val_outcomes_app,
      !valid_reports_app, !saves_app.
    rewrite Ho1, Ho2, Ho3, Ho4, Ho5, Htr, H1, H2, H3, H4, H6.
    cbn. rewrite !app_nil_r. repeat split; auto. }
  remember (set_epochs (epochs l + 1) l1) as l2 eqn:El2.
  assert (Hl2 : epochs l2 = epochs l + 1 /\ saved l2 = saved l /\
                patience l2 = patience l /\ best l2 = best l).
  { subst l2. cbn. auto. }
  destruct Hl2 as (Hep2 & Hsv2 & Hpa2 & Hbe2).
  assert (Hhead : forall r s2 t2,
    bind (if validation_due V l then validation cfg mf improved else ret false)
         (fun out_of_patience : bool =>
            if out_of_patience then ret (Break STOPPED_PATIENCE)
            else bind (getitem cfg "epochs") (fun v => bind (num v) (fun e =>
                 bind get_locals (fun l0 =>
                   if (e <=? epochs l0) && (0 <? e)
                   then ret (Break STOPPED_EPOCHS) else ret Continue))))
         (World m1 d1 None, l2) = Out r s2 t2 ->
    epoch_body cfg mf improved (0 <? N) (World m d None, l) =
    Out r s2 ([EvBatchGen bsv Train true B] ++ pass_events N mf l recs ++ t2)).
  { intros r s2 t2 HK. unfold epoch_body, default_data_type, default_shuffle.
    eapply eq_trans.
    { eapply bind_step; [qprim |]. eapply bind_step; [qprim |].
      eapply bind_step; [apply (training_pass_quiet _ _ _ _ HvN HN) |].
      eapply bind_step; [qprim |]. eapply bind_step; [qprim |].
      eapply bind_step; [qprim |]. eapply bind_step; [qprim |].
      qnorm. fold B d1 recs l1 m1. rewrite Hep.
      change ((0 <? V) && ((epochs l + 1) mod V =? 0)) with (validation_due V l).
      rewrite <- El2. exact HK. }
    reflexivity. }
  assert (Htail : forall m' d' l',
    bind (getitem cfg "epochs") (fun v => bind (num v) (fun e =>
      bind get_locals (fun l0 =>
        if (e <=? epochs l0) && (0 <? e)
        then ret (Break STOPPED_EPOCHS) else ret Continue)))
      (World m' d' None, l') =
    Out (Val (epoch_limit E (epochs l'))) (World m' d' None, l') []).
  { intros m' d' l'. eapply eq_trans.
    { eapply bind_step; [qprim |]. eapply bind_step; [qprim |].
      eapply bind_step; [qprim |]. qnorm. apply if_ret_step. }
    reflexivity. }
  destruct (validation_due V l) eqn:Edue.
  - destruct mf as [|mf0 mfs] eqn:Emf.
    + (* no metric: IndexError *)
      destruct (validation_no_metric cfg improved m1 d1 l2 bsv Hbs)
        as (m' & ti & HF & Hval).
      destruct (infer_events_obs _ HF) as (Hi1 & Hi2 & Hi3 & Hi4 & Hi5 & Hi6 & Hi7).
      eexists _, _, _, _, _. split.
      * apply Hhead. apply bind_raise. exact Hval.
      * apply step_no_metric; [exact Edue | reflexivity | exact Hsv2 |].
        apply Hsum.
        -- rewrite passes_app, Hi1. reflexivity.
        -- rewrite trained_app, Hi6. reflexivity.
        -- rewrite offered_app, Hi2. reflexivity.
        -- rewrite val_outcomes_app, Hi3. reflexivity.
        -- rewrite valid_reports_app, Hi4. reflexivity.
        -- rewrite saves_app, Hi5. reflexivity.
    + rewrite <- Emf in *. assert (Hmf : mf <> []) by (rewrite Emf; discriminate).
      clear Emf.
      destruct (validation_quiet cfg mf improved m1 d1 l2 bsv vP P Hbs HvP HP Hmf)
        as (m' & ti & name & sc & rep & HF & Hval).
      cbv zeta in Hval. rewrite Hbe2, Hpa2 in Hval.
      destruct (infer_events_obs _ HF) as (Hi1 & Hi2 & Hi3 & Hi4 & Hi5 & Hi6 & Hi7).
      destruct (improved sc (best l)) eqn:Ei.
      * eexists _, _, _, _, _. split.
        -- apply Hhead. eapply bind_step; [exact Hval |]. apply Htail.
        -- cbn [epochs set_saved set_best set_patience]. rewrite Hep2.
           apply step_improved with (sc := sc); try assumption; try reflexivity.
           rewrite app_nil_r. apply Hsum;
             rewrite ?passes_app, ?trained_app, ?offered_app, ?val_outcomes_app,
               ?valid_reports_app, ?saves_app, ?Hi1, ?Hi2, ?Hi3, ?Hi4, ?Hi5, ?Hi6;
             reflexivity.
      * destruct ((P <=? patience l + 1) && (0 <? P)) eqn:Es.
        -- eexists _, _, _, _, _. split.
           ++ apply Hhead. eapply bind_step; [exact Hval |]. reflexivity.
           ++ apply step_out_of_patience with (sc := sc); try assumption;
                try (cbn; assumption).
              ** cbn. rewrite ?Hpa2. reflexivity.
              ** rewrite app_nil_r. apply Hsum;
                   rewrite ?passes_app, ?trained_app, ?offered_app, ?val_outcomes_app,
                     ?valid_reports_app, ?saves_app, ?Hi1, ?Hi2, ?Hi3, ?Hi4, ?Hi5, ?Hi6;
                   reflexivity.
              ** rewrite app_nil_r, !app_assoc. apply last_snoc.
        -- eexists _, _, _, _, _. split.
           ++ apply Hhead. eapply bind_step; [exact Hval |]. apply Htail.
           ++ cbn [epochs set_patience]. rewrite Hep2.
              apply step_not_improved with (sc := sc); try assumption;
                try (cbn; assumption).
              ** cbn. rewrite ?Hpa2. reflexivity.
              ** rewrite !app_nil_r. apply Hsum;
                   rewrite ?passes_app, ?trained_app, ?offered_app, ?val_outcomes_app,
                     ?valid_reports_app, ?saves_app, ?Hi1, ?Hi2, ?Hi3, ?Hi4, ?Hi5, ?Hi6;
                   reflexivity.
  - eexists _, _, _, _, _. split.
    + apply Hhead. eapply bind_step; [reflexivity |]. apply Htail.
    + rewrite Hep2. apply step_plain; try assumption.
      rewrite app_nil_l. apply Hsum; reflexivity.
Qed.

Lemma epoch_step_val V P E mf improved l f l' t :
  epoch_step V P E mf improved l (Val f) l' t ->
  exists outcomes,
    length outcomes = (if validation_due V l then 1 else 0)%nat /\
    val_outcomes t = outcomes /\
    length (valid_reports t) = length outcomes /\
    saves t = count_true outcomes /\
    saved l' = saved l || existsb id outcomes /\
    patience l' = patience_after (patience l) outcomes /\
    epochs l' = epochs l + 1 /\
    passes t = 1%nat /\ trained t = offered t /\
    f = epoch_flag P E l outcomes /\
    (f = Break STOPPED_PATIENCE -> last t = Some (EvErr MsgOutOfPatience)) /\
    (validation_due V l = true -> mf <> []).
Proof.
  intros H. inversion H as
    [l0 t0 Hd He Hs Hp Hb (S1 & S2 & S3 & S4 & S5)
    |l0 t0 sc Hd Hm Hi He Hs Hp Hb (S1 & S2 & S3 & S4 & S5)
    |l0 t0 sc Hd Hm Hi Hst He Hs Hp Hb (S1 & S2 & S3 & S4 & S5)
    |l0 t0 sc Hd Hm Hi Hst He Hs Hp Hb (S1 & S2 & S3 & S4 & S5) Hl
    |]; subst.
  - exists []. rewrite Hd, Hs, S4, S5. unfold epoch_flag, epoch_limit. cbn.
    rewrite orb_false_r. repeat split; auto; try discriminate.
    destruct ((E <=? epochs l + 1) && (0 <? E)); discriminate.
  - exists [true]. rewrite Hd, Hs, S4, S5. unfold epoch_flag, epoch_limit. cbn.
    rewrite orb_true_r. repeat split; auto; try discriminate.
    destruct ((E <=? epochs l + 1) && (0 <? E)); discriminate.
  - exists [false]. rewrite Hd, Hs, S4, S5. unfold epoch_flag, epoch_limit. cbn.
    rewrite orb_false_r, Hst. repeat split; auto; try discriminate.
    destruct ((E <=? epochs l + 1) && (0 <? E)); discriminate.
  - exists [false]. rewrite Hd, Hs, S4, S5. unfold epoch_flag. cbn.
    rewrite orb_false_r, Hst. repeat split; auto; try discriminate.
Qed.

Lemma epoch_step_raise V P E mf improved l e l' t :
  epoch_step V P E mf improved l (Raise e) l' t ->
  e = IndexError /\ validation_due V l = true /\ mf = [] /\ saved l' = saved l /\
  summary t [] 0 0.
Proof. intros H. inversion H; subst. auto. Qed.

Lemma epoch_step_not_timeout V P E mf improved l l' t :
  ~ epoch_step V P E mf improved l Timeout l' t.
Proof. intros H. inversion H. Qed.

Lemma while_true_S {S} fuel (body : prog S flow) s :
  while_true (Datatypes.S fuel) body s =
  bind body (fun f => match f with Continue => while_true fuel body | Break r => ret r end) s.
Proof. reflexivity. Qed.


(** The loop is a sequence of epoch steps. *)
Lemma while_true_quiet cfg mf improved bsv N V P E :
  reads cfg bsv N V P E ->
  forall fuel m d l,
  exists r m' d' l' t,
    while_true fuel (epoch_body cfg mf improved (0 <? N)) (World m d None, l) =
    Out r (World m' d' None, l') t /\
    loop_run V P E mf improved fuel l r l' t.
Proof.
  intros Hreads. induction fuel as [|fuel IH]; intros m d l.
  - exists Timeout, m, d, l, []. split; [reflexivity | constructor].
  - destruct (epoch_body_quiet cfg mf improved bsv N V P E m d l Hreads)
      as (r1 & m1 & d1 & l1 & t1 & Hrun & Hstep).
    rewrite while_true_S. destruct r1 as [[|st]|e|].
    + destruct (IH m1 d1 l1) as (r & m' & d' & l' & t & Hrest & Hloop).
      exists r, m', d', l', (t1 ++ t). split.
      * eapply bind_step; [exact Hrun | exact Hrest].
      * eapply run_continue; eassumption.
    + exists (Val st), m1, d1, l1, t1. split.
      * eapply eq_trans; [eapply bind_step; [exact Hrun | reflexivity] |].
        rewrite app_nil_r. reflexivity.
      * eapply run_break; eassumption.
    + exists (Raise e), m1, d1, l1, t1. split.
      * apply bind_raise. exact Hrun.
      * eapply run_raise; eassumption.
    + exfalso. eapply epoch_step_not_timeout; eassumption.
Qed.

Lemma valid_optimization_improvement cfg :
  valid_optimization cfg ->
  exists improved, forall w : world,
    improvement cfg w = Out (Val (improved, initial_best cfg)) w [].
Proof.
  unfold initial_best. intros [H|H]; rewrite H.
  - exists gt. intros w. apply improvement_maximize, H.
  - exists lt. intros w. apply improvement_minimize, H.
Qed.

(** [_train_batches] without interrupt: an uninterrupted run of the loop
    from the initial variables, then the final save. *)
Lemma train_batches_quiet fuel cfg mf bsv N V P E m d :
  reads (merge_config cfg) bsv N V P E ->
  valid_optimization (merge_config cfg) ->
  exists improved r m' d' l' t,
    loop_run V P E mf improved fuel
             (Locals 0 0 0 false 0 (initial_best (merge_config cfg)) [] []) r l' t /\
    _train_batches fuel cfg mf (World m d None) =
    Out r (World m' d' None) (finished r l' t).
Proof.
  intros Hreads Hopt.
  destruct (valid_optimization_improvement _ Hopt) as (improved & Himp).
  set (l0 := Locals 0 0 0 false 0 (initial_best (merge_config cfg)) [] []).
  destruct (while_true_quiet _ mf improved _ _ _ _ _ Hreads fuel m d l0)
    as (r & m' & d' & l' & t & Hrun & Hloop).
  exists improved, r, m', d', l', t. split; [exact Hloop |].
  destruct Hreads as (_ & HN & _).
  assert (Hphase : loop_phase fuel (merge_config cfg) mf (World m d None) =
    Out (match r with Val st => Val (st, l') | Raise e => Raise e | Timeout => Timeout end)
        (World m' d' None) t).
  { rewrite (loop_phase_eq fuel _ mf _ improved _ N (Himp _) HN).
    fold l0. unfold with_locals, training_loop, try_except.
    rewrite Hrun. cbn [o_res o_st o_tr fst snd].
    destruct r as [st|e|]; try reflexivity.
    assert (e <> KeyboardInterrupt) as He.
    { intros ->. clear Hrun. remember (Raise KeyboardInterrupt) as r eqn:Er.
      induction Hloop; try discriminate; auto.
      injection Er as ->. apply epoch_step_raise in H as (He & _). discriminate He. }
    destruct e; try contradiction; reflexivity. }
  unfold _train_batches. cbv zeta.
  destruct r as [st|e|]; cbn [finished].
  - eapply eq_trans.
    { eapply bind_step; [exact Hphase |]. cbn [fst snd].
      eapply bind_step; [apply final_save_quiet; reflexivity |]. reflexivity. }
    rewrite app_nil_r. reflexivity.
  - apply bind_raise. exact Hphase.
  - unfold bind. rewrite Hphase. reflexivity.
Qed.

(** *** Arithmetic of the validation schedule *)

Lemma due_div V e :
  0 < V -> (e + 1) / V - e / V = if (e + 1) mod V =? 0 then 1 else 0.
Proof.
  intros HV.
  pose proof (Z.div_mod e V ltac:(lia)) as H1.
  pose proof (Z.mod_pos_bound e V HV) as H2.
  pose proof (Z.div_mod (e + 1) V ltac:(lia)) as H3.
  pose proof (Z.mod_pos_bound (e + 1) V HV) as H4.
  destruct ((e + 1) mod V =? 0) eqn:E0.
  - apply Z.eqb_eq in E0. nia.
  - apply Z.eqb_neq in E0. nia.
Qed.

Lemma due_exact V e :
  0 < V -> 0 <= e < V -> ((e + 1) mod V =? 0) = true -> e + 1 = V.
Proof.
  intros HV He H. apply Z.eqb_eq in H.
  destruct (Z.eq_dec (e + 1) V); [assumption |]. rewrite Z.mod_small in H by lia. lia.
Qed.

Lemma validation_due_length V l :
  0 < V ->
  Z.of_nat (if validation_due V l then 1 else 0) = (epochs l + 1) / V - epochs l / V.
Proof.
  intros HV. rewrite (due_div V (epochs l) HV). unfold validation_due.
  destruct (0 <? V) eqn:E; [| lia]. cbn [andb].
  destruct ((epochs l + 1) mod V =? 0); reflexivity.
Qed.

(** *** Invariants of uninterrupted runs of the loop *)

Lemma count_true_app a b : count_true (a ++ b) = (count_true a + count_true b)%nat.
Proof. unfold count_true. rewrite List.filter_app, length_app. reflexivity. Qed.

Lemma count_true_0 a : ~ In true a -> count_true a = 0%nat.
Proof.
  unfold count_true. induction a as [|[] a IH]; cbn; intros H; [reflexivity | | ].
  - exfalso. apply H. left. reflexivity.
  - apply IH. intros H'. apply H. right. exact H'.
Qed.

Lemma existsb_id_false a : ~ In true a -> existsb id a = false.
Proof.
  induction a as [|[] a IH]; cbn; intros H; [reflexivity | | ].
  - exfalso. apply H. left. reflexivity.
  - apply IH. intros H'. apply H. right. exact H'.
Qed.

Lemma loop_run_inv V P E mf improved fuel l r l' t :
  loop_run V P E mf improved fuel l r l' t ->
  trained t = offered t /\
  saves t = count_true (val_outcomes t) /\
  length (valid_reports t) = length (val_outcomes t) /\
  saved l' = saved l || existsb id (val_outcomes t) /\
  match r with
  | Raise _ => True
  | _ => Z.of_nat (passes t) = epochs l' - epochs l /\
         (0 < V -> Z.of_nat (length (val_outcomes t)) = epochs l' / V - epochs l / V)
  end /\
  (r = Timeout -> passes t = fuel).
Proof.
  induction 1 as [l|fuel l l1 t1 r l2 t2 Hstep Hrest IH|fuel l st l1 t1 Hstep
                 |fuel l e l1 t1 Hstep].
  - cbn. rewrite orb_false_r. repeat split; try reflexivity; intros; lia.
  - destruct IH as (I1 & I2 & I3 & I4 & I5 & I6).
    apply epoch_step_val in Hstep
      as (vo & Hlen & Hvo & Hvr & Hsv & Hsaved & Hpa & Hep & Hpass & Htr & _).
    rewrite trained_app, offered_app, saves_app, valid_reports_app, val_outcomes_app,
      passes_app, !length_app, count_true_app, existsb_app.
    rewrite Htr, I1, Hsv, I2, Hvr, I3, I4, Hsaved, Hvo, Hpass, orb_assoc.
    split; [reflexivity |]. split; [reflexivity |]. split; [reflexivity |].
    split; [reflexivity |]. split.
    + assert (Hgen : Z.of_nat (passes t2) = epochs l2 - epochs l1 /\
             (0 < V -> Z.of_nat (length (val_outcomes t2)) = epochs l2 / V - epochs l1 / V) ->
             Z.of_nat (1 + passes t2) = epochs l2 - epochs l /\
             (0 < V -> Z.of_nat (length vo + length (val_outcomes t2)) =
                       epochs l2 / V - epochs l / V)).
      { intros [J1 J2]. split; [lia |]. intros HV. specialize (J2 HV).
        pose proof (validation_due_length V l HV) as Hd. rewrite <- Hlen in Hd.
        rewrite Nat2Z.inj_add. rewrite Hep in J2. lia. }
      destruct r; auto.
    + intros ->. rewrite (I6 eq_refl). reflexivity.
  - apply epoch_step_val in Hstep
      as (vo & Hlen & Hvo & Hvr & Hsv & Hsaved & Hpa & Hep & Hpass & Htr & _).
    rewrite Htr, Hsv, Hvr, Hsaved, Hvo, Hpass.
    repeat split; try reflexivity; try discriminate.
    + lia.
    + intros HV. pose proof (validation_due_length V l HV) as Hd.
      rewrite <- Hlen in Hd. rewrite Hep. lia.
  - apply epoch_step_raise in Hstep as (-> & Hd & Hmf & Hsaved & (S1 & S2 & S3 & S4 & S5)).
    rewrite S2, S3, S5, Hsaved. cbn. rewrite orb_false_r.
    destruct (valid_reports t1); [| discriminate S4].
    repeat split; try reflexivity; try discriminate.
Qed.

(** *** Without a metric, the first validation fails *)

Lemma validation_due_before V l :
  0 < V -> 0 <= epochs l < V ->
  (validation_due V l = true -> epochs l + 1 = V) /\
  (validation_due V l = false -> epochs l + 1 < V).
Proof.
  intros HV He. unfold validation_due. destruct (0 <? V) eqn:E0; [| lia]. cbn [andb].
  split; intros H.
  - apply due_exact; assumption.
  - destruct (Z.eq_dec (epochs l + 1) V) as [Heq|Hne]; [| lia].
    rewrite Heq, Z.mod_same in H by lia. discriminate H.
Qed.

Lemma loop_run_no_metric V P E improved fuel l r l' t :
  loop_run V P E [] improved fuel l r l' t ->
  0 < V -> E <= 0 \/ V <= E ->
  0 <= epochs l < V -> V - epochs l <= Z.of_nat fuel ->
  r = Raise IndexError /\ Z.of_nat (passes t) = V - epochs l /\ val_outcomes t = [].
Proof.
  intros Hrun HV HE. induction Hrun as [l|fuel l l1 t1 r l2 t2 Hstep Hrest IH
                                       |fuel l st l1 t1 Hstep|fuel l e l1 t1 Hstep];
    intros He Hfuel.
  - cbn in Hfuel. lia.
  - apply epoch_step_val in Hstep
      as (vo & Hlen & Hvo & _ & _ & _ & _ & Hep & Hpass & _ & _ & _ & Hmf).
    destruct (validation_due_before V l HV He) as [_ Hlt].
    destruct (validation_due V l) eqn:Ed; [exfalso; apply Hmf; reflexivity |].
    specialize (Hlt eq_refl).
    destruct IH as (-> & Hp & Hv); [lia | lia |].
    destruct vo; [| discriminate Hlen].
    rewrite passes_app, val_outcomes_app, Hvo, Hv, Hpass. repeat split; try reflexivity. lia.
  - apply epoch_step_val in Hstep
      as (vo & Hlen & Hvo & _ & _ & _ & _ & Hep & Hpass & _ & Hflag & _ & Hmf).
    destruct (validation_due_before V l HV He) as [_ Hlt].
    destruct (validation_due V l) eqn:Ed; [exfalso; apply Hmf; reflexivity |].
    specialize (Hlt eq_refl).
    destruct vo; [| discriminate Hlen].
    unfold epoch_flag, epoch_limit in Hflag. cbn in Hflag.
    destruct (E <=? epochs l + 1) eqn:E1; destruct (0 <? E) eqn:E2; cbn in Hflag;
      try discriminate Hflag. lia.
  - apply epoch_step_raise in Hstep as (-> & Hd & _ & _ & (S1 & _ & S3 & _)).
    destruct (validation_due_before V l HV He) as [Heq _]. specialize (Heq Hd).
    rewrite S1, S3. repeat split; try reflexivity. lia.
Qed.

(** C10. With validation every [V > 0] epochs and an empty list of metrics,
    an uninterrupted run that reaches its first validation epoch (no epoch
    limit below [V], enough iterations) fails there: [metrics[0]] raises
    [IndexError] in epoch [V], before any validation report is printed and
    before any checkpoint is saved. *)
Theorem empty_metrics_fail_first_validation fuel cfg bsv N V P E m d :
  reads (merge_config cfg) bsv N V P E ->
  valid_optimization (merge_config cfg) ->
  0 < V -> E <= 0 \/ V <= E -> V <= Z.of_nat fuel ->
  let run := _train_batches fuel cfg [] (World m d None) in
  o_res run = Raise IndexError /\
  Z.of_nat (passes (o_tr run)) = V /\
  valid_reports (o_tr run) = [] /\
  saves (o_tr run) = 0%nat.
Proof.
  intros Hreads Hopt HV HE Hfuel run. subst run.
  destruct (train_batches_quiet fuel cfg [] bsv N V P E m d Hreads Hopt)
    as (improved & r & m' & d' & l' & t & Hloop & ->).
  destruct (loop_run_no_metric _ _ _ _ _ _ _ _ _ Hloop HV HE) as (-> & Hp & Hv);
    [cbn; lia | cbn; lia |].
  destruct (loop_run_inv _ _ _ _ _ _ _ _ _ _ Hloop) as (_ & Hs & Hvr & _).
  cbn [o_res o_tr finished]. rewrite Hv in Hs, Hvr. cbn in Hs, Hvr.
  split; [reflexivity |]. split; [cbn in Hp; lia |]. split; [| exact Hs].
  destruct (valid_reports t); [reflexivity | discriminate Hvr].
Qed.


(** *** The final save in the observations *)

Lemma finished_obs r l t :
  passes (finished r l t) = passes t /\
  trained (finished r l t) = trained t /\
  offered (finished r l t) = offered t /\
  val_outcomes (finished r l t) = val_outcomes t /\
  valid_reports (finished r l t) = valid_reports t.
Proof.
  unfold finished. destruct r as [st|e|]; [| repeat split ..].
  rewrite passes_app, trained_app, offered_app, val_outcomes_app, valid_reports_app.
  destruct (saved l); cbn; rewrite ?app_nil_r, ?Nat.add_0_r; repeat split.
Qed.

Lemma finished_saves st l t :
  saves (finished (Val st) l t) = (saves t + if saved l then 0 else 1)%nat.
Proof. unfold finished. rewrite saves_app. destruct (saved l); reflexivity. Qed.

Lemma finished_last_save st l t :
  saved l = false -> last (finished (Val st) l t) = Some EvSave.
Proof.
  intros H. unfold finished. rewrite H.
  change [EvErr MsgSaving; EvSave] with ([EvErr MsgSaving] ++ [EvSave]).
  rewrite app_assoc. apply last_snoc.
Qed.

(** *** The epoch limit *)

Lemma loop_run_no_validation V P E mf improved fuel l r l' t :
  loop_run V P E mf improved fuel l r l' t -> V <= 0 -> val_outcomes t = [].
Proof.
  intros Hrun HV.
  assert (Hdue : forall l0, validation_due V l0 = false).
  { intros l0. unfold validation_due. destruct (0 <? V) eqn:E0; [lia | reflexivity]. }
  induction Hrun as [l|fuel l l1 t1 r l2 t2 Hstep Hrest IH
                    |fuel l st l1 t1 Hstep|fuel l e l1 t1 Hstep].
  - reflexivity.
  - apply epoch_step_val in Hstep as (vo & Hlen & Hvo & _).
    rewrite Hdue in Hlen. destruct vo; [| discriminate Hlen].
    rewrite val_outcomes_app, Hvo, IH. reflexivity.
  - apply epoch_step_val in Hstep as (vo & Hlen & Hvo & _).
    rewrite Hdue in Hlen. destruct vo; [| discriminate Hlen]. exact Hvo.
  - apply epoch_step_raise in Hstep as (_ & Hd & _). rewrite Hdue in Hd. discriminate Hd.
Qed.

Lemma loop_run_epoch_limit V E mf improved fuel l r l' t :
  loop_run V 0 E mf improved fuel l r l' t ->
  0 < E -> V <= 0 \/ mf <> [] ->
  0 <= epochs l < E -> E - epochs l <= Z.of_nat fuel ->
  r = Val STOPPED_EPOCHS /\ epochs l' = E.
Proof.
  intros Hrun HE Hmf.
  assert (Hflag0 : forall l0 vo, epoch_flag 0 E l0 vo = epoch_limit E (epochs l0 + 1)).
  { intros l0 vo. unfold epoch_flag. cbn. rewrite !andb_false_r. reflexivity. }
  induction Hrun as [l|fuel l l1 t1 r l2 t2 Hstep Hrest IH
                    |fuel l st l1 t1 Hstep|fuel l e l1 t1 Hstep];
    intros He Hfuel.
  - cbn in Hfuel. lia.
  - apply epoch_step_val in Hstep
      as (vo & _ & _ & _ & _ & _ & _ & Hep & _ & _ & Hflag & _).
    rewrite Hflag0 in Hflag. unfold epoch_limit in Hflag.
    destruct (E <=? epochs l + 1) eqn:E1; destruct (0 <? E) eqn:E2; cbn in Hflag;
      try discriminate Hflag; try lia.
    apply IH; lia.
  - apply epoch_step_val in Hstep
      as (vo & _ & _ & _ & _ & _ & _ & Hep & _ & _ & Hflag & _).
    rewrite Hflag0 in Hflag. unfold epoch_limit in Hflag.
    destruct (E <=? epochs l + 1) eqn:E1; destruct (0 <? E) eqn:E2; cbn in Hflag;
      try discriminate Hflag.
    injection Hflag as ->. split; [reflexivity | lia].
  - apply epoch_step_raise in Hstep as (_ & Hd & Hm & _). exfalso.
    destruct Hmf as [HV|Hne]; [| contradiction].
    unfold validation_due in Hd. destruct (0 <? V) eqn:E0; [lia | discriminate Hd].
Qed.

(** C4. With [epochs = E > 0] and [validation_patience = 0], an
    uninterrupted run (with a metric whenever validation is on) makes
    exactly [E] passes over the training split, each one complete (the model
    is trained on every batch the generator offered), and stops in
    [STOPPED_EPOCHS].  The limit is checked after the validation block:
    validation ran in every epoch that is a multiple of [V], epoch [E]
    included, that is [E / V] times.  If no validation improved, exactly one
    save is made, and it is the last action of the run. *)
Theorem epoch_limit_run fuel cfg mf bsv N V E m d :
  reads (merge_config cfg) bsv N V 0 E ->
  valid_optimization (merge_config cfg) ->
  0 < E -> V <= 0 \/ mf <> [] -> E <= Z.of_nat fuel ->
  let run := _train_batches fuel cfg mf (World m d None) in
  o_res run = Val STOPPED_EPOCHS /\
  Z.of_nat (passes (o_tr run)) = E /\
  trained (o_tr run) = offered (o_tr run) /\
  Z.of_nat (length (valid_reports (o_tr run))) = (if 0 <? V then E / V else 0) /\
  (~ In true (val_outcomes (o_tr run)) ->
     saves (o_tr run) = 1%nat /\ last (o_tr run) = Some EvSave).
Proof.
  intros Hreads Hopt HE Hmf Hfuel run. subst run.
  destruct (train_batches_quiet fuel cfg mf bsv N V 0 E m d Hreads Hopt)
    as (improved & r & m' & d' & l' & t & Hloop & ->).
  destruct (loop_run_epoch_limit _ _ _ _ _ _ _ _ _ Hloop HE Hmf) as (-> & Hep);
    [cbn; lia | cbn; lia |].
  destruct (loop_run_inv _ _ _ _ _ _ _ _ _ _ Hloop) as (Htr & Hs & Hvr & Hsaved & [Hp Hv] & _).
  cbn [o_res o_tr].
  destruct (finished_obs (Val STOPPED_EPOCHS) l' t) as (F1 & F2 & F3 & F4 & F5).
  rewrite F1, F2, F3, F4, F5, finished_saves.
  split; [reflexivity |]. split; [cbn in Hp; lia |]. split; [exact Htr |]. split.
  - rewrite Hvr. destruct (0 <? V) eqn:E0.
    + rewrite Hv by lia. rewrite Hep. cbn. rewrite Z.div_0_l by lia. lia.
    + rewrite (loop_run_no_validation _ _ _ _ _ _ _ _ _ _ Hloop) by lia. reflexivity.
  - intros Hno. rewrite Hs, (count_true_0 _ Hno).
    rewrite (existsb_id_false _ Hno) in Hsaved. cbn in Hsaved. rewrite Hsaved.
    split; [reflexivity |]. apply finished_last_save. exact Hsaved.
Qed.


(** *** Patience *)

Lemma stops_at_shape P vo : forall p,
  0 <= p < P -> stops_at P p vo ->
  exists pre k,
    vo = pre ++ replicate (Z.to_nat k) false /\
    ((pre = [] /\ k = P - p) \/ (last pre = Some true /\ k = P)).
Proof.
  induction vo as [|[] r IH]; intros p Hp H; cbn [stops_at] in H.
  - contradiction.
  - destruct (IH 0 ltac:(lia) H) as (pre & k & -> & Hk).
    exists (true :: pre), P. destruct Hk as [[-> ->]|[Hl ->]].
    + split; [rewrite Z.sub_0_r; reflexivity | right; split; reflexivity].
    + split; [reflexivity | right; split; [| reflexivity]].
      destruct pre; [discriminate Hl | exact Hl].
  - destruct (P <=? p + 1) eqn:E.
    + subst r. exists [], 1. split; [reflexivity | left; split; [reflexivity | lia]].
    + destruct (IH (p + 1) ltac:(lia) H) as (pre & k & -> & Hk).
      destruct Hk as [[-> ->]|[Hl ->]].
      * exists [], (P - p). split; [| left; split; reflexivity].
        cbn [app]. replace (Z.to_nat (P - p)) with (S (Z.to_nat (P - (p + 1)))) by lia.
        reflexivity.
      * exists (false :: pre), P. split; [reflexivity | right; split; [| reflexivity]].
        destruct pre; [discriminate Hl | exact Hl].
Qed.

Lemma below_all_false P r : forall q,
  0 <= q < P -> below P q r -> forallb negb r = true -> q + Z.of_nat (length r) < P.
Proof.
  induction r as [|[] r IH]; intros q Hq Hb Hf; cbn in *.
  - lia.
  - discriminate Hf.
  - destruct Hb as [Hlt Hb]. specialize (IH (q + 1) ltac:(lia) Hb Hf). lia.
Qed.

Lemma below_bound P vo : forall p,
  0 <= p < P -> below P p vo -> never_improves_after_first vo = true ->
  Z.of_nat (length vo) < 2 * P - p.
Proof.
  induction vo as [|[] r IH]; intros p Hp Hb Hn; cbn [below never_improves_after_first] in *.
  - cbn. lia.
  - pose proof (below_all_false P r 0 ltac:(lia) Hb Hn). cbn [length]. lia.
  - destruct Hb as [Hlt Hb]. specialize (IH (p + 1) ltac:(lia) Hb Hn). cbn [length]. lia.
Qed.

Lemma existsb_id_count a : existsb id a = true -> (1 <= count_true a)%nat.
Proof.
  unfold count_true. induction a as [|[] a IH]; cbn; intros H; [discriminate | lia | auto].
Qed.

Lemma last_app_some {A} (a b : list A) x : last b = Some x -> last (a ++ b) = Some x.
Proof.
  intros H. apply last_Some in H as (b' & ->). rewrite app_assoc. apply last_snoc.
Qed.

Lemma loop_run_patience V P mf improved fuel l r l' t :
  loop_run V P 0 mf improved fuel l r l' t ->
  0 < P -> mf <> [] -> 0 <= patience l < P ->
  match r with
  | Val st => st = STOPPED_PATIENCE /\ stops_at P (patience l) (val_outcomes t) /\
              last t = Some (EvErr MsgOutOfPatience) /\
              (0 < V /\ epochs l' mod V = 0)
  | Timeout => below P (patience l) (val_outcomes t)
  | Raise _ => False
  end.
Proof.
  intros Hrun HP Hmf.
  assert (Hflag0 : forall l0 vo,
    epoch_flag P 0 l0 vo =
    if existsb negb vo && (P <=? patience l0 + 1) then Break STOPPED_PATIENCE else Continue).
  { intros l0 vo. unfold epoch_flag, epoch_limit. cbn.
    assert ((0 <? P) = true) as -> by lia. rewrite !andb_false_r, andb_true_r.
    reflexivity. }
  induction Hrun as [l|fuel l l1 t1 r l2 t2 Hstep Hrest IH
                    |fuel l st l1 t1 Hstep|fuel l e l1 t1 Hstep];
    intros Hp.
  - exact I.
  - apply epoch_step_val in Hstep
      as (vo & Hlen & Hvo & _ & _ & _ & Hpa & _ & _ & _ & Hflag & _).
    rewrite Hflag0 in Hflag. rewrite val_outcomes_app, Hvo.
    assert (Hvo3 : vo = [] \/ vo = [true] \/ vo = [false]).
    { destruct vo as [|[] [|]]; auto; destruct (validation_due V l); discriminate Hlen. }
    destruct Hvo3 as [->|[->| ->]]; cbn in Hflag, Hpa; cbn [app below stops_at].
    + rewrite Hpa in IH. specialize (IH Hp). destruct r as [st|e|]; [| exact IH ..].
      destruct IH as (I1 & I2 & I3 & I4). repeat split; auto; try apply I4.
      apply last_app_some, I3.
    + rewrite Hpa in IH. specialize (IH ltac:(lia)). destruct r as [st|e|]; [| exact IH ..].
      destruct IH as (I1 & I2 & I3 & I4). repeat split; auto; try apply I4.
      apply last_app_some, I3.
    + destruct (P <=? patience l + 1) eqn:E1; [discriminate Hflag |].
      rewrite Hpa in IH. specialize (IH ltac:(lia)). destruct r as [st|e|]; [| | ].
      * destruct IH as (I1 & I2 & I3 & I4). repeat split; auto; try apply I4.
        apply last_app_some, I3.
      * exact IH.
      * split; [lia | exact IH].
  - apply epoch_step_val in Hstep
      as (vo & Hlen & Hvo & _ & _ & _ & Hpa & Hep & _ & _ & Hflag & Hlast & _).
    rewrite Hflag0 in Hflag. rewrite Hvo.
    destruct (existsb negb vo && (P <=? patience l + 1)) eqn:Ec; [| discriminate Hflag].
    injection Hflag as ->. specialize (Hlast eq_refl).
    apply andb_prop in Ec as [Ee E1].
    assert (vo = [false]) as ->.
    { destruct vo as [|[] [|]]; try discriminate Ee; try reflexivity;
        destruct (validation_due V l); discriminate Hlen. }
    cbn [stops_at]. rewrite E1.
    destruct (validation_due V l) eqn:Ed; [| discriminate Hlen].
    unfold validation_due in Ed. apply andb_prop in Ed as [Ed1 Ed2].
    rewrite Hep. repeat split; auto; lia.
  - apply epoch_step_raise in Hstep as (_ & _ & Hm & _). contradiction.
Qed.


(** C2. With [validation_patience = P > 0], validation every [V > 0]
    epochs, no epoch limit and a metric, take an uninterrupted run of at
    least [2 * P * V] iterations whose validations never improve after the
    first one that did.  It stops in [STOPPED_PATIENCE]: its outcomes end
    with exactly [P] non-improving validations in a row (preceded by nothing
    or by an improving one); the loop is left right after the validation
    block ([Ran out of patience] is its last line and the passes made are
    exactly those of the validations: no further epoch is started); and at
    least one save was made when the function returns. *)
Theorem patience_run fuel cfg mf bsv N V P m d :
  reads (merge_config cfg) bsv N V P 0 ->
  valid_optimization (merge_config cfg) ->
  0 < P -> 0 < V -> mf <> [] -> 2 * P * V <= Z.of_nat fuel ->
  let run := _train_batches fuel cfg mf (World m d None) in
  never_improves_after_first (val_outcomes (o_tr run)) = true ->
  o_res run = Val STOPPED_PATIENCE /\
  (exists pre,
     val_outcomes (o_tr run) = pre ++ replicate (Z.to_nat P) false /\
     (pre = [] \/ last pre = Some true)) /\
  (exists t0 tail,
     o_tr run = t0 ++ [EvErr MsgOutOfPatience] ++ tail /\
     (tail = [] \/ tail = [EvErr MsgSaving; EvSave])) /\
  Z.of_nat (passes (o_tr run)) = V * Z.of_nat (length (val_outcomes (o_tr run))) /\
  (1 <= saves (o_tr run))%nat.
Proof.
  intros Hreads Hopt HP HV Hmf Hfuel run. subst run.
  destruct (train_batches_quiet fuel cfg mf bsv N V P 0 m d Hreads Hopt)
    as (improved & r & m' & d' & l' & t & Hloop & ->).
  cbn [o_res o_tr].
  destruct (finished_obs r l' t) as (F1 & _ & _ & F4 & _). rewrite F1, F4.
  intros Hnever.
  pose proof (loop_run_patience _ _ _ _ _ _ _ _ _ Hloop HP Hmf) as Hpat.
  cbn [patience] in Hpat. specialize (Hpat ltac:(lia)).
  destruct (loop_run_inv _ _ _ _ _ _ _ _ _ _ Hloop) as (_ & Hs & _ & Hsaved & Hcount & Hto).
  cbn [epochs saved] in Hcount, Hsaved.
  destruct r as [st|e|]; [| contradiction |].
  - destruct Hpat as (-> & Hstop & Hlast & _ & Hmod).
    destruct Hcount as [Hp Hv]. specialize (Hv HV).
    split; [reflexivity |]. split; [| split; [| split]].
    + destruct (stops_at_shape P _ 0 ltac:(lia) Hstop) as (pre & k & Hvo & Hk).
      exists pre. destruct Hk as [[-> ->]|[Hl ->]].
      * rewrite Hvo, Z.sub_0_r. auto.
      * rewrite Hvo. auto.
    + apply last_Some in Hlast as (t0 & ->).
      exists t0, (if saved l' then [] else [EvErr MsgSaving; EvSave]). split.
      * unfold finished. rewrite <- app_assoc. reflexivity.
      * destruct (saved l'); auto.
    + rewrite Hv, Hp, Z.sub_0_r, Z.div_0_l, Z.sub_0_r by lia.
      apply Z.div_exact in Hmod; lia.
    + rewrite finished_saves. destruct (saved l') eqn:Es; [| lia].
      symmetry in Hsaved. cbn in Hsaved. apply existsb_id_count in Hsaved. lia.
  - exfalso. destruct Hcount as [Hp Hv]. specialize (Hv HV).
    rewrite (Hto eq_refl) in Hp.
    pose proof (below_bound P _ 0 ltac:(lia) Hpat Hnever) as Hb.
    rewrite Z.sub_0_r in Hp. rewrite <- Hp, Z.div_0_l, Z.sub_0_r in Hv by lia.
    assert (2 * P <= Z.of_nat fuel / V) by (apply Z.div_le_lower_bound; lia).
    lia.
Qed.


(** *** Interim reports and their windows *)

Lemma pass_events_app N mf a : forall l b,
  pass_events N mf l (a ++ b) =
  pass_events N mf l a ++ pass_events N mf (fold_left (log_step N) a l) b.
Proof.
  induction a as [|rec a IH]; intros l b; cbn [app pass_events fold_left]; [reflexivity |].
  rewrite IH, app_assoc. reflexivity.
Qed.

Lemma labels_of_app a b : labels_of (a ++ b) = labels_of a ++ labels_of b.
Proof. unfold labels_of. rewrite map_app, concat_app. reflexivity. Qed.

Lemma predictions_of_app a b : predictions_of (a ++ b) = predictions_of a ++ predictions_of b.
Proof. unfold predictions_of. rewrite map_app, concat_app. reflexivity. Qed.

(** Inside a window: nothing is printed and the accumulators grow. *)
Lemma partial_window N mf recs : forall l,
  0 < N -> (i l mod N) + Z.of_nat (length recs) < N ->
  interim_reports (pass_events N mf l recs) = [] /\
  let l' := fold_left (log_step N) recs l in
  i l' = i l + Z.of_nat (length recs) /\
  train_y_true l' = train_y_true l ++ labels_of recs /\
  train_y_predicted l' = train_y_predicted l ++ predictions_of recs.
Proof.
  induction recs as [|rec r IH]; intros l HN Hlt.
  - cbn. rewrite !app_nil_r, Z.add_0_r. auto.
  - cbn [length] in Hlt.
    pose proof (Z.mod_pos_bound (i l) N HN) as Hb.
    assert (Hmod : (i l + 1) mod N = i l mod N + 1).
    { rewrite Z.add_mod by lia. rewrite (Z.mod_small 1) by lia.
      apply Z.mod_small. lia. }
    assert (Hfl : flushes N l = false).
    { unfold flushes. rewrite Hmod. destruct (i l mod N + 1 =? 0) eqn:E; [lia |].
      apply andb_false_r. }
    cbn [pass_events fold_left]. rewrite interim_reports_app.
    destruct (IH (log_step N l rec) HN) as (I1 & I2 & I3 & I4).
    { cbn [i log_step]. rewrite Hmod. lia. }
    rewrite I1. cbv zeta in I2, I3, I4 |- *. rewrite I2, I3, I4.
    unfold step_events, log_step. rewrite Hfl.
    assert ((0 <? N) = true) as -> by lia.
    cbn. unfold labels_of, predictions_of. cbn. rewrite <- !app_assoc.
    repeat split; try reflexivity. lia.
Qed.

(** A complete window: one report, at its last batch, over the window; the
    accumulators are empty again. *)
Lemma complete_window N mf w l :
  0 < N -> i l mod N = 0 -> train_y_true l = [] -> train_y_predicted l = [] ->
  Z.of_nat (length w) = N ->
  interim_reports (pass_events N mf l w) = [(i l + N, window_metrics mf w)] /\
  let l' := fold_left (log_step N) w l in
  i l' = i l + N /\ train_y_true l' = [] /\ train_y_predicted l' = [].
Proof.
  intros HN Hal Ht Hp Hlen.
  destruct (list.last w) as [x|] eqn:El.
  2:{ apply last_None in El. subst w. cbn in Hlen. lia. }
  apply last_Some in El as (w0 & ->). rewrite length_app in Hlen. cbn in Hlen.
  destruct (partial_window N mf w0 l HN) as (I1 & I2 & I3 & I4); [rewrite Hal; lia |].
  cbv zeta in I2, I3, I4.
  rewrite pass_events_app, interim_reports_app, I1, fold_left_app.
  set (l1 := fold_left (log_step N) w0 l) in *.
  assert (Hfl : flushes N l1 = true).
  { unfold flushes. rewrite I2.
    replace (i l + Z.of_nat (length w0) + 1) with (i l + 1 * N) by lia.
    rewrite Z.mod_add, Hal by lia. assert ((0 <? N) = true) as -> by lia. reflexivity. }
  cbn [pass_events fold_left app]. unfold step_events, log_step. rewrite Hfl.
  assert ((0 <? N) = true) as -> by lia.
  rewrite I2, I3, I4, Ht, Hp. cbn.
  unfold window_metrics. rewrite labels_of_app, predictions_of_app.
  unfold labels_of at 2, predictions_of at 2. cbn. rewrite !app_nil_r.
  repeat split; try reflexivity; try lia.
  replace (i l + Z.of_nat (length w0) + 1) with (i l + N) by lia. reflexivity.
Qed.


(** A pass that starts on a window boundary prints one report per complete
    window of [n] batches, computed over that window alone. *)
Lemma windows_of_pass mf n : forall q recs l,
  (0 < n)%nat ->
  i l mod Z.of_nat n = 0 -> train_y_true l = [] -> train_y_predicted l = [] ->
  (length recs / n)%nat = q ->
  interim_reports (pass_events (Z.of_nat n) mf l recs) = window_reports mf (i l) n recs.
Proof.
  induction q as [|q IH]; intros recs l Hn Hal Ht Hp Hq; unfold window_reports; rewrite Hq.
  - apply Nat.div_small_iff in Hq; [| lia].
    destruct (partial_window (Z.of_nat n) mf recs l) as [H _]; [lia | rewrite Hal; lia |].
    rewrite H. reflexivity.
  - assert (Hge : (n <= length recs)%nat).
    { destruct (le_lt_dec n (length recs)) as [|Hlt]; [assumption |].
      apply Nat.div_small in Hlt. lia. }
    rewrite <- (take_drop n recs) at 1.
    set (w := take n recs). set (rest := drop n recs).
    assert (Hw : length w = n) by (apply length_take_le, Hge).
    destruct (complete_window (Z.of_nat n) mf w l) as (C1 & C2 & C3 & C4);
      [lia | assumption | assumption | assumption | lia |].
    cbv zeta in C2, C3, C4.
    rewrite pass_events_app, interim_reports_app, C1.
    assert (Hq' : (length rest / n)%nat = q).
    { subst rest. rewrite length_drop.
      replace (length recs) with (1 * n + (length recs - n))%nat in Hq by lia.
      rewrite Nat.div_add_l in Hq by lia. lia. }
    rewrite (IH rest _ Hn); [| rewrite C2 | assumption | assumption | assumption].
    2:{ replace (i l + Z.of_nat n) with (i l + 1 * Z.of_nat n) by lia.
        rewrite Z.mod_add by lia. exact Hal. }
    unfold window_reports. rewrite Hq'. cbn [seq map app].
    f_equal.
    + unfold window. cbn [Nat.mul Nat.add drop]. rewrite Nat.add_0_r.
      f_equal; lia.
    + rewrite <- seq_shift, map_map. apply map_ext. intros k.
      rewrite C2. unfold window. subst rest. rewrite drop_drop. f_equal; lia.
Qed.


Lemma length_batch_records log_on batches :
  forall m, length (batch_records log_on m batches) = length batches.
Proof. induction batches as [|b r IH]; intros m; cbn; [|rewrite IH]; reflexivity. Qed.

Lemma length_labels_of_unit (w : list (batch * list Y)) :
  Forall (fun r : batch * list Y => length r.1.2 = 1%nat) w ->
  length (labels_of w) = length w.
Proof.
  unfold labels_of. induction 1 as [|r w Hr _ IH]; [reflexivity |].
  cbn. rewrite length_app, Hr, IH. reflexivity.
Qed.

Lemma batch_records_unit log_on batches : forall m,
  Forall (fun b : batch => length b.2 = 1%nat) batches ->
  Forall (fun r : batch * list Y => length r.1.2 = 1%nat) (batch_records log_on m batches).
Proof.
  induction batches as [|b r IH]; intros m H; cbn; [constructor |].
  inversion H; subst. constructor; [assumption | apply IH; assumption].
Qed.

(** C5. With [log_every_n_batches = n > 0] and no interrupt.
    (1) A batch prints an interim report exactly when the cumulative batch
    count it brings is a multiple of [n]; the metrics of the report are
    computed over what was accumulated since the previous flush together
    with this batch, and both accumulators are empty afterwards; otherwise
    nothing is printed and the accumulators grow by the batch.
    (2) Hence a pass that starts on a window boundary prints one report per
    complete window of [n] batches, at its last batch, over the labels and
    predictions of that window alone.
    (3) In particular 25 batches of one example with [n = 10] give exactly
    two reports, at batches 10 and 20, each over a window of 10 examples. *)
Theorem interim_reports_by_window cfg mf vN n :
  cfg !! "log_every_n_batches" = Some vN -> as_num vN = Some (Z.of_nat n) ->
  (0 < n)%nat ->
  (forall (b : batch) m d l,
     let o := train_batch cfg mf true b (World m d None, l) in
     let yt := train_y_true l ++ b.2 in
     let yp := train_y_predicted l ++ (infer m b.1).2 in
     o_res o = Val tt /\ i (o_st o).2 = i l + 1 /\
     if (i l + 1) mod Z.of_nat n =? 0
     then interim_reports (o_tr o) = [(i l + 1, ordered_dict (apply_metrics mf yt yp))] /\
          train_y_true (o_st o).2 = [] /\ train_y_predicted (o_st o).2 = []
     else interim_reports (o_tr o) = [] /\
          train_y_true (o_st o).2 = yt /\ train_y_predicted (o_st o).2 = yp) /\
  (forall batches m d l,
     i l mod Z.of_nat n = 0 -> train_y_true l = [] -> train_y_predicted l = [] ->
     interim_reports (o_tr (for_each batches (train_batch cfg mf true) (World m d None, l))) =
     window_reports mf (i l) n (batch_records true m batches)) /\
  (n = 10%nat ->
   forall batches m d l,
     length batches = 25%nat ->
     Forall (fun b : batch => length b.2 = 1%nat) batches ->
     i l = 0 -> train_y_true l = [] -> train_y_predicted l = [] ->
     let recs := batch_records true m batches in
     interim_reports (o_tr (for_each batches (train_batch cfg mf true) (World m d None, l))) =
     [(10, window_metrics mf (window 10 0 recs)); (20, window_metrics mf (window 10 1 recs))] /\
     length (labels_of (window 10 0 recs)) = 10%nat /\
     length (labels_of (window 10 1 recs)) = 10%nat).
Proof.
  intros HvN HN Hn.
  assert (Hon : (0 <? Z.of_nat n) = true) by lia.
  assert (Hpass : forall batches m d l,
    i l mod Z.of_nat n = 0 -> train_y_true l = [] -> train_y_predicted l = [] ->
    interim_reports (o_tr (for_each batches (train_batch cfg mf true) (World m d None, l))) =
    window_reports mf (i l) n (batch_records true m batches)).
  { intros batches m d l Hal Ht Hp.
    pose proof (training_pass_quiet cfg mf vN _ HvN HN batches m d l) as Hrun.
    rewrite Hon in Hrun. rewrite Hrun. cbn [o_tr].
    eapply windows_of_pass; eauto. }
  split; [| split; [exact Hpass |]].
  - intros b m d l o yt yp. subst o yt yp.
    pose proof (train_batch_quiet cfg mf b m d l vN _ HvN HN) as Hrun.
    cbv zeta in Hrun. rewrite Hon in Hrun. rewrite Hrun. cbn [o_res o_st o_tr snd i andb].
    split; [reflexivity |]. split; [reflexivity |].
    destruct ((i l + 1) mod Z.of_nat n =? 0); cbn; auto.
  - intros -> batches m d l Hlen Hunit Hi Ht Hp recs.
    rewrite Hpass by (rewrite ?Hi; auto).
    fold recs. unfold window_reports.
    assert (Hrl : length recs = 25%nat) by (subst recs; rewrite length_batch_records; exact Hlen).
    rewrite Hrl, Hi.
    assert (Hunit' := batch_records_unit true batches m Hunit). fold recs in Hunit'.
    split; [reflexivity |].
    split; (rewrite length_labels_of_unit;
            [unfold window; rewrite length_take, length_drop, Hrl; reflexivity
            |unfold window; apply Forall_take, Forall_drop; exact Hunit']).
Qed.


(** ** The orchestrator *)

Ltac sound_world :=
  repeat (intros;
    lazymatch goal with
    | |- sound _ _ (bind (ret _) _) => apply sound_bind_ret
    | |- sound _ _ (bind tick (fun _ => emit _)) => apply sound_emit_tick
    | |- sound _ _ (bind _ _) => apply sound_bind; [apply Rw_trans | | intros]
    | |- sound _ _ (ret _) => apply sound_ret; apply Rw_refl
    | |- sound _ _ (raise _) => apply sound_raise; [apply Rw_refl | discriminate]
    | |- sound _ _ (getitem _ _) => apply sound_getitem; apply Rw_refl
    | |- sound _ _ (num _) => apply sound_num; apply Rw_refl
    | |- sound _ _ tick => apply sound_tick
    | |- sound _ _ call_save => apply sound_call_save
    | |- sound _ _ (print_out _) => apply sound_print_out
    | |- sound _ _ (print_err _) => apply sound_print_err
    | |- sound _ _ (_test_model _ _ _) => apply sound_test_model
    | |- sound _ _ (if ?c then _ else _) => destruct c
    | |- sound _ _ (match ?x with _ => _ end) => destruct x
    end).

Lemma sound_final_save P l :
  P (EvErr MsgSaving) -> P EvSave -> sound (Rw P) Kw (final_save l).
Proof. intros H1 H2. unfold final_save. sound_world; assumption. Qed.

Lemma sound_loop_phase fuel cfg mf bs0 :
  cfg !! "batch_size" = Some bs0 ->
  sound (Rw (training_event bs0)) Kw (loop_phase fuel cfg mf).
Proof.
  intros Hbs w. destruct (loop_phase_inv fuel cfg mf w bs0 Hbs) as (HF & Hki & _).
  split; [exact HF | intros H; contradiction].
Qed.

Lemma sound_train_batches fuel cfg mf :
  sound (Rw (training_event (default (VInt 1) (cfg !! "batch_size")))) Kw
        (_train_batches fuel cfg mf).
Proof.
  unfold _train_batches. cbv zeta.
  apply sound_bind; [apply Rw_trans | apply sound_loop_phase, merge_config_batch_size |].
  intros rl. apply sound_bind; [apply Rw_trans | apply sound_final_save; exact I |].
  intros _. apply sound_ret, Rw_refl.
Qed.

Lemma sound_test_best_saved cfg mf :
  sound (Rw (testing_event (get_batch_size cfg))) Kw (test_best_saved cfg mf).
Proof.
  unfold test_best_saved.
  apply sound_bind; [apply Rw_trans | sound_world |]. intros vb.
  apply sound_bind; [apply Rw_trans | sound_world |]. intros tb.
  destruct tb; [| sound_world].
  apply sound_bind; [apply Rw_trans | apply sound_tick |]. intros _.
  apply sound_bind; [apply Rw_trans | |].
  { intros w. cbn. split; [repeat constructor | discriminate]. }
  intros _. sound_world; cbn; auto.
Qed.

Lemma sound_configure P config_train :
  (forall m, P (EvErr m)) -> sound (Rw P) Kw (configure config_train).
Proof.
  intros HP. unfold configure.
  apply sound_bind; [apply Rw_trans | destruct config_train; sound_world; apply HP |].
  intros cfg. apply sound_bind; [apply Rw_trans | sound_world |]. intros v.
  apply sound_bind; [apply Rw_trans | unfold names_of; sound_world |]. intros names.
  sound_world.
Qed.

Lemma configure_val config_train w cfg mf :
  o_res (configure config_train w) = Val (cfg, mf) ->
  cfg = default ∅ config_train ∪ experimental_defaults.
Proof.
  unfold configure. intros H.
  apply bind_res_val in H as (cfg' & Hc & H & _).
  assert (cfg' = default ∅ config_train ∪ experimental_defaults) as Hcfg.
  { destruct config_train as [user|]; cbn [default].
    - cbn in Hc. injection Hc as <-. reflexivity.
    - apply bind_res_val in Hc as (? & _ & Hc & _). cbn in Hc.
      injection Hc as <-. rewrite (left_id_L ∅ (∪)). reflexivity. }
  apply bind_res_val in H as (v & _ & H & _).
  apply bind_res_val in H as (names & _ & H & _).
  apply bind_res_val in H as (fs & _ & H & _).
  cbn in H. congruence.
Qed.








Lemma sound_fit P :
  (forall sp, P (EvIterAll sp)) -> (forall data, P (EvFit data)) -> P EvSave ->
  sound (Rw P) Kw _fit.
Proof.
  intros H1 H2 H3. unfold _fit.
  apply sound_bind; [apply Rw_trans | |].
  { apply sound_after_tick. intros w. cbn. split; [repeat constructor; auto | discriminate]. }
  intros data. apply sound_bind; [apply Rw_trans | |].
  { apply sound_after_tick. intros w. cbn. split; [repeat constructor; auto | discriminate]. }
  intros _. apply sound_call_save, H3.
Qed.

Lemma sound_call_train P : P EvTrain -> sound (Rw P) Kw call_train.
Proof.
  intros H. apply sound_after_tick. intros w. cbn.
  split; [repeat constructor; auto | discriminate].
Qed.

Lemma sound_weaken {A} (P Q : event -> Prop) (p : prog world A) :
  (forall e, P e -> Q e) -> sound (Rw P) Kw p -> sound (Rw Q) Kw p.
Proof.
  intros HPQ Hp w. destruct (Hp w) as [HF HK]. split; [| exact HK].
  unfold Rw in *. eapply Forall_impl; eauto.
Qed.

Lemma fit_quiet m d :
  _fit (World m d None) =
  Out (Val tt) (World (fit m (iter_all d Train)) d None)
      [EvIterAll Train; EvFit (iter_all d Train); EvSave].
Proof. reflexivity. Qed.

(** C8. The strategy follows the capabilities of the model, in this order.
    With [train_on_batch], whatever else the model has: the batch loop, then
    the evaluation of the best model; [fit], [train] and [iter_all] are
    never called.  Otherwise with [fit]: [fit] on the whole training split,
    once, then [save()], then the evaluation of the best model;
    [train_on_batch] and [train] are never called.  Otherwise:
    [train(dataset)] and nothing else: no report is printed and no
    inference-mode model is built. *)
Theorem strategy_dispatch fuel config_train w cfg mf w1 t1 :
  configure config_train w = Out (Val (cfg, mf)) w1 t1 ->
  (forall has_fit,
     let run := train_experimental fuel true has_fit config_train w in
     let rest := bind (_train_batches fuel cfg mf) (fun _ => test_best_saved cfg mf) w1 in
     run = Out (o_res rest) (o_st rest) (t1 ++ o_tr rest) /\
     Forall batch_strategy_event (o_tr run)) /\
  (let run := train_experimental fuel false true config_train w in
   let rest := bind _fit (fun _ => test_best_saved cfg mf) w1 in
   run = Out (o_res rest) (o_st rest) (t1 ++ o_tr rest) /\
   Forall fit_strategy_event (o_tr run) /\
   (intr w1 = None ->
    exists t_best,
      o_tr run = t1 ++ [EvIterAll Train; EvFit (iter_all (dataset w1) Train); EvSave] ++ t_best /\
      Forall (testing_event (get_batch_size cfg)) t_best)) /\
  (let run := train_experimental fuel false false config_train w in
   run = Out (o_res (call_train w1)) (o_st (call_train w1)) (t1 ++ o_tr (call_train w1)) /\
   Forall legacy_strategy_event (o_tr run) /\
   (intr w1 = None ->
    run = Out (Val tt) (World (train (model w1) (dataset w1)) (dataset w1) None)
              (t1 ++ [EvTrain]))).
Proof.
  intros Hconf.
  assert (Ht1 : forall P, (forall m0, P (EvErr m0)) -> Forall P t1).
  { intros P HP. destruct (sound_configure P config_train HP w) as [H _].
    rewrite Hconf in H. exact H. }
  split; [| split].
  - intros has_fit run rest. subst run rest. unfold train_experimental.
    rewrite (bind_val _ _ _ _ _ _ Hconf). cbn [fst snd o_tr].
    split; [reflexivity |]. apply Forall_app. split; [apply Ht1; intros; exact I |].
    eapply (sound_bind (Rw batch_strategy_event) Kw (Rw_trans _)).
    + eapply sound_weaken; [| apply sound_train_batches].
      intros [] He; try exact I; contradiction.
    + intros _. eapply sound_weaken; [| apply sound_test_best_saved].
      intros [] He; try exact I; contradiction.
  - intros run rest. subst run rest. unfold train_experimental.
    rewrite (bind_val _ _ _ _ _ _ Hconf). cbn [fst snd o_tr].
    split; [reflexivity |]. split.
    + apply Forall_app. split; [apply Ht1; intros; exact I |].
      eapply (sound_bind (Rw fit_strategy_event) Kw (Rw_trans _)).
      * apply sound_fit; intros; exact I.
      * intros _. eapply sound_weaken; [| apply sound_test_best_saved].
        intros [] He; try exact I; contradiction.
    + intros Hq. destruct w1 as [m1 d1 k]. cbn in Hq. subst k.
      exists (o_tr (test_best_saved cfg mf (World (fit m1 (iter_all d1 Train)) d1 None))).
      split.
      * rewrite (bind_val _ _ _ _ _ _ (fit_quiet m1 d1)). reflexivity.
      * apply sound_test_best_saved.
  - intros run. subst run. unfold train_experimental.
    rewrite (bind_val _ _ _ _ _ _ Hconf). cbn [fst snd o_tr].
    split; [reflexivity |]. split.
    + apply Forall_app. split; [apply Ht1; intros; exact I |].
      apply (sound_call_train legacy_strategy_event I).
    + intros Hq. destruct w1 as [m1 d1 k]. cbn in Hq. subst k. reflexivity.
Qed.



(** ** Further properties of the training loop *)

(** Without an epoch limit, and with validation or patience switched off, no
    iteration of the loop breaks or fails. *)
Lemma loop_run_unbounded V P E mf improved fuel l r l' t :
  loop_run V P E mf improved fuel l r l' t ->
  E <= 0 -> V <= 0 \/ (P <= 0 /\ mf <> []) ->
  r = Timeout.
Proof.
  intros Hrun HE Hoff.
  induction Hrun as [l|fuel l l1 t1 r l2 t2 Hstep Hrest IH
                    |fuel l st l1 t1 Hstep|fuel l e l1 t1 Hstep].
  - reflexivity.
  - exact IH.
  - exfalso. apply epoch_step_val in Hstep as (vo & Hlen & _ & _ & _ & _ & _ & _ & _ & _ & Hf & _).
    unfold epoch_flag, epoch_limit in Hf.
    assert (H0 : (E <=? epochs l + 1) && (0 <? E) = false).
    { destruct (0 <? E) eqn:E0; [lia | apply andb_false_r]. }
    rewrite H0 in Hf.
    destruct Hoff as [HV|[HP _]].
    + unfold validation_due in Hlen. destruct (0 <? V) eqn:E1; [lia |].
      cbn in Hlen. destruct vo; [| discriminate Hlen]. cbn in Hf. discriminate Hf.
    + destruct (0 <? P) eqn:E1; [lia |].
      rewrite andb_false_r, andb_false_r in Hf. discriminate Hf.
  - exfalso. apply epoch_step_raise in Hstep as (_ & Hd & Hmf & _).
    destruct Hoff as [HV|[_ Hne]]; [| contradiction].
    unfold validation_due in Hd. destruct (0 <? V) eqn:E1; [lia | discriminate Hd].
Qed.

(** With [epochs <= 0] and no way to run out of patience (no validation, or
    [validation_patience <= 0]), an uninterrupted run never leaves
    [while True]: whatever the number of iterations allowed, all of them are
    used for passes over the training split.  Without validation nothing is
    saved in the meantime. *)
Theorem unbounded_run_never_stops fuel cfg mf bsv N V P E m d :
  reads (merge_config cfg) bsv N V P E ->
  valid_optimization (merge_config cfg) ->
  E <= 0 -> V <= 0 \/ (P <= 0 /\ mf <> []) ->
  let run := _train_batches fuel cfg mf (World m d None) in
  o_res run = Timeout /\ passes (o_tr run) = fuel /\
  trained (o_tr run) = offered (o_tr run) /\
  (V <= 0 -> saves (o_tr run) = 0%nat).
Proof.
  intros Hreads Hopt HE Hoff run. subst run.
  destruct (train_batches_quiet fuel cfg mf bsv N V P E m d Hreads Hopt)
    as (improved & r & m' & d' & l' & t & Hrun & ->).
  pose proof (loop_run_unbounded _ _ _ _ _ _ _ _ _ _ Hrun HE Hoff) as ->.
  destruct (loop_run_inv _ _ _ _ _ _ _ _ _ _ Hrun) as (Htr & Hsv & _ & _ & _ & Hto).
  cbn [o_res o_tr finished].
  repeat split; auto.
  intros HV. rewrite Hsv, (loop_run_no_validation _ _ _ _ _ _ _ _ _ _ Hrun HV). reflexivity.
Qed.

Lemma existsb_id_false_count a : existsb id a = false -> count_true a = 0%nat.
Proof.
  induction a as [|[] a IH]; cbn; intros H; [reflexivity | discriminate |].
  apply IH, H.
Qed.

(** An uninterrupted run that returns has written one checkpoint for each
    validation that improved on the best score; when none did, it has
    written exactly one, at the end.  It has printed one validation report
    for each validation, and trained the model on the batches each pass was
    given, in their order. *)
Theorem one_save_per_improvement fuel cfg mf bsv N V P E m d st :
  reads (merge_config cfg) bsv N V P E ->
  valid_optimization (merge_config cfg) ->
  let run := _train_batches fuel cfg mf (World m d None) in
  o_res run = Val st ->
  saves (o_tr run) = Nat.max 1 (count_true (val_outcomes (o_tr run))) /\
  length (valid_reports (o_tr run)) = length (val_outcomes (o_tr run)) /\
  trained (o_tr run) = offered (o_tr run).
Proof.
  intros Hreads Hopt run. subst run.
  destruct (train_batches_quiet fuel cfg mf bsv N V P E m d Hreads Hopt)
    as (improved & r & m' & d' & l' & t & Hrun & ->).
  cbn [o_res o_tr]. intros ->.
  destruct (loop_run_inv _ _ _ _ _ _ _ _ _ _ Hrun) as (Htr & Hsv & Hrep & Hsaved & _).
  destruct (finished_obs (Val st) l' t) as (_ & Ht & Ho & Hvo & Hvr).
  rewrite finished_saves, Ht, Ho, Hvo, Hvr, Hsv, Hsaved. cbn [orb saved].
  repeat split; auto.
  destruct (existsb id (val_outcomes t)) eqn:Ex.
  - apply existsb_id_count in Ex. lia.
  - rewrite (existsb_id_false_count _ Ex). reflexivity.
Qed.


(** ** The exceptions of a run

    [ensures Q E p]: a value [p] returns satisfies [Q], an exception it
    raises satisfies [E]. *)
Definition ensures {S A} (Q : A -> Prop) (E : exn -> Prop) (p : prog S A) : Prop :=
  forall s, match o_res (p s) with
            | Val a => Q a
            | Raise e => E e
            | Timeout => True
            end.

Definition anything {A} (a : A) : Prop := True.

Lemma ensures_ret {S A} (Q : A -> Prop) E a : Q a -> ensures Q E (@ret S A a).
Proof. intros H s. exact H. Qed.

Lemma ensures_raise {S A} (Q : A -> Prop) (E : exn -> Prop) e :
  E e -> ensures Q E (@raise S A e).
Proof. intros H s. exact H. Qed.

Lemma ensures_bind {S A B} (Q1 : A -> Prop) (Q : B -> Prop) E
    (p : prog S A) (k : A -> prog S B) :
  ensures Q1 E p -> (forall a, Q1 a -> ensures Q E (k a)) -> ensures Q E (bind p k).
Proof.
  intros Hp Hk s. specialize (Hp s). unfold bind.
  destruct (o_res (p s)) as [a|e|]; cbn; [| exact Hp | exact I].
  exact (Hk a Hp (o_st (p s))).
Qed.

Lemma ensures_weaken {S A} (Q Q' : A -> Prop) E (p : prog S A) :
  ensures Q E p -> (forall a, Q a -> Q' a) -> ensures Q' E p.
Proof. intros Hp HQ s. specialize (Hp s). destruct (o_res (p s)); auto. Qed.

Lemma ensures_returns {S A} (Q : A -> Prop) E (p : prog S A) :
  returns Q p -> ensures anything E p -> ensures Q E p.
Proof.
  intros Hr Hp s. specialize (Hp s). specialize (Hr s).
  destruct (o_res (p s)); auto.
Qed.

Lemma ensures_for_each {S A} E (l : list A) (body : A -> prog S unit) :
  (forall a, ensures anything E (body a)) -> ensures anything E (for_each l body).
Proof.
  intros Hb. induction l as [|a l IH]; cbn [for_each].
  - apply ensures_ret. exact I.
  - eapply ensures_bind; [apply Hb | intros _ _; exact IH].
Qed.

Lemma ensures_while_true {S} E fuel (body : prog S flow) :
  ensures anything E body -> ensures anything E (while_true fuel body).
Proof.
  intros Hb. induction fuel as [|n IH]; cbn [while_true].
  - intros s. exact I.
  - eapply ensures_bind; [exact Hb |]. intros [|r] _; [exact IH | apply ensures_ret; exact I].
Qed.

Lemma ensures_try_except {S A} (Q : A -> Prop) E (p h : prog S A) :
  ensures Q E p -> ensures Q E h -> ensures Q E (try_except p h).
Proof.
  intros Hp Hh s. specialize (Hp s). unfold try_except.
  destruct (o_res (p s)) as [a|e|] eqn:Er.
  - rewrite Er. exact Hp.
  - destruct e; try (rewrite Er; exact Hp). exact (Hh (o_st (p s))).
  - rewrite Er. exact I.
Qed.

Lemma ensures_lift {A} (Q : A -> Prop) E (p : prog world A) :
  ensures Q E p -> ensures Q E (lift p).
Proof. intros Hp [w l]. exact (Hp w). Qed.

Lemma ensures_getitem {S} (E : exn -> Prop) d k :
  (d !! k = None -> E (KeyError k)) ->
  ensures (fun v => d !! k = Some v) E (@getitem S d k).
Proof. intros H s. unfold getitem. destruct (d !! k); cbn; auto. Qed.

Lemma ensures_num {S} (E : exn -> Prop) v :
  (as_num v = None -> E TypeError) ->
  ensures (fun n => as_num v = Some n) E (@num S v).
Proof. intros H s. unfold num. destruct (as_num v); cbn; auto. Qed.

(** A call on a collaborator or a print: only the interrupt can stop it. *)
Lemma ensures_after_tick {A} (E : exn -> Prop) (f : prog world A) :
  E KeyboardInterrupt ->
  (forall w, exists a, o_res (f w) = Val a) ->
  ensures anything E (bind tick (fun _ => f)).
Proof.
  intros HE Hf [m d k]. unfold bind, tick.
  destruct k as [[|n]|]; cbn; try exact HE;
    match goal with |- context [f ?w'] => destruct (Hf w') as [a ->] end; exact I.
Qed.

Lemma ensures_assign (E : exn -> Prop) f :
  E KeyboardInterrupt -> ensures anything E (assign f).
Proof.
  intros HE [[m d k] l]. destruct k as [[|n]|]; cbn; auto; exact I.
Qed.

Lemma ensures_get_locals Q (E : exn -> Prop) : (forall l, Q l) -> ensures Q E get_locals.
Proof. intros H s. apply H. Qed.


Lemma ensures_seq {S A B} (Q : B -> Prop) E (p : prog S A) (k : A -> prog S B) :
  ensures anything E p -> (forall a, ensures Q E (k a)) -> ensures Q E (bind p k).
Proof. intros Hp Hk. eapply ensures_bind; [exact Hp | intros a _; apply Hk]. Qed.

Lemma ensures_with_locals {A} E l0 (p : prog state A) :
  ensures anything E p -> ensures anything E (with_locals l0 p).
Proof.
  intros Hp w. specialize (Hp (w, l0)). unfold with_locals. cbn [o_res].
  destruct (o_res (p (w, l0))); auto.
Qed.

(** The options of [_train_batches] that are compared with a number. *)
Definition numeric_options : list string :=
  ["log_every_n_batches"; "val_every_n_epochs"; "validation_patience"; "epochs"].

(** What an exception raised by the loop says about the merged
    configuration [cfg] and the metrics [mf]. *)
Definition loop_errors (cfg : gmap string value) (mf : list metric) (e : exn) : Prop :=
  match e with
  | KeyboardInterrupt => True
  | ConfigError => ~ valid_optimization cfg
  | TypeError =>
      exists k v, In k numeric_options /\ cfg !! k = Some v /\ as_num v = None
  | IndexError => mf = []
  | KeyError _ => False
  end.

(** Every key of [default_train_config] is a key of [cfg]. *)
Definition has_defaults (cfg : gmap string value) : Prop :=
  forall k, is_Some (default_train_config !! k) -> is_Some (cfg !! k).

Lemma merge_config_has_defaults cfg : has_defaults (merge_config cfg).
Proof.
  intros k [v Hv]. unfold merge_config. rewrite lookup_union.
  destruct (cfg !! k) as [u|]; rewrite Hv; cbn; eauto.
Qed.

Ltac key_present Hkeys :=
  let Hn := fresh "Hn" in
  intros Hn;
  lazymatch type of Hn with
  | _ !! ?k = None =>
      destruct (Hkeys k) as [? ?]; [eexists; vm_compute; reflexivity | congruence]
  end.

Ltac type_error :=
  let Hn := fresh "Hn" in
  intros Hn; cbv beta in *;
  lazymatch type of Hn with
  | as_num ?v = None =>
      lazymatch goal with
      | H : _ !! ?k = Some v |- _ =>
          exists k, v; split; [cbn; auto 10 | split; assumption]
      end
  end.

Ltac ensures_call :=
  unfold call_infer, call_train_on_batch, call_save, print_out, print_err,
    call_batch_generator;
  apply ensures_after_tick; [first [exact I | reflexivity] | intros ?; eexists; reflexivity].

Ltac ensures_loop Hkeys :=
  repeat (intros;
    lazymatch goal with
    | |- ensures _ _ (bind (getitem _ _) _) =>
        eapply ensures_bind; [apply ensures_getitem; key_present Hkeys | cbv beta]
    | |- ensures _ _ (bind (num _) _) =>
        eapply ensures_bind; [apply ensures_num; type_error | cbv beta]
    | |- ensures _ _ (bind _ _) => apply ensures_seq
    | |- ensures _ _ (ret _) => apply ensures_ret; exact I
    | |- ensures _ _ get_locals => apply ensures_get_locals; intros; exact I
    | |- ensures _ _ (assign _) => apply ensures_assign; exact I
    | |- ensures _ _ (lift _) => apply ensures_lift; ensures_call
    | |- ensures _ _ (if ?c then _ else _) => destruct c
    end).

Lemma ensures_test_batches (E : exn -> Prop) batches :
  E KeyboardInterrupt ->
  forall yt yp, ensures anything E (test_batches batches yt yp).
Proof.
  intros HE. induction batches as [|[x y] r IH]; intros yt yp; cbn [test_batches].
  - apply ensures_ret. exact I.
  - apply ensures_seq; [| intros a; apply IH].
    unfold call_infer. apply ensures_after_tick; [exact HE | intros ?; eexists; reflexivity].
Qed.

(** The evaluator can only be stopped by the interrupt; with a metric to
    compute, its report has one. *)
Lemma ensures_test_model (E : exn -> Prop) mf bs sp :
  E KeyboardInterrupt ->
  ensures (fun r => mf <> [] -> metrics r <> []) E (_test_model mf bs sp).
Proof.
  intros HE. apply ensures_returns.
  - intros w r Hr Hmf. apply test_model_val in Hr as (acc & _ & ->). cbn [metrics].
    apply ordered_dict_nonempty. destruct mf; [congruence | discriminate].
  - unfold _test_model. apply ensures_seq.
    + unfold call_batch_generator.
      apply ensures_after_tick; [exact HE | intros ?; eexists; reflexivity].
    + intros batches. apply ensures_seq; [apply ensures_test_batches, HE |].
      intros acc. apply ensures_ret. exact I.
Qed.

Lemma ensures_train_batch cfg mf log_on b :
  has_defaults cfg ->
  ensures anything (loop_errors cfg mf) (train_batch cfg mf log_on b).
Proof. intros Hkeys. unfold train_batch. cbv zeta. ensures_loop Hkeys. Qed.

Lemma ensures_validation cfg mf improved :
  has_defaults cfg ->
  ensures anything (loop_errors cfg mf) (validation cfg mf improved).
Proof.
  intros Hkeys. unfold validation.
  eapply ensures_bind; [apply ensures_getitem; key_present Hkeys |]. intros bs _.
  eapply ensures_bind; [apply ensures_lift, ensures_test_model; exact I |].
  intros report Hrep. cbv beta in Hrep.
  destruct (metrics report) as [|[m_name sc] rest] eqn:Em.
  - apply ensures_raise. cbn. destruct mf as [|f mf'] eqn:Emf; [reflexivity |].
    exfalso. apply Hrep; [discriminate | reflexivity].
  - ensures_loop Hkeys.
Qed.

Lemma ensures_epoch_body cfg mf improved log_on :
  has_defaults cfg ->
  ensures anything (loop_errors cfg mf) (epoch_body cfg mf improved log_on).
Proof.
  intros Hkeys. unfold epoch_body.
  eapply ensures_bind; [apply ensures_getitem; key_present Hkeys |]. intros bs _.
  apply ensures_seq; [apply ensures_lift; ensures_call |]. intros batches.
  apply ensures_seq; [apply ensures_for_each; intros b; apply ensures_train_batch, Hkeys |].
  intros _. apply ensures_seq; [apply ensures_assign; exact I |]. intros _.
  eapply ensures_bind; [apply ensures_getitem; key_present Hkeys |]. intros v Hv.
  eapply ensures_bind; [apply ensures_num; type_error |]. intros n Hn.
  apply ensures_seq; [apply ensures_get_locals; intros; exact I |]. intros l.
  apply ensures_seq.
  - destruct (_ && _); [apply ensures_validation, Hkeys | apply ensures_ret; exact I].
  - intros out_of_patience. ensures_loop Hkeys.
Qed.

Lemma ensures_loop_phase fuel cfg mf :
  has_defaults cfg ->
  ensures anything (loop_errors cfg mf) (loop_phase fuel cfg mf).
Proof.
  intros Hkeys. unfold loop_phase. apply ensures_seq.
  - intros w. unfold improvement, getitem, bind.
    destruct (Hkeys "metric_optimization") as [v Hv]; [eexists; vm_compute; reflexivity |].
    rewrite Hv. cbn.
    destruct (is_str v "maximize") eqn:E1; cbn; [exact I |].
    destruct (is_str v "minimize") eqn:E2; cbn; [exact I |].
    intros [H|H]; rewrite H in Hv; injection Hv as <-; cbn in E1, E2; discriminate.
  - intros ib. ensures_loop Hkeys. intros n Hn. cbv zeta.
    apply ensures_with_locals. unfold training_loop.
    apply ensures_try_except.
    + apply ensures_while_true, ensures_epoch_body, Hkeys.
    + ensures_loop Hkeys.
Qed.



Lemma ensures_final_save (E : exn -> Prop) l :
  E KeyboardInterrupt -> ensures anything E (final_save l).
Proof.
  intros HE. unfold final_save. destruct (saved l); [apply ensures_ret; exact I |].
  apply ensures_seq; [| intros _]; unfold print_err, call_save;
    (apply ensures_after_tick; [exact HE | intros ?; eexists; reflexivity]).
Qed.

Lemma ensures_train_batches fuel cfg mf :
  ensures anything (loop_errors (merge_config cfg) mf) (_train_batches fuel cfg mf).
Proof.
  unfold _train_batches. cbv zeta.
  apply ensures_seq; [apply ensures_loop_phase, merge_config_has_defaults |].
  intros rl. apply ensures_seq; [apply ensures_final_save; exact I |].
  intros _. apply ensures_ret. exact I.
Qed.

Lemma ensures_mono {S A} (Q : A -> Prop) (E E' : exn -> Prop) (p : prog S A) :
  ensures Q E p -> (forall e, E e -> E' e) -> ensures Q E' p.
Proof. intros Hp HE s. specialize (Hp s). destruct (o_res (p s)); auto. Qed.

(** No [KeyError]. *)
Definition not_key_error (e : exn) : Prop :=
  match e with KeyError _ => False | _ => True end.

Lemma ensures_bind_ret {S A B} (Q : B -> Prop) E (a : A) (k : A -> prog S B) :
  ensures Q E (k a) -> ensures Q E (bind (ret a) k).
Proof. intros H s. exact (H s). Qed.

Lemma ensures_tick (E : exn -> Prop) : E KeyboardInterrupt -> ensures anything E tick.
Proof. intros HE [m d [[|n]|]]; cbn; auto; exact I. Qed.

(** Programs on the world whose lookups are all known to succeed. *)
Ltac ensures_world :=
  repeat (intros;
    lazymatch goal with
    | |- ensures _ _ (bind (ret _) _) => apply ensures_bind_ret
    | |- ensures _ _ (bind (getitem _ _) _) =>
        eapply ensures_bind;
        [apply ensures_getitem; let Hn := fresh "Hn" in intros Hn; congruence | cbv beta]
    | |- ensures _ _ (bind _ _) => apply ensures_seq
    | |- ensures _ _ (ret _) => apply ensures_ret; exact I
    | |- ensures _ _ (raise _) => apply ensures_raise; exact I
    | |- ensures _ _ (if ?c then _ else _) => destruct c
    | |- ensures _ _ (match ?x with _ => _ end) => destruct x
    | |- ensures _ _ (_test_model _ _ _) =>
        eapply ensures_weaken; [apply ensures_test_model; exact I | intros; exact I]
    | |- ensures _ _ tick => apply ensures_tick; exact I
    | |- ensures _ _ (print_out _) => ensures_call
    | |- ensures _ _ (print_err _) => ensures_call
    | |- ensures _ _ call_save => ensures_call
    | |- ensures _ _ (call_fit _) =>
        unfold call_fit; apply ensures_after_tick; [exact I | intros ?; eexists; reflexivity]
    | |- ensures _ _ call_train =>
        unfold call_train; apply ensures_after_tick; [exact I | intros ?; eexists; reflexivity]
    | |- ensures _ _ (call_iter_all _) =>
        unfold call_iter_all; apply ensures_after_tick;
        [exact I | intros ?; eexists; reflexivity]
    | |- ensures _ _ (fun w => Out (Val _) _ _) => intros ?; exact I
    end).

Lemma ensures_test_best_saved cfg mf :
  is_Some (cfg !! "validate_best") -> is_Some (cfg !! "test_best") ->
  ensures anything not_key_error (test_best_saved cfg mf).
Proof. intros [vb Hvb] [tb Htb]. unfold test_best_saved. ensures_world. Qed.

Lemma experimental_key user k :
  is_Some (experimental_defaults !! k) -> is_Some ((user ∪ experimental_defaults) !! k).
Proof.
  intros [v Hv]. rewrite lookup_union. destruct (user !! k) as [u|]; rewrite Hv; cbn; eauto.
Qed.

Lemma ensures_configure config_train :
  ensures (fun cm => cm.1 = default ∅ config_train ∪ experimental_defaults)
          not_key_error (configure config_train).
Proof.
  apply ensures_returns.
  - intros w [cfg mf] H. apply configure_val in H. exact H.
  - unfold configure, names_of. destruct config_train as [user|].
    + destruct (experimental_key user "metrics") as [v Hv];
        [eexists; vm_compute; reflexivity |].
      ensures_world.
    + assert (Hv : experimental_defaults !! "metrics" = Some (VStrs ["accuracy"]))
        by (vm_compute; reflexivity).
      eapply ensures_bind with (Q1 := fun tc => tc = experimental_defaults).
      * apply ensures_seq; [ensures_call |]. intros _. apply ensures_ret. reflexivity.
      * intros tc ->. ensures_world.
Qed.

(** From line 106 on, [train_experimental] never raises [KeyError]: every
    key its two functions read in the training configuration has a default,
    in [train_experimental] for [metrics], [validate_best] and [test_best],
    and in [_train_batches] for the options of the loop.  This holds for
    every training section of the configuration (present or not), every
    strategy, every initial world and every bound on the iterations. *)
Theorem train_experimental_no_key_error fuel has_train_on_batch has_fit config_train w :
  match o_res (train_experimental fuel has_train_on_batch has_fit config_train w) with
  | Raise (KeyError _) => False
  | _ => True
  end.
Proof.
  assert (H : ensures anything not_key_error
                (train_experimental fuel has_train_on_batch has_fit config_train)).
  { unfold train_experimental.
    eapply ensures_bind; [apply ensures_configure |].
    intros [cfg mf] Hcfg. cbn [fst snd] in *. subst cfg.
    assert (Hvb : is_Some ((default ∅ config_train ∪ experimental_defaults) !! "validate_best"))
      by (apply experimental_key; eexists; vm_compute; reflexivity).
    assert (Htb : is_Some ((default ∅ config_train ∪ experimental_defaults) !! "test_best"))
      by (apply experimental_key; eexists; vm_compute; reflexivity).
    destruct has_train_on_batch; [| destruct has_fit].
    - apply ensures_seq; [| intros _; apply ensures_test_best_saved; assumption].
      eapply ensures_mono; [apply ensures_train_batches |].
      intros [] He; cbn in *; auto.
    - apply ensures_seq; [| intros _; apply ensures_test_best_saved; assumption].
      unfold _fit. ensures_world.
    - ensures_world. }
  specialize (H w).
  destruct (o_res (train_experimental fuel has_train_on_batch has_fit config_train w))
    as [a|e|]; [exact I | | exact I].
  destruct e; try exact I. exact H.
Qed.


(** ** Options that are not numbers *)

(** Line 207 compares [log_every_n_batches] with [0] before the [try]: a
    value that is not a number makes [_train_batches] raise [TypeError]
    there, whatever the world; nothing has been drawn, trained or saved. *)
Theorem non_numeric_log_period fuel cfg mf v w :
  valid_optimization (merge_config cfg) ->
  merge_config cfg !! "log_every_n_batches" = Some v -> as_num v = None ->
  _train_batches fuel cfg mf w = Out (Raise TypeError) w [].
Proof.
  intros Hopt Hv Hnone. unfold _train_batches. cbv zeta.
  destruct (valid_optimization_improvement _ Hopt) as (improved & Hi).
  apply bind_raise. unfold loop_phase.
  rewrite (bind_val _ _ _ _ _ _ (Hi w)). cbn [app].
  rewrite (bind_getitem _ _ _ _ _ Hv). cbv beta.
  unfold bind, num. rewrite Hnone. reflexivity.
Qed.

Lemma num_raise {S} v (s : S) : as_num v = None -> num v s = Out (Raise TypeError) s [].
Proof. intros H. unfold num. rewrite H. reflexivity. Qed.

(** The first iteration of the loop when [val_every_n_epochs] is not a
    number: the pass is made, then line 243 fails. *)
Lemma epoch_body_non_numeric cfg mf improved bsv vN N v m d l :
  cfg !! "batch_size" = Some bsv ->
  cfg !! "log_every_n_batches" = Some vN -> as_num vN = Some N ->
  cfg !! "val_every_n_epochs" = Some v -> as_num v = None ->
  let B := (batch_generator d bsv Train true).2 in
  let recs := batch_records (0 <? N) m B in
  epoch_body cfg mf improved (0 <? N) (World m d None, l) =
  Out (Raise TypeError)
      (World (model_after (0 <? N) m B) (batch_generator d bsv Train true).1 None,
       set_epochs (epochs l + 1) (fold_left (log_step N) recs l))
      ([EvBatchGen bsv Train true B] ++ pass_events N mf l recs).
Proof.
  intros Hbs HvN HN Hv Hnone B recs. unfold epoch_body, default_data_type, default_shuffle.
  eapply eq_trans.
  { eapply bind_step; [qprim |]. eapply bind_step; [qprim |].
    eapply bind_step; [apply (training_pass_quiet _ _ _ _ HvN HN) |].
    eapply bind_step; [qprim |]. eapply bind_step; [apply getitem_step; exact Hv |].
    apply bind_raise. apply num_raise, Hnone. }
  cbn [app]. rewrite !app_nil_r. qnorm.
  destruct (pass_locals N recs l) as (Hep & _). cbv zeta in Hep.
  fold B. fold recs. rewrite Hep. reflexivity.
Qed.

(** A [val_every_n_epochs] that is not a number is found at the end of the
    first pass (line 243), outside any handler: an uninterrupted run trains
    the model on every batch of that pass and then raises [TypeError]; the
    trained model is not saved. *)
Theorem non_numeric_validation_period fuel cfg mf bsv N v m d :
  merge_config cfg !! "batch_size" = Some bsv ->
  lookup_num (merge_config cfg) "log_every_n_batches" = Some N ->
  merge_config cfg !! "val_every_n_epochs" = Some v -> as_num v = None ->
  valid_optimization (merge_config cfg) ->
  let run := _train_batches (S fuel) cfg mf (World m d None) in
  let B := (batch_generator d bsv Train true).2 in
  o_res run = Raise TypeError /\
  model (o_st run) = model_after (0 <? N) m B /\
  trained (o_tr run) = B /\ passes (o_tr run) = 1%nat /\ saves (o_tr run) = 0%nat.
Proof.
  intros Hbs HN Hv Hnone Hopt run B.
  destruct (valid_optimization_improvement _ Hopt) as (improved & Hi).
  pose proof HN as HN'. apply lookup_num_inv in HN' as (vN & HvN & HN').
  set (l0 := Locals 0 0 0 false 0 (initial_best (merge_config cfg)) [] []).
  pose proof (epoch_body_non_numeric (merge_config cfg) mf improved bsv vN N v m d l0
                Hbs HvN HN' Hv Hnone) as Hbody.
  cbv zeta in Hbody. fold B in Hbody.
  set (recs := batch_records (0 <? N) m B) in *.
  assert (Hrun : run = Out (Raise TypeError)
                   (World (model_after (0 <? N) m B) (batch_generator d bsv Train true).1 None)
                   ([EvBatchGen bsv Train true B] ++ pass_events N mf l0 recs)).
  { subst run. unfold _train_batches. cbv zeta. apply bind_raise.
    rewrite (loop_phase_eq _ _ _ _ _ _ _ (Hi _) HN).
    unfold with_locals, training_loop, try_except. fold l0.
    rewrite while_true_S, (bind_raise _ _ _ _ _ _ Hbody). reflexivity. }
  rewrite Hrun. cbn [o_res o_st o_tr model].
  pose proof (pass_events_batch N mf recs l0) as Hbatch.
  destruct (batch_events_obs _ Hbatch) as (Ho1 & _ & _ & _ & Ho5).
  rewrite trained_app, passes_app, saves_app, Ho1, Ho5, pass_events_trained.
  unfold recs. rewrite batch_records_batches. repeat split; reflexivity.
Qed.


(** ** The training pass: without logging, and the counters of its reports *)

Lemma inputs_count_cons (b : batch) r :
  inputs_count (b :: r) = (length b.1 + inputs_count r)%nat.
Proof. reflexivity. Qed.

(** With [log_every_n_batches <= 0] a pass over the batches does nothing but
    call [train_on_batch] on each batch, in order: the model is not asked
    for predictions and no report is printed; the pass adds the number of
    batches to [i] and the number of inputs to [examples], and leaves the
    other variables of the loop as they were. *)
Theorem pass_without_logging cfg mf vN N batches :
  cfg !! "log_every_n_batches" = Some vN -> as_num vN = Some N -> N <= 0 ->
  forall m d l,
    for_each batches (train_batch cfg mf (0 <? N)) (World m d None, l) =
    Out (Val tt)
        (World (fold_left train_on_batch batches m) d None,
         set_examples (examples l + Z.of_nat (inputs_count batches))
                      (set_i (i l + Z.of_nat (length batches)) l))
        (map EvTrainOnBatch batches).
Proof.
  intros HvN HN Hle.
  assert (E0 : (0 <? N) = false) by (destruct (0 <? N) eqn:E; [lia | reflexivity]).
  rewrite E0.
  induction batches as [|b r IH]; intros m d l.
  - cbn [for_each fold_left map length inputs_count]. unfold inputs_count. cbn.
    rewrite !Z.add_0_r. destruct l; reflexivity.
  - cbn [for_each fold_left map].
    pose proof (train_batch_quiet cfg mf b m d l vN N HvN HN) as Hb.
    cbv zeta in Hb. rewrite E0 in Hb. cbn [andb app] in Hb.
    eapply eq_trans; [eapply bind_step; [exact Hb | apply IH] |].
    rewrite inputs_count_cons. cbn [length app].
    unfold set_examples, set_i.
    cbn [i epochs examples saved patience best train_y_true train_y_predicted].
    f_equal. f_equal. f_equal; lia.
Qed.

(** The counters of the interim reports: [epochs_done], [batches_seen] and
    [examples_seen]. *)
Definition interim_counters (t : list event) : list (Z * Z * Z) :=
  flat_map (fun e => match e with
                     | EvOut (PTrain done seen ex _) => [(done, seen, ex)]
                     | _ => []
                     end) t.

Lemma interim_counters_app t1 t2 :
  interim_counters (t1 ++ t2) = interim_counters t1 ++ interim_counters t2.
Proof. apply flat_map_app. Qed.

Lemma interim_counters_step N mf l rec :
  interim_counters (step_events N mf l rec) =
  if flushes N l
  then [(epochs l, i l + 1, examples l + Z.of_nat (length rec.1.1))]
  else [].
Proof.
  unfold step_events. rewrite !interim_counters_app.
  destruct (0 <? N), (flushes N l); reflexivity.
Qed.

Lemma take_inputs_count (b : batch) r j :
  inputs_count (take (S j) (b :: r)) = (length b.1 + inputs_count (take j r))%nat.
Proof. reflexivity. Qed.

(** The interim reports of a pass, by the position [j >= 1] of the batch in
    the pass. *)
Lemma interim_counters_pass N mf batches : forall m l,
  0 < N ->
  interim_counters (pass_events N mf l (batch_records true m batches)) =
  map (fun j : nat =>
         (epochs l, i l + Z.of_nat j,
          examples l + Z.of_nat (inputs_count (take j batches))))
      (List.filter (fun j : nat => (i l + Z.of_nat j) mod N =? 0) (seq 1 (length batches))).
Proof.
  induction batches as [|b r IH]; intros m l HN; [reflexivity |].
  cbn [batch_records pass_events length].
  rewrite interim_counters_app, interim_counters_step, (IH _ _ HN).
  assert (E0 : (0 <? N) = true) by (apply Z.ltb_lt; exact HN).
  unfold flushes. rewrite E0. cbn [andb fst snd].
  set (l1 := log_step N l (b, (infer m b.1).2)).
  assert (Hl1 : epochs l1 = epochs l /\ i l1 = i l + 1 /\
                examples l1 = examples l + Z.of_nat (length b.1)) by (cbn; auto).
  destruct Hl1 as (-> & -> & ->). clearbody l1.
  cbn [seq]. rewrite <- (seq_shift (length r) 1).
  cbn [List.filter]. change (Z.of_nat 1) with 1.
  rewrite List.filter_map_swap.
  assert (Htail :
    map (fun j : nat =>
           (epochs l, i l + 1 + Z.of_nat j,
            examples l + Z.of_nat (length b.1) + Z.of_nat (inputs_count (take j r))))
        (List.filter (fun j : nat => (i l + 1 + Z.of_nat j) mod N =? 0)
                     (seq 1 (length r))) =
    map (fun j : nat =>
           (epochs l, i l + Z.of_nat j,
            examples l + Z.of_nat (inputs_count (take j (b :: r)))))
        (map S (List.filter (fun j : nat => (i l + Z.of_nat (S j)) mod N =? 0)
                            (seq 1 (length r))))).
  { rewrite map_map.
    rewrite (List.filter_ext (fun j : nat => (i l + 1 + Z.of_nat j) mod N =? 0)
               (fun j : nat => (i l + Z.of_nat (S j)) mod N =? 0)).
    - apply map_ext. intros j. rewrite take_inputs_count. f_equal; [f_equal |]; lia.
    - intros j. do 2 f_equal. lia. }
  rewrite Htail.
  destruct ((i l + 1) mod N =? 0); cbn [map app]; [| reflexivity].
  f_equal. unfold inputs_count. cbn. rewrite Nat.add_0_r. reflexivity.
Qed.


(** With [log_every_n_batches = N > 0], an uninterrupted pass prints an
    interim report after its [j]-th batch exactly when [i + j] is a multiple
    of [N], where [i] batches were seen before the pass.  The report
    carries the number of epochs completed before the pass, [i + j] as
    [batches_seen], and as [examples_seen] the number of inputs seen since
    the start of training: the counters are cumulative, they are not reset
    with the window of the metrics. *)
Theorem interim_counters_are_cumulative cfg mf vN N batches m d l :
  cfg !! "log_every_n_batches" = Some vN -> as_num vN = Some N -> 0 < N ->
  interim_counters
    (o_tr (for_each batches (train_batch cfg mf (0 <? N)) (World m d None, l))) =
  map (fun j : nat =>
         (epochs l, i l + Z.of_nat j,
          examples l + Z.of_nat (inputs_count (take j batches))))
      (List.filter (fun j : nat => (i l + Z.of_nat j) mod N =? 0) (seq 1 (length batches))).
Proof.
  intros HvN HN Hpos.
  rewrite (training_pass_quiet cfg mf vN N HvN HN). cbn [o_tr].
  assert (E0 : (0 <? N) = true) by (apply Z.ltb_lt; exact Hpos).
  rewrite E0. apply interim_counters_pass, Hpos.
Qed.


(** ** The tests of the best saved model (lines 129-145) *)

(** Lines 130-145 once one of the two flags is set. *)
Definition rebuild_and_test (train_config : gmap string value)
    (metrics_functions : list metric) : prog world unit :=
  bind tick (fun _ =>
  bind (fun w => Out (Val tt) (World infer_mode_model (dataset w) (intr w)) [EvFromParams])
       (fun _ =>
  bind (print_err MsgTestingBest) (fun _ =>
  bind (getitem train_config "validate_best") (fun vb =>
  bind (if truthy vb
        then bind (_test_model metrics_functions (get_batch_size train_config) Valid)
                  (fun r => print_out (PSplit Valid r))
        else ret tt) (fun _ =>
  bind (getitem train_config "test_best") (fun tb =>
  if truthy tb
  then bind (_test_model metrics_functions (get_batch_size train_config) Test)
            (fun r => print_out (PSplit Test r))
  else ret tt)))))).

Lemma test_best_saved_cases cfg mf w :
  test_best_saved cfg mf w =
  match cfg !! "validate_best" with
  | None => Out (Raise (KeyError "validate_best")) w []
  | Some vb =>
      if truthy vb then rebuild_and_test cfg mf w
      else match cfg !! "test_best" with
           | None => Out (Raise (KeyError "test_best")) w []
           | Some tb => if truthy tb then rebuild_and_test cfg mf w else Out (Val tt) w []
           end
  end.
Proof.
  unfold test_best_saved, getitem at 1.
  destruct (cfg !! "validate_best") as [vb|]; [| reflexivity].
  rewrite bind_ret_l. destruct (truthy vb) eqn:Evb.
  - rewrite bind_ret_l. reflexivity.
  - unfold getitem at 1. destruct (cfg !! "test_best") as [tb|]; [| reflexivity].
    destruct (truthy tb) eqn:Etb.
    + unfold bind at 1. unfold bind at 1. cbn [ret o_res o_st o_tr app]. rewrite Etb.
      reflexivity.
    + unfold bind at 1. unfold bind at 1. cbn [ret o_res o_st o_tr app]. rewrite Etb.
      reflexivity.
Qed.

Lemma rebuild_ignores_model cfg mf m1 m2 d k :
  o_res (rebuild_and_test cfg mf (World m1 d k)) =
  o_res (rebuild_and_test cfg mf (World m2 d k)) /\
  o_tr (rebuild_and_test cfg mf (World m1 d k)) =
  o_tr (rebuild_and_test cfg mf (World m2 d k)).
Proof.
  unfold rebuild_and_test. destruct k as [[|n]|].
  - split; reflexivity.
  - split; reflexivity.
  - split; reflexivity.
Qed.

(** What the tests of the best saved model print, the calls they make and
    the way they end do not depend on the model that was trained in memory:
    the model they evaluate is the one built anew in inference mode.  This
    holds for every configuration, pending interrupt or not. *)
Theorem best_model_tests_ignore_trained_model cfg mf m1 m2 d k :
  o_res (test_best_saved cfg mf (World m1 d k)) =
  o_res (test_best_saved cfg mf (World m2 d k)) /\
  o_tr (test_best_saved cfg mf (World m1 d k)) =
  o_tr (test_best_saved cfg mf (World m2 d k)).
Proof.
  rewrite !test_best_saved_cases.
  destruct (cfg !! "validate_best") as [vb|]; [| split; reflexivity].
  destruct (truthy vb); [apply rebuild_ignores_model |].
  destruct (cfg !! "test_best") as [tb|]; [| split; reflexivity].
  destruct (truthy tb); [apply rebuild_ignores_model | split; reflexivity].
Qed.


(** Without interrupt: when neither flag is set nothing happens, not even
    the construction of the inference-mode model; otherwise that model is
    built once, [validate_best] gives one report on the [valid] split and
    then [test_best] one on the [test] split, each the report of the
    evaluator run on the inference-mode model with batch size
    [train_config.get('batch_size', -1)]. *)
Theorem best_model_reports cfg mf vb tb m d :
  cfg !! "validate_best" = Some vb -> cfg !! "test_best" = Some tb ->
  let bs := get_batch_size cfg in
  let w0 := World infer_mode_model d None in
  let ev := _test_model mf bs Valid w0 in
  let w1 := if truthy vb then o_st ev else w0 in
  let et := _test_model mf bs Test w1 in
  exists rv rt,
    o_res ev = Val rv /\ o_res et = Val rt /\
    test_best_saved cfg mf (World m d None) =
    if truthy vb || truthy tb then
      Out (Val tt) (if truthy tb then o_st et else w1)
          ([EvFromParams; EvErr MsgTestingBest] ++
           (if truthy vb then o_tr ev ++ [EvOut (PSplit Valid rv)] else []) ++
           (if truthy tb then o_tr et ++ [EvOut (PSplit Test rt)] else []))
    else Out (Val tt) (World m d None) [].
Proof.
  intros Hvb Htb. cbv zeta.
  destruct (test_model_quiet mf (get_batch_size cfg) Valid infer_mode_model d)
    as (rv & mv & tv & Hv).
  rewrite test_best_saved_cases, Hvb, Htb.
  destruct (truthy vb) eqn:Evb.
  - rewrite Hv. cbn [o_st o_res o_tr].
    destruct (test_model_quiet mf (get_batch_size cfg) Test mv
                (batch_generator d (get_batch_size cfg) Valid false).1)
      as (rt & mt & tt' & Ht).
    rewrite Ht. cbn [o_st o_res o_tr]. exists rv, rt.
    split; [reflexivity |]. split; [reflexivity |].
    destruct (truthy tb) eqn:Etb; cbn [orb]; unfold rebuild_and_test.
    + eapply eq_trans.
      { eapply bind_step; [reflexivity |]. eapply bind_step; [reflexivity |].
        eapply bind_step; [reflexivity |].
        eapply bind_step; [apply getitem_step, Hvb |]. cbv beta. rewrite Evb.
        eapply bind_step; [eapply bind_step; [exact Hv | reflexivity] |].
        eapply bind_step; [apply getitem_step, Htb |]. cbv beta. rewrite Etb.
        eapply bind_step; [exact Ht | reflexivity]. }
      cbn [app]. rewrite <- !app_assoc. reflexivity.
    + eapply eq_trans.
      { eapply bind_step; [reflexivity |]. eapply bind_step; [reflexivity |].
        eapply bind_step; [reflexivity |].
        eapply bind_step; [apply getitem_step, Hvb |]. cbv beta. rewrite Evb.
        eapply bind_step; [eapply bind_step; [exact Hv | reflexivity] |].
        eapply bind_step; [apply getitem_step, Htb |]. cbv beta. rewrite Etb.
        reflexivity. }
      cbn [app]. rewrite <- !app_assoc, !app_nil_r. reflexivity.
  - destruct (test_model_quiet mf (get_batch_size cfg) Test infer_mode_model d)
      as (rt & mt & tt' & Ht).
    rewrite Hv, Ht. cbn [o_st o_res o_tr]. exists rv, rt.
    split; [reflexivity |]. split; [reflexivity |].
    destruct (truthy tb) eqn:Etb; cbn [orb]; [| reflexivity].
    unfold rebuild_and_test. eapply eq_trans.
    { eapply bind_step; [reflexivity |]. eapply bind_step; [reflexivity |].
      eapply bind_step; [reflexivity |].
      eapply bind_step; [apply getitem_step, Hvb |]. cbv beta. rewrite Evb.
      eapply bind_step; [reflexivity |].
      eapply bind_step; [apply getitem_step, Htb |]. cbv beta. rewrite Etb.
      eapply bind_step; [exact Ht | reflexivity]. }
    cbn [app]. reflexivity.
Qed.


(** ** The metrics of a report

    [OrderedDict(metrics)] at line 164 and [dict(metrics)] at line 229. *)

Lemma od_set_fresh {V} k (v : V) d :
  ~ In k (map fst d) -> od_set k v d = d ++ [(k, v)].
Proof.
  induction d as [|[k' v'] r IH]; cbn; intros H; [reflexivity |].
  destruct (String.eqb_spec k k') as [->|Hne]; [exfalso; auto |].
  rewrite IH; [reflexivity | intros Hin; apply H; auto].
Qed.











(** ** An interrupt on a loop that has no other way to stop *)

































(** ** One validation block (lines 244-271) *)

Lemma validation_exact cfg mf improved m d l bsv vp P r m' d' head name sc rest :
  cfg !! "batch_size" = Some bsv ->
  cfg !! "validation_patience" = Some vp -> as_num vp = Some P ->
  lift (_test_model mf bsv Valid) (World m d None, l) = Out (Val r) (World m' d' None, l) head ->
  metrics r = (name, sc) :: rest ->
  let rep := fun p => Report (examples_seen r) (metrics r) (Some p)
                             (if 0 <? P then Some vp else None) in
  let stop := (P <=? patience l + 1) && (0 <? P) in
  validation cfg mf improved (World m d None, l) =
  if improved sc (best l) then
    Out (Val false)
        (World m' d' None, set_saved true (set_best sc (set_patience 0 l)))
        (head ++ [EvErr (MsgNewBest name sc); EvErr MsgSaving; EvSave;
                  EvOut (PSplit Valid (rep 0))])
  else
    Out (Val stop)
        (World m' d' None, set_patience (patience l + 1) l)
        (head ++ [EvErr (MsgNoImprove name (best l));
                  EvOut (PSplit Valid (rep (patience l + 1)))] ++
                 (if stop then [EvErr MsgOutOfPatience] else [])).
Proof.
  intros Hbs Hvp HP Hrun Em. cbv zeta. unfold validation.
  destruct l as [i0 ep ex sv pa be yt yp].
  cbn [best patience].
  destruct (improved sc be) eqn:Ei.
  - eapply eq_trans.
    { eapply bind_step; [qprim |]. eapply bind_step; [exact Hrun |].
      cbv beta. rewrite Em. qrun. rewrite Ei. qrun.
      assert ((P <=? 0) && (0 <? P) = false) as -> by lia. reflexivity. }
    cbn [i epochs examples saved patience best train_y_true train_y_predicted
         set_saved set_best set_patience].
    rewrite Em. cbn [app]. reflexivity.
  - destruct ((P <=? pa + 1) && (0 <? P)) eqn:Es.
    + eapply eq_trans.
      { eapply bind_step; [qprim |]. eapply bind_step; [exact Hrun |].
        cbv beta. rewrite Em. qrun. rewrite Ei. qrun. rewrite Es. qrun. }
      cbn [i epochs examples saved patience best train_y_true train_y_predicted
           set_saved set_best set_patience].
      rewrite Em. cbn [app]. reflexivity.
    + eapply eq_trans.
      { eapply bind_step; [qprim |]. eapply bind_step; [exact Hrun |].
        cbv beta. rewrite Em. qrun. rewrite Ei. qrun. rewrite Es. qrun. }
      cbn [i epochs examples saved patience best train_y_true train_y_predicted
           set_saved set_best set_patience].
      rewrite Em. cbn [app]. reflexivity.
Qed.

(** What an uninterrupted validation block does.  The evaluator is run on
    the [valid] split with the batch size of the loop; the first entry of
    its metrics is compared with [best].  On an improvement the patience is
    reset, [best] is updated and the model is saved, once; otherwise the
    patience is incremented and nothing is saved.  One report is printed:
    the evaluator's, with the new patience as [impatience] and, when
    [validation_patience] is positive, its value as [patience_limit].  The
    block asks to leave the loop exactly when the new patience has reached
    a positive [validation_patience]. *)
Theorem validation_block cfg mf improved m d l bsv vp P :
  cfg !! "batch_size" = Some bsv ->
  cfg !! "validation_patience" = Some vp -> as_num vp = Some P ->
  mf <> [] ->
  exists r name sc rest,
    o_res (_test_model mf bsv Valid (World m d None)) = Val r /\
    metrics r = (name, sc) :: rest /\
    let run := validation cfg mf improved (World m d None, l) in
    let l' := (o_st run).2 in
    let better := improved sc (best l) in
    patience l' = (if better then 0 else patience l + 1) /\
    best l' = (if better then sc else best l) /\
    saved l' = (if better then true else saved l) /\
    saves (o_tr run) = (if better then 1 else 0)%nat /\
    valid_reports (o_tr run) =
      [Report (examples_seen r) (metrics r) (Some (patience l'))
              (if 0 <? P then Some vp else None)] /\
    o_res run = Val ((P <=? patience l') && (0 <? P)).
Proof.
  intros Hbs Hvp HP Hmf.
  destruct (lift_test_model_quiet mf bsv Valid m d l) as (r & m' & ti & HF & _ & Hne & Hrun).
  specialize (Hne Hmf). destruct (metrics r) as [|[name sc] rest] eqn:Em; [congruence |].
  exists r, name, sc, rest.
  assert (Hr : o_res (_test_model mf bsv Valid (World m d None)) = Val r).
  { apply (f_equal o_res) in Hrun. exact Hrun. }
  split; [exact Hr |]. split; [exact Em |].
  pose proof (validation_exact cfg mf improved m d l bsv vp P r m' _ _ name sc rest
                Hbs Hvp HP Hrun Em) as Hval.
  cbv zeta in *. rewrite Hval.
  destruct (infer_events_obs _ HF) as (_ & _ & _ & Hi4 & Hi5 & _).
  assert (Hhead : forall tl,
    valid_reports (([EvBatchGen bsv Valid false (batch_generator d bsv Valid false).2] ++ ti)
                   ++ tl) = valid_reports tl /\
    saves (([EvBatchGen bsv Valid false (batch_generator d bsv Valid false).2] ++ ti)
           ++ tl) = saves tl).
  { intros tl. rewrite !valid_reports_app, !saves_app, Hi4, Hi5. split; reflexivity. }
  destruct (improved sc (best l)) eqn:Ei; cbn [o_res o_st o_tr snd].
  - destruct (Hhead [EvErr (MsgNewBest name sc); EvErr MsgSaving; EvSave;
                     EvOut (PSplit Valid
                       (Report (examples_seen r) (metrics r) (Some 0)
                               (if 0 <? P then Some vp else None)))]) as [-> ->].
    rewrite Em. cbn. repeat split; try reflexivity.
    f_equal. lia.
  - destruct (Hhead ([EvErr (MsgNoImprove name (best l));
                      EvOut (PSplit Valid
                        (Report (examples_seen r) (metrics r) (Some (patience l + 1))
                                (if 0 <? P then Some vp else None)))] ++
                     (if (P <=? patience l + 1) && (0 <? P)
                      then [EvErr MsgOutOfPatience] else []))) as [-> ->].
    rewrite Em. cbn [set_patience patience best saved].
    destruct ((P <=? patience l + 1) && (0 <? P)); cbn; repeat split; reflexivity.
Qed.

(** * Building the components from a configuration file

    [train_model_from_config], [train_agent_models] and lines 85-104 of
    [train_experimental].

    A configuration is the value [read_json] returns.  A JSON object is a
    Python dictionary: an association list with distinct keys, in the order
    of the file.  The registry ([get_model]), the constructors
    ([from_params]) and the methods of the components they build are
    collaborators; they are taken to return, and what they do is recorded in
    a trace. *)

#[warnings="-register-all"]
Inductive json : Type :=
  | JNull
  | JBool (b : bool)
  | JNum (n : Z)
  | JStr (s : string)
  | JList (l : list json)
  | JDict (d : list (string * json)).

(** The exceptions of the accesses to a configuration. *)
Inductive build_error : Type :=
  | BKeyError (k : string)
  | BTypeError
  | BAttributeError.

Fixpoint assoc {V} (k : string) (d : list (string * V)) : option V :=
  match d with
  | [] => None
  | (k', v) :: r => if String.eqb k k' then Some v else assoc k r
  end.

Section Builders.

(** What a dataset reader returns, and the state of a vocabulary. *)
Context {R Vc : Type}.

(** [paths.USR_PATH]. *)
Variable usr_dir : json.
(** [from_params(get_model(name), {}).read(path)]. *)
Variable read : json -> json -> R.
(** [from_params(get_model(name), dataset_config, data=data)]. *)
Variable build_dataset : json -> json -> R -> D.
(** [from_params(get_model(name), vocab_config, mode=mode)], [v.train(data)]
    and [v.fit(data)]. *)
Variable build_vocab : json -> json -> string -> Vc.
Variable vocab_train : Vc -> list (X * Y) -> Vc.
Variable vocab_fit : Vc -> list (X * Y) -> Vc.
(** [from_params(get_model(name), model_config, vocabs=vocabs, mode=mode)],
    and [from_params(get_model(name), model_config)] when no keyword is
    given. *)
Variable build_model : json -> json -> option (list (string * Vc) * string) -> M.
(** [issubclass(get_model(name), Trainable)]. *)
Variable is_trainable : json -> bool.

Inductive build_event : Type :=
  | BFromParams (name params : json)
  | BRead (path : json)
  | BVocabTrain (param : string)
  | BVocabFit (param : string)
  | BVocabSave (param : string)
  | BModelTrain (m : M) (d : D)
  | BSkip (model_name : json).

(** A run: its trace, and its value or the exception that ended it. *)
Inductive built (A : Type) : Type :=
  | Built (a : A)
  | Failed (e : build_error).
Arguments Built {A} a.
Arguments Failed {A} e.

Definition build (A : Type) : Type := list build_event * built A.

Definition bret {A} (a : A) : build A := ([], Built a).
Definition braise {A} (e : build_error) : build A := ([], Failed e).
Definition bemit (e : build_event) : build unit := ([e], Built tt).

Definition bbind {A B} (p : build A) (k : A -> build B) : build B :=
  match p.2 with
  | Built a => (p.1 ++ (k a).1, (k a).2)
  | Failed e => (p.1, Failed e)
  end.

#[local] Notation "x ⇐ p ; q" := (bbind p (fun x => q))
  (at level 20, p at level 100, q at level 200, only parsing).
#[local] Notation "p ;;; q" := (bbind p (fun _ => q))
  (at level 100, q at level 200, right associativity, only parsing).

(** [j[k]] for a string [k]. *)
Definition jgetitem (j : json) (k : string) : build json :=
  match j with
  | JDict d => match assoc k d with
               | Some v => bret v
               | None => braise (BKeyError k)
               end
  | _ => braise BTypeError
  end.

(** [j.get(k, default)]. *)
Definition jget (j : json) (k : string) (default : json) : build json :=
  match j with
  | JDict d => bret (match assoc k d with Some v => v | None => default end)
  | _ => braise BAttributeError
  end.

(** [j.items()]. *)
Definition jitems (j : json) : build (list (string * json)) :=
  match j with
  | JDict d => bret d
  | _ => braise BAttributeError
  end.

(** Lines 52-59, 88-94 and 33-39: the reader reads the data and the dataset
    is built from them. *)
Definition build_data (config : json) : build D :=
  reader_config ⇐ jgetitem config "dataset_reader";
  reader_name ⇐ jgetitem reader_config "name";
  bemit (BFromParams reader_name (JDict [])) ;;;
  path ⇐ jget reader_config "data_path" usr_dir;
  bemit (BRead path) ;;;
  let data := read reader_name path in
  dataset_config ⇐ jgetitem config "dataset";
  dataset_name ⇐ jgetitem dataset_config "name";
  bemit (BFromParams dataset_name dataset_config) ;;;
  bret (build_dataset dataset_name dataset_config data).

(** Lines 63-67: the loop over the vocabularies of [train_model_from_config]. *)
Fixpoint train_vocabs (items : list (string * json)) (mode : string) (dataset : D)
    (vocabs : list (string * Vc)) : build (list (string * Vc)) :=
  match items with
  | [] => bret vocabs
  | (vocab_param_name, vocab_config) :: rest =>
      vocab_name ⇐ jgetitem vocab_config "name";
      bemit (BFromParams vocab_name vocab_config) ;;;
      let v := build_vocab vocab_name vocab_config mode in
      bemit (BVocabTrain vocab_param_name) ;;;
      let v := vocab_train v (iter_all dataset Train) in
      train_vocabs rest mode dataset (od_set vocab_param_name v vocabs)
  end.

(** Lines 48-73.  The function returns nothing; the value here is the model
    after [model.train(dataset)]. *)
Definition train_model_from_config (config : json) (mode : string) : build M :=
  match config with
  | JDict c =>
      dataset ⇐ build_data config;
      vocabs ⇐ match assoc "vocabs" c with
               | Some vs => items ⇐ jitems vs; train_vocabs items mode dataset []
               | None => bret []
               end;
      model_config ⇐ jgetitem config "model";
      model_name ⇐ jgetitem model_config "name";
      bemit (BFromParams model_name model_config) ;;;
      let model := build_model model_name model_config (Some (vocabs, mode)) in
      bemit (BModelTrain model dataset) ;;;
      bret (train model dataset)
  | _ => braise BTypeError
  end.

(** Lines 97-100: the loop over the vocabularies of [train_experimental],
    with [_fit] (lines 78-81) on each. *)
Fixpoint fit_vocabs (items : list (string * json)) (dataset : D)
    (vocabs : list (string * Vc)) : build (list (string * Vc)) :=
  match items with
  | [] => bret vocabs
  | (vocab_param_name, vocab_config) :: rest =>
      vocab_name ⇐ jgetitem vocab_config "name";
      bemit (BFromParams vocab_name vocab_config) ;;;
      let v := build_vocab vocab_name vocab_config "train" in
      bemit (BVocabFit vocab_param_name) ;;;
      let v := vocab_fit v (iter_all dataset Train) in
      bemit (BVocabSave vocab_param_name) ;;;
      fit_vocabs rest dataset (od_set vocab_param_name v vocabs)
  end.

(** Lines 85-104 of [train_experimental]: the dataset and the model in
    training mode, which are the world the rest of the function runs in. *)
Definition build_experimental (config : json) : build (M * D) :=
  match config with
  | JDict c =>
      dataset ⇐ build_data config;
      items ⇐ jitems (match assoc "vocabs" c with Some vs => vs | None => JDict [] end);
      vocabs ⇐ fit_vocabs items dataset [];
      model_config ⇐ jgetitem config "model";
      model_name ⇐ jgetitem model_config "name";
      bemit (BFromParams model_name model_config) ;;;
      bret (build_model model_name model_config (Some (vocabs, "train")), dataset)
  | _ => braise BTypeError
  end.

(** Lines 28-45: one skill of the agent. *)
Definition train_skill (skill_config : json) : build unit :=
  model_config ⇐ jgetitem skill_config "model";
  model_name ⇐ jgetitem model_config "name";
  if is_trainable model_name then
    dataset ⇐ build_data skill_config;
    bemit (BFromParams model_name model_config) ;;;
    let model := build_model model_name model_config None in
    bemit (BModelTrain model dataset)
  else
    bemit (BSkip model_name).

(** Lines 24-45, on the skill configurations of the agent that
    [build_agent_from_config] has built. *)
Fixpoint train_agent_models (skill_configs : list json) : build unit :=
  match skill_configs with
  | [] => bret tt
  | skill_config :: rest => train_skill skill_config ;;; train_agent_models rest
  end.


(** ** Facts about building *)

Lemma bbind_ret_l {A B} (a : A) (k : A -> build B) : bbind (bret a) k = k a.
Proof. unfold bbind, bret. cbn. destruct (k a). reflexivity. Qed.

Lemma bbind_built {A B} (p : build A) (k : A -> build B) t a :
  p = (t, Built a) -> bbind p k = (t ++ (k a).1, (k a).2).
Proof. intros ->. reflexivity. Qed.

Lemma bbind_failed {A B} (p : build A) (k : A -> build B) t e :
  p = (t, Failed e) -> bbind p k = (t, Failed e).
Proof. intros ->. reflexivity. Qed.

Lemma bbind_emit {B} e (k : unit -> build B) :
  bbind (bemit e) k = (e :: (k tt).1, (k tt).2).
Proof. reflexivity. Qed.

Lemma jgetitem_dict c k v : assoc k c = Some v -> jgetitem (JDict c) k = bret v.
Proof. intros H. unfold jgetitem. rewrite H. reflexivity. Qed.

Lemma jgetitem_missing c k : assoc k c = None -> jgetitem (JDict c) k = braise (BKeyError k).
Proof. intros H. unfold jgetitem. rewrite H. reflexivity. Qed.

(** [j['name']], when [j] is a dictionary with that key. *)
Definition name_of (j : json) : option json :=
  match j with
  | JDict d => assoc "name" d
  | _ => None
  end.

Lemma jgetitem_name j n : name_of j = Some n -> jgetitem j "name" = bret n.
Proof. destruct j; cbn; try discriminate. apply jgetitem_dict. Qed.

(** A section of the configuration that names its component. *)
Definition section (c : list (string * json)) (k : string) (sec name : json) : Prop :=
  assoc k c = Some sec /\ name_of sec = Some name.

(** The path given to the reader: [reader_config.get('data_path', usr_dir)]. *)
Definition data_path (reader_config : json) : json :=
  match reader_config with
  | JDict d => default usr_dir (assoc "data_path" d)
  | _ => usr_dir
  end.

Definition data_of (reader_config reader_name dataset_config dataset_name : json) : D :=
  build_dataset dataset_name dataset_config (read reader_name (data_path reader_config)).

Lemma build_data_ok c rc rn dc dn :
  section c "dataset_reader" rc rn -> section c "dataset" dc dn ->
  build_data (JDict c) =
  ([BFromParams rn (JDict []); BRead (data_path rc); BFromParams dn dc],
   Built (data_of rc rn dc dn)).
Proof.
  intros [H1 H2] [H3 H4]. unfold build_data.
  rewrite (jgetitem_dict _ _ _ H1), bbind_ret_l.
  rewrite (jgetitem_name _ _ H2), bbind_ret_l, bbind_emit.
  destruct rc as [| | | | |rd]; try discriminate H2.
  cbn [jget]. rewrite bbind_ret_l, bbind_emit.
  rewrite (jgetitem_dict _ _ _ H3), bbind_ret_l.
  rewrite (jgetitem_name _ _ H4), bbind_ret_l, bbind_emit.
  reflexivity.
Qed.

(** The name in a vocabulary configuration, and what the two loops make of
    one vocabulary and leave in the trace. *)
Definition vocab_name (vocab_config : json) : json := default JNull (name_of vocab_config).

Definition trained_vocab (mode : string) (dataset : D) (pv : string * json) : string * Vc :=
  (pv.1, vocab_train (build_vocab (vocab_name pv.2) pv.2 mode) (iter_all dataset Train)).

Definition fitted_vocab (dataset : D) (pv : string * json) : string * Vc :=
  (pv.1, vocab_fit (build_vocab (vocab_name pv.2) pv.2 "train") (iter_all dataset Train)).

Definition vocab_training_events (pv : string * json) : list build_event :=
  [BFromParams (vocab_name pv.2) pv.2; BVocabTrain pv.1].

Definition vocab_fitting_events (pv : string * json) : list build_event :=
  [BFromParams (vocab_name pv.2) pv.2; BVocabFit pv.1; BVocabSave pv.1].

(** The [vocabs] section of a configuration: a dictionary of named
    vocabulary configurations. *)
Definition vocab_section (vs : list (string * json)) : Prop :=
  List.NoDup (map fst vs) /\ Forall (fun pv : string * json => is_Some (name_of pv.2)) vs.

Lemma train_vocabs_ok mode dataset : forall vs acc,
  List.NoDup (map fst acc ++ map fst vs) ->
  Forall (fun pv : string * json => is_Some (name_of pv.2)) vs ->
  train_vocabs vs mode dataset acc =
  (flat_map vocab_training_events vs, Built (acc ++ map (trained_vocab mode dataset) vs)).
Proof.
  induction vs as [|[p vc] r IH]; intros acc Hnd Hnamed; cbn [train_vocabs flat_map map].
  - rewrite app_nil_r. reflexivity.
  - apply Forall_cons_1 in Hnamed as [[n Hn] Hr]. cbn [snd] in Hn.
    rewrite (jgetitem_name _ _ Hn), bbind_ret_l, bbind_emit, bbind_emit.
    assert (Hni : ~ In p (map fst acc)).
    { intros Hin. cbn in Hnd. apply List.NoDup_remove_2 in Hnd. apply Hnd.
      apply in_app_iff. left. exact Hin. }
    rewrite (od_set_fresh _ _ _ Hni), IH; [| | exact Hr].
    + unfold vocab_training_events, trained_vocab, vocab_name. cbn [fst snd].
      rewrite Hn. cbn [default]. rewrite <- app_assoc. reflexivity.
    + rewrite map_app, <- app_assoc. exact Hnd.
Qed.

Lemma fit_vocabs_ok dataset : forall vs acc,
  List.NoDup (map fst acc ++ map fst vs) ->
  Forall (fun pv : string * json => is_Some (name_of pv.2)) vs ->
  fit_vocabs vs dataset acc =
  (flat_map vocab_fitting_events vs, Built (acc ++ map (fitted_vocab dataset) vs)).
Proof.
  induction vs as [|[p vc] r IH]; intros acc Hnd Hnamed; cbn [fit_vocabs flat_map map].
  - rewrite app_nil_r. reflexivity.
  - apply Forall_cons_1 in Hnamed as [[n Hn] Hr]. cbn [snd] in Hn.
    rewrite (jgetitem_name _ _ Hn), bbind_ret_l, bbind_emit, bbind_emit, bbind_emit.
    assert (Hni : ~ In p (map fst acc)).
    { intros Hin. cbn in Hnd. apply List.NoDup_remove_2 in Hnd. apply Hnd.
      apply in_app_iff. left. exact Hin. }
    rewrite (od_set_fresh _ _ _ Hni), IH; [| | exact Hr].
    + unfold vocab_fitting_events, fitted_vocab, vocab_name. cbn [fst snd].
      rewrite Hn. cbn [default]. rewrite <- app_assoc. reflexivity.
    + rewrite map_app, <- app_assoc. exact Hnd.
Qed.


(** [train_model_from_config] on a complete configuration.  The reader is
    built and reads [data_path] (the user directory when the reader section
    has no such key); the dataset is built from these data; each vocabulary
    of the [vocabs] section, when there is one, is built and trained on the
    training split of that dataset, in the order of the section; the model
    is built with all the trained vocabularies, and [model.train(dataset)]
    is the last thing done, once. *)
Theorem train_model_from_config_dataflow c mode rc rn dc dn mc mn vs :
  section c "dataset_reader" rc rn -> section c "dataset" dc dn ->
  section c "model" mc mn ->
  assoc "vocabs" c = Some (JDict vs) \/ (assoc "vocabs" c = None /\ vs = []) ->
  vocab_section vs ->
  let dataset := data_of rc rn dc dn in
  let vocabs := map (trained_vocab mode dataset) vs in
  let model := build_model mn mc (Some (vocabs, mode)) in
  train_model_from_config (JDict c) mode =
  ([BFromParams rn (JDict []); BRead (data_path rc); BFromParams dn dc] ++
   flat_map vocab_training_events vs ++
   [BFromParams mn mc; BModelTrain model dataset],
   Built (train model dataset)).
Proof.
  intros Hr Hd [Hm Hmn] Hvs [Hnd Hnamed] dataset vocabs model.
  unfold train_model_from_config.
  rewrite (bbind_built _ _ _ _ (build_data_ok _ _ _ _ _ Hr Hd)). fold dataset.
  assert (Hv : match assoc "vocabs" c with
               | Some vs0 => bbind (jitems vs0) (fun items => train_vocabs items mode dataset [])
               | None => bret []
               end = (flat_map vocab_training_events vs, Built vocabs)).
  { destruct Hvs as [->|[-> ->]]; [| reflexivity].
    cbn [jitems]. rewrite bbind_ret_l. apply (train_vocabs_ok mode dataset vs []); assumption. }
  rewrite (bbind_built _ _ _ _ Hv).
  rewrite (jgetitem_dict _ _ _ Hm), bbind_ret_l.
  rewrite (jgetitem_name _ _ Hmn), bbind_ret_l, bbind_emit, bbind_emit.
  cbn [fst snd bret app]. reflexivity.
Qed.

(** The sections are looked up when the function gets to them.  A
    configuration without [dataset_reader] fails at once, nothing done.  One
    without [model] fails only after the data have been read and every
    vocabulary has been trained. *)
Theorem sections_are_read_in_order c mode :
  (assoc "dataset_reader" c = None ->
   train_model_from_config (JDict c) mode = ([], Failed (BKeyError "dataset_reader"))) /\
  (forall rc rn dc dn vs,
     section c "dataset_reader" rc rn -> section c "dataset" dc dn ->
     assoc "vocabs" c = Some (JDict vs) -> vocab_section vs ->
     assoc "model" c = None ->
     train_model_from_config (JDict c) mode =
     ([BFromParams rn (JDict []); BRead (data_path rc); BFromParams dn dc] ++
      flat_map vocab_training_events vs,
      Failed (BKeyError "model"))).
Proof.
  split.
  - intros H. unfold train_model_from_config, build_data.
    rewrite (jgetitem_missing _ _ H). reflexivity.
  - intros rc rn dc dn vs Hr Hd Hvs [Hnd Hnamed] Hm.
    unfold train_model_from_config.
    rewrite (bbind_built _ _ _ _ (build_data_ok _ _ _ _ _ Hr Hd)).
    rewrite Hvs. cbn [jitems]. rewrite bbind_ret_l.
    rewrite (bbind_built _ _ _ _ (train_vocabs_ok mode _ vs [] Hnd Hnamed)).
    rewrite (jgetitem_missing _ _ Hm). cbn. rewrite app_nil_r. reflexivity.
Qed.

(** Lines 85-104 of [train_experimental] on a complete configuration: as
    [train_model_from_config], except that each vocabulary is fitted on the
    training split and saved ([_fit]), that the mode is ['train'], and that
    the model is only built: it is handed, with the dataset, to the
    strategy chosen at line 120. *)
Theorem build_experimental_dataflow c rc rn dc dn mc mn vs :
  section c "dataset_reader" rc rn -> section c "dataset" dc dn ->
  section c "model" mc mn ->
  assoc "vocabs" c = Some (JDict vs) \/ (assoc "vocabs" c = None /\ vs = []) ->
  vocab_section vs ->
  let dataset := data_of rc rn dc dn in
  let vocabs := map (fitted_vocab dataset) vs in
  build_experimental (JDict c) =
  ([BFromParams rn (JDict []); BRead (data_path rc); BFromParams dn dc] ++
   flat_map vocab_fitting_events vs ++ [BFromParams mn mc],
   Built (build_model mn mc (Some (vocabs, "train")), dataset)).
Proof.
  intros Hr Hd [Hm Hmn] Hvs [Hnd Hnamed] dataset vocabs.
  unfold build_experimental.
  rewrite (bbind_built _ _ _ _ (build_data_ok _ _ _ _ _ Hr Hd)). fold dataset.
  assert (Hi : jitems (match assoc "vocabs" c with Some vs0 => vs0 | None => JDict [] end)
               = bret vs).
  { destruct Hvs as [->|[-> ->]]; reflexivity. }
  rewrite Hi, bbind_ret_l.
  rewrite (bbind_built _ _ _ _ (fit_vocabs_ok dataset vs [] Hnd Hnamed)).
  rewrite (jgetitem_dict _ _ _ Hm), bbind_ret_l.
  rewrite (jgetitem_name _ _ Hmn), bbind_ret_l, bbind_emit.
  cbn [fst snd bret app]. reflexivity.
Qed.

Lemma assoc_app_fresh {V} k k' (v : V) d :
  assoc k (d ++ [(k', v)]) =
  match assoc k d with
  | Some x => Some x
  | None => if String.eqb k k' then Some v else None
  end.
Proof.
  induction d as [|[k0 v0] r IH]; cbn; [reflexivity |].
  destruct (String.eqb k k0); [reflexivity | exact IH].
Qed.

Lemma jgetitem_app_other c k k' v :
  String.eqb k k' = false ->
  jgetitem (JDict (c ++ [(k', v)])) k = jgetitem (JDict c) k.
Proof.
  intros H. unfold jgetitem. rewrite assoc_app_fresh, H. destruct (assoc k c); reflexivity.
Qed.

Lemma build_data_app_vocabs c v :
  build_data (JDict (c ++ [("vocabs", v)])) = build_data (JDict c).
Proof. unfold build_data. rewrite !jgetitem_app_other by reflexivity. reflexivity. Qed.

(** The [vocabs] section is optional in both functions: a configuration
    without it behaves as the configuration to which an empty [vocabs]
    section is added. *)
Theorem vocabs_section_is_optional c mode :
  assoc "vocabs" c = None ->
  train_model_from_config (JDict (c ++ [("vocabs", JDict [])])) mode =
  train_model_from_config (JDict c) mode /\
  build_experimental (JDict (c ++ [("vocabs", JDict [])])) = build_experimental (JDict c).
Proof.
  intros H. unfold train_model_from_config, build_experimental.
  rewrite !build_data_app_vocabs, !assoc_app_fresh, H.
  rewrite !jgetitem_app_other by reflexivity.
  split; reflexivity.
Qed.


(** ** The skills of an agent *)

(** The name of the model of a skill: [skill_config['model']['name']]. *)
Definition model_name_of (skill_config : json) : option json :=
  match skill_config with
  | JDict d => match assoc "model" d with
               | Some model_config => name_of model_config
               | None => None
               end
  | _ => None
  end.

Definition skill_is_trainable (skill_config : json) : bool :=
  match model_name_of skill_config with
  | Some n => is_trainable n
  | None => false
  end.

(** Observations on a trace: the [model.train] calls, the [read] calls and
    the models skipped. *)
Definition trainings (t : list build_event) : list (M * D) :=
  flat_map (fun e => match e with BModelTrain m d => [(m, d)] | _ => [] end) t.
Definition readings (t : list build_event) : list json :=
  flat_map (fun e => match e with BRead p => [p] | _ => [] end) t.
Definition skipped (t : list build_event) : list json :=
  flat_map (fun e => match e with BSkip n => [n] | _ => [] end) t.

Lemma jgetitem_built j k v :
  (jgetitem j k).2 = Built v ->
  (jgetitem j k).1 = [] /\ exists d, j = JDict d /\ assoc k d = Some v.
Proof.
  destruct j as [| | | | |d]; cbn; try discriminate.
  destruct (assoc k d) as [u|] eqn:E; cbn; [| discriminate].
  intros [= <-]. eauto.
Qed.

Lemma bbind_inv {A B} (p : build A) (k : A -> build B) b :
  (bbind p k).2 = Built b ->
  exists a, p.2 = Built a /\ (k a).2 = Built b /\ (bbind p k).1 = p.1 ++ (k a).1.
Proof.
  destruct p as [t1 [a|e]]; unfold bbind; cbn; [| discriminate].
  intros H. eauto.
Qed.

(** A run of [build_data] that returns has built the reader, read once and
    built the dataset. *)
Lemma build_data_built j d :
  (build_data j).2 = Built d ->
  exists rn p dn dc, (build_data j).1 = [BFromParams rn (JDict []); BRead p; BFromParams dn dc].
Proof.
  unfold build_data. intros H.
  apply bbind_inv in H as (rc & H1 & H & ->).
  apply jgetitem_built in H1 as (-> & _).
  apply bbind_inv in H as (rn & H2 & H & ->).
  apply jgetitem_built in H2 as (-> & rd & -> & _).
  rewrite bbind_emit in *. cbn [fst snd jget] in *.
  rewrite bbind_ret_l, bbind_emit in *. cbn [fst snd] in *.
  apply bbind_inv in H as (dc & H4 & H & ->).
  apply jgetitem_built in H4 as (-> & _).
  apply bbind_inv in H as (dn & H5 & H & ->).
  apply jgetitem_built in H5 as (-> & _).
  rewrite bbind_emit. cbn. eauto.
Qed.

Lemma trainings_app t1 t2 : trainings (t1 ++ t2) = trainings t1 ++ trainings t2.
Proof. apply flat_map_app. Qed.
Lemma readings_app t1 t2 : readings (t1 ++ t2) = readings t1 ++ readings t2.
Proof. apply flat_map_app. Qed.
Lemma skipped_app t1 t2 : skipped (t1 ++ t2) = skipped t1 ++ skipped t2.
Proof. apply flat_map_app. Qed.

(** One skill, when it does not fail. *)
Lemma train_skill_built s :
  (train_skill s).2 = Built tt ->
  exists n, model_name_of s = Some n /\
    let t := (train_skill s).1 in
    if is_trainable n
    then length (trainings t) = 1%nat /\ length (readings t) = 1%nat /\ skipped t = []
    else t = [BSkip n].
Proof.
  unfold train_skill. intros H.
  apply bbind_inv in H as (mc & H1 & H & ->).
  apply jgetitem_built in H1 as (-> & sd & -> & Hmc).
  apply bbind_inv in H as (n & H2 & H & ->).
  apply jgetitem_built in H2 as (-> & md & -> & Hn).
  exists n. split; [cbn; rewrite Hmc; exact Hn |].
  cbn [app]. destruct (is_trainable n).
  - apply bbind_inv in H as (ds & H4 & _ & ->).
    apply build_data_built in H4 as (rn & p & dn & dc & ->).
    rewrite bbind_emit. cbn. auto.
  - reflexivity.
Qed.

(** When [train_agent_models] returns, it has called [model.train] once for
    each skill whose model is trainable, after reading the data of that
    skill, and has printed the notice for each of the other skills, in the
    order of the skills; nothing is read for a skill that is skipped. *)
Theorem train_agent_models_counts skills :
  (train_agent_models skills).2 = Built tt ->
  let t := (train_agent_models skills).1 in
  length (trainings t) = length (List.filter skill_is_trainable skills) /\
  length (readings t) = length (List.filter skill_is_trainable skills) /\
  map Some (skipped t) =
  map model_name_of (List.filter (fun s => negb (skill_is_trainable s)) skills).
Proof.
  induction skills as [|s r IH]; intros H.
  - repeat split.
  - cbn [train_agent_models] in *.
    apply bbind_inv in H as ([] & H1 & H2 & Ht). cbv zeta. rewrite Ht.
    destruct (IH H2) as (IH1 & IH2 & IH3).
    apply train_skill_built in H1 as (n & Hn & Hcase). cbv zeta in Hcase.
    rewrite trainings_app, readings_app, skipped_app, !length_app, map_app.
    assert (Hs : skill_is_trainable s = is_trainable n)
      by (unfold skill_is_trainable; rewrite Hn; reflexivity).
    cbn [List.filter]. rewrite Hs.
    destruct (is_trainable n); cbn [negb].
    + destruct Hcase as (Htr & Hrd & Hsk). rewrite Htr, Hrd, Hsk. cbn [length map app].
      rewrite IH1, IH2, IH3. auto.
    + rewrite Hcase. cbn. rewrite IH1, IH2, IH3, Hn. auto.
Qed.

Lemma train_agent_models_app a b :
  train_agent_models (a ++ b) =
  bbind (train_agent_models a) (fun _ => train_agent_models b).
Proof.
  induction a as [|s r IH]; cbn [app train_agent_models].
  - rewrite bbind_ret_l. reflexivity.
  - rewrite IH. unfold bbind.
    destruct (train_skill s) as [t1 [[]|e]]; cbn; [| reflexivity].
    destruct (train_agent_models r) as [t2 [[]|e]]; cbn; [| reflexivity].
    rewrite app_assoc. reflexivity.
Qed.

(** The sections of a skill are read only if its model is trainable.  A
    skill without [dataset_reader] whose model is trainable ends the
    function with [KeyError]: the skills before it have been trained, those
    after it are not looked at.  The same skill with a model that is not
    trainable is skipped with the notice, and the function goes on. *)
Theorem incomplete_skill before bad after t mc n :
  train_agent_models before = (t, Built tt) ->
  assoc "model" bad = Some mc -> name_of mc = Some n ->
  assoc "dataset_reader" bad = None ->
  train_agent_models (before ++ JDict bad :: after) =
  if is_trainable n
  then (t, Failed (BKeyError "dataset_reader"))
  else (t ++ BSkip n :: (train_agent_models after).1, (train_agent_models after).2).
Proof.
  intros Hb Hmc Hn Hr. rewrite train_agent_models_app, (bbind_built _ _ _ _ Hb).
  cbn [train_agent_models]. unfold train_skill.
  rewrite (jgetitem_dict _ _ _ Hmc), bbind_ret_l, (jgetitem_name _ _ Hn), bbind_ret_l.
  destruct (is_trainable n).
  - unfold build_data. rewrite (jgetitem_missing _ _ Hr). cbn. rewrite app_nil_r. reflexivity.
  - rewrite bbind_emit. reflexivity.
Qed.

End Builders.


(** ** A configuration without training section (lines 113-116) *)

Lemma configure_missing m d :
  let w := World m d None in
  configure None w =
  Out (o_res (configure (Some ∅) w)) (o_st (configure (Some ∅) w))
      (EvErr MsgMissingTrainConfig :: o_tr (configure (Some ∅) w)).
Proof.
  cbv zeta. unfold configure.
  rewrite (left_id_L ∅ (∪) experimental_defaults).
  rewrite bind_ret_l. unfold bind at 1. reflexivity.
Qed.

Lemma bind_prefix {S A B} (p p' : prog S A) (k : A -> prog S B) s e :
  p s = Out (o_res (p' s)) (o_st (p' s)) (e :: o_tr (p' s)) ->
  o_res (bind p k s) = o_res (bind p' k s) /\
  o_st (bind p k s) = o_st (bind p' k s) /\
  o_tr (bind p k s) = e :: o_tr (bind p' k s).
Proof.
  intros H. unfold bind. rewrite H. cbn [o_res o_st o_tr].
  destruct (o_res (p' s)); cbn [o_res o_st o_tr]; repeat split; reflexivity.
Qed.

(** Without pending interrupt, [train_experimental] on a configuration
    that has no [train] section does what it does on one whose [train]
    section is empty, after the notice that the section is missing: same
    strategy, same calls, same reports, same result. *)
Theorem missing_train_section fuel has_train_on_batch has_fit m d :
  let w := World m d None in
  let missing := train_experimental fuel has_train_on_batch has_fit None w in
  let empty := train_experimental fuel has_train_on_batch has_fit (Some ∅) w in
  o_res missing = o_res empty /\ o_st missing = o_st empty /\
  o_tr missing = EvErr MsgMissingTrainConfig :: o_tr empty.
Proof.
  cbv zeta. unfold train_experimental.
  apply bind_prefix. apply configure_missing.
Qed.

End Harness.

Arguments Out {X Y score S A} _ _ _.
Arguments o_res {X Y score S A} _.
Arguments o_st {X Y score S A} _.
Arguments o_tr {X Y score S A} _.

(** * A concrete harness

    Inputs and labels are integers and scores are binary64 floats, as in
    Python.  The model counts the batches it was trained on and predicts that
    count for every input; the dataset state is the number of training
    examples, handed out in batches of one; the validation split is one
    example and the test split one batch of two.  The metric maps the
    prediction to the scores 0.5, 0.4, 0.3 of the second scenario of the
    specification. *)

Definition demo_infer (m : Z) (xs : list Z) : Z * list Z := (m, map (fun _ => m) xs).
Definition demo_train_on_batch (m : Z) (b : list Z * list Z) : Z := m + 1.
Definition demo_fit (m : Z) (data : list (Z * Z)) : Z := m + Z.of_nat (length data).
Definition demo_train (m : Z) (d : nat) : Z := m + 1000.

Definition demo_examples (d : nat) : list (Z * Z) :=
  map (fun k => (Z.of_nat k, Z.of_nat k)) (seq 1 d).

Definition demo_iter_all (d : nat) (sp : split) : list (Z * Z) :=
  match sp with
  | Train => demo_examples d
  | Valid => [(7, 7)]
  | Test => [(8, 8); (9, 9)]
  end.

Definition demo_batch_generator (d : nat) (bs : value) (sp : split) (shuffle : bool)
  : nat * list (list Z * list Z) :=
  (d, match sp with
      | Train => map (fun xy : Z * Z => ([xy.1], [xy.2])) (demo_examples d)
      | Valid => [([7], [7])]
      | Test => [([8; 9], [8; 9])]
      end).

#[warnings="-inexact-float"]
Definition demo_accuracy (y_true y_predicted : list Z) : float :=
  match y_predicted with
  | [1] => 0.5%float
  | [2] => 0.4%float
  | _ => 0.3%float
  end.

Definition demo_gt (score best : float) : bool := PrimFloat.ltb best score.
Definition demo_lt (score best : float) : bool := PrimFloat.ltb score best.

Definition demo_metrics : list (string * (list Z -> list Z -> float)) :=
  [("accuracy", demo_accuracy)].

Definition demo_get_metrics_by_names (names : list string)
  : option (list (list Z -> list Z -> float)) :=
  Some (map (fun _ => demo_accuracy) names).

Definition demo_train_batches (fuel : nat) (cfg : gmap string value) (d : nat)
    (interrupt : option nat) :=
  _train_batches demo_infer demo_train_on_batch demo_batch_generator demo_gt demo_lt
                 neg_infinity infinity fuel cfg demo_metrics (World 0 d interrupt).

Definition demo_train_experimental (fuel : nat) (has_train_on_batch has_fit : bool)
    (config_train : option (gmap string value)) (d : nat) :=
  train_experimental demo_infer demo_train_on_batch demo_fit demo_train demo_batch_generator
                     demo_iter_all demo_gt demo_lt neg_infinity infinity 0
                     demo_get_metrics_by_names fuel has_train_on_batch has_fit config_train
                     (World 0 d None).

(** Scenario A: [epochs=3], no patience, no validation. *)
Definition scenario_a : gmap string value :=
  <["epochs" := VInt 3]> (<["validation_patience" := VInt 0]> ∅).

(** Scenario B: unbounded epochs, patience 2, validation every epoch. *)
Definition scenario_b : gmap string value :=
  <["epochs" := VInt 0]> (
  <["validation_patience" := VInt 2]> (
  <["val_every_n_epochs" := VInt 1]> ∅)).

(** Scenario C: an interim report every 10 batches. *)
Definition scenario_c : gmap string value :=
  <["epochs" := VInt 1]> (<["log_every_n_batches" := VInt 10]> ∅).

Example scenario_a_run :
  let run := demo_train_batches 5 scenario_a 1 None in
  o_res run = Val STOPPED_EPOCHS /\ passes (o_tr run) = 3%nat /\
  valid_reports (o_tr run) = [] /\ saves (o_tr run) = 1%nat /\
  last (o_tr run) = Some EvSave.
Proof. vm_compute. repeat split. Qed.

Example scenario_b_run :
  let run := demo_train_batches 10 scenario_b 1 None in
  o_res run = Val STOPPED_PATIENCE /\ passes (o_tr run) = 3%nat /\
  val_outcomes (o_tr run) = [true; false; false] /\ saves (o_tr run) = 1%nat /\
  map (fun r => (metrics r, impatience r, patience_limit r)) (valid_reports (o_tr run)) =
  [([("accuracy", 0.5%float)], Some 0, Some (VInt 2));
   ([("accuracy", demo_accuracy [] [2])], Some 1, Some (VInt 2));
   ([("accuracy", demo_accuracy [] [3])], Some 2, Some (VInt 2))].
Proof. vm_compute. repeat split. Qed.

Example scenario_c_run :
  let run := demo_train_batches 5 scenario_c 25 None in
  o_res run = Val STOPPED_EPOCHS /\
  map fst (interim_reports (o_tr run)) = [10; 20] /\
  length (trained (o_tr run)) = 25%nat.
Proof. vm_compute. repeat split. Qed.

(** An interrupt during the second epoch of scenario B, after the checkpoint
    of the first validation: the loop stops cleanly and saves nothing more.
    The same interrupt between [model.save()] and [saved = True] leaves the
    flag unset, and the model is saved a second time on the way out. *)
Example interrupted_run :
  let run := demo_train_batches 10 scenario_b 1 (Some 15%nat) in
  o_res run = Val STOPPED_INTERRUPT /\ saves (o_tr run) = 1%nat /\
  last (o_tr run) = Some (EvErr MsgStopped).
Proof. vm_compute. repeat split. Qed.

Example interrupted_before_flag :
  let run := demo_train_batches 10 scenario_b 1 (Some 12%nat) in
  o_res run = Val STOPPED_INTERRUPT /\ saves (o_tr run) = 2%nat /\
  last (o_tr run) = Some EvSave.
Proof. vm_compute. repeat split. Qed.

(** The batch sizes of a run of the orchestrator without [batch_size]: 1 in
    the loop, -1 in the evaluation of the best model. *)
Definition batch_sizes {X Y score} (t : list (@event X Y score)) : list value :=
  flat_map (fun e => match e with EvBatchGen v _ _ _ => [v] | _ => [] end) t.

Example orchestrator_batch_sizes :
  let run := demo_train_experimental 10 true false (Some scenario_a) 1 in
  o_res run = Val tt /\
  batch_sizes (training_phase (o_tr run)) = [VInt 1; VInt 1; VInt 1] /\
  batch_sizes (evaluation_phase (o_tr run)) = [VInt (-1); VInt (-1)].
Proof. vm_compute. repeat split. Qed.

(** ** The theorems at the concrete harness *)


Lemma patience_run_witness :
  (reads (merge_config scenario_b) (VInt 1) 0 1 2 0 /\
   valid_optimization (merge_config scenario_b) /\
   never_improves_after_first (val_outcomes (o_tr (demo_train_batches 4 scenario_b 1 None)))
     = true) /\
  o_res (demo_train_batches 4 scenario_b 1 None) = Val STOPPED_PATIENCE.
Proof.
  assert (Hreads : reads (merge_config scenario_b) (VInt 1) 0 1 2 0)
    by (repeat split; vm_compute; reflexivity).
  assert (Hopt : valid_optimization (merge_config scenario_b))
    by (left; vm_compute; reflexivity).
  assert (Hnever : never_improves_after_first
            (val_outcomes (o_tr (demo_train_batches 4 scenario_b 1 None))) = true)
    by (vm_compute; reflexivity).
  split; [auto |].
  apply (patience_run demo_infer demo_train_on_batch demo_batch_generator
           demo_gt demo_lt neg_infinity infinity 4 scenario_b demo_metrics
           (VInt 1) 0 1 2 0 1%nat Hreads Hopt); try lia; [discriminate | exact Hnever].
Defined.

Lemma improvement_by_metric_optimization_witness :
  merge_config ∅ !! "metric_optimization" = Some (VStr "maximize") /\
  (forall w : @world Z nat,
     improvement (X:=Z) (Y:=Z) demo_gt demo_lt neg_infinity infinity (merge_config ∅) w =
     Out (Val (demo_gt, neg_infinity)) w []) /\
  demo_gt 0.5%float neg_infinity = true.
Proof.
  assert (H : merge_config ∅ !! "metric_optimization" = Some (VStr "maximize"))
    by (vm_compute; reflexivity).
  split; [exact H |]. split; [| vm_compute; reflexivity].
  apply (improvement_by_metric_optimization demo_infer demo_train_on_batch
           demo_batch_generator demo_gt demo_lt neg_infinity infinity ∅ _ H).
  reflexivity.
Defined.

Lemma epoch_limit_run_witness :
  (reads (merge_config scenario_a) (VInt 1) 0 0 0 3 /\
   valid_optimization (merge_config scenario_a)) /\
  o_res (demo_train_batches 5 scenario_a 1 None) = Val STOPPED_EPOCHS /\
  Z.of_nat (passes (o_tr (demo_train_batches 5 scenario_a 1 None))) = 3.
Proof.
  assert (Hreads : reads (merge_config scenario_a) (VInt 1) 0 0 0 3)
    by (repeat split; vm_compute; reflexivity).
  assert (Hopt : valid_optimization (merge_config scenario_a))
    by (left; vm_compute; reflexivity).
  split; [auto |].
  destruct (epoch_limit_run demo_infer demo_train_on_batch demo_batch_generator
              demo_gt demo_lt neg_infinity infinity 5 scenario_a demo_metrics
              (VInt 1) 0 0 3 0 1%nat Hreads Hopt) as (H1 & H2 & _); try lia; auto.
Defined.

Definition demo_pass (batches : list (list Z * list Z)) :=
  for_each batches
    (train_batch demo_infer demo_train_on_batch (merge_config scenario_c) demo_metrics true)
    (World 0 25%nat None, Locals 0 0 0 false 0 neg_infinity [] []).

Lemma interim_reports_by_window_witness :
  (merge_config scenario_c !! "log_every_n_batches" = Some (VInt 10) /\
   as_num (VInt 10) = Some (Z.of_nat 10)) /\
  map fst (interim_reports (o_tr (demo_pass (demo_batch_generator 25 (VInt 1) Train true).2)))
  = [10; 20].
Proof.
  assert (H1 : merge_config scenario_c !! "log_every_n_batches" = Some (VInt 10))
    by (vm_compute; reflexivity).
  assert (H2 : as_num (VInt 10) = Some (Z.of_nat 10)) by reflexivity.
  split; [auto |].
  destruct (interim_reports_by_window (D:=nat) demo_infer demo_train_on_batch
              (merge_config scenario_c) demo_metrics (VInt 10) 10 H1 H2 ltac:(lia))
    as (_ & _ & H).
  destruct (H eq_refl (demo_batch_generator 25 (VInt 1) Train true).2 0 25%nat
              (Locals 0 0 0 false 0 neg_infinity [] [])) as (Hr & _).
  - vm_compute. reflexivity.
  - vm_compute. repeat constructor.
  - reflexivity.
  - reflexivity.
  - reflexivity.
  - exact (eq_trans (f_equal (map fst) Hr) eq_refl).
Defined.

Definition demo_test_model (sp : split) (interrupt : option nat) :=
  _test_model demo_infer demo_batch_generator demo_metrics (VInt (-1)) sp
              (World 0 1%nat interrupt).

Lemma examples_seen_is_labels_drawn_witness :
  exists r, o_res (demo_test_model Test None) = Val r /\ examples_seen r = 2.
Proof.
  destruct (examples_seen_is_labels_drawn demo_infer demo_batch_generator demo_iter_all
              demo_metrics (VInt (-1)) Test (World 0 1%nat None)) as [Hex Hval].
  destruct (Hex eq_refl) as (r & Hr).
  exists r. split; [exact Hr |].
  destruct (Hval r Hr) as (_ & _ & Hall).
  rewrite (Hall ([8; 9], [8; 9])); reflexivity.
Defined.

Lemma evaluator_deterministic_witness :
  o_res (demo_test_model Valid (Some 100%nat)) = o_res (demo_test_model Valid None).
Proof.
  destruct (evaluator_deterministic demo_infer demo_batch_generator demo_metrics
              (VInt (-1)) Valid) as (_ & _ & Hdet & _ & Hex).
  destruct (Hex (World 0 1%nat None) eq_refl) as (r1 & Hr1 & _).
  assert (Hr2 : exists r2, o_res (demo_test_model Valid (Some 100%nat)) = Val r2)
    by (vm_compute; eexists; reflexivity).
  destruct Hr2 as (r2 & Hr2).
  unfold demo_test_model in *.
  rewrite Hr1, Hr2.
  f_equal.
  exact (Hdet (World 0 1%nat (Some 100%nat)) (World 0 1%nat None) r2 r1
              eq_refl eq_refl Hr2 Hr1).
Defined.

Lemma strategy_dispatch_witness :
  configure (X:=Z) (M:=Z) (D:=nat) demo_get_metrics_by_names (Some scenario_a)
            (World 0 1%nat None) =
  Out (Val (scenario_a ∪ experimental_defaults, demo_metrics)) (World 0 1%nat None) [] /\
  demo_train_experimental 10 false false (Some scenario_a) 1 =
  Out (Val tt) (World 1000 1%nat None) [EvTrain].
Proof.
  assert (H : configure (X:=Z) (M:=Z) (D:=nat) demo_get_metrics_by_names (Some scenario_a)
                (World 0 1%nat None) =
              Out (Val (scenario_a ∪ experimental_defaults, demo_metrics))
                  (World 0 1%nat None) []) by reflexivity.
  split; [exact H |].
  destruct (strategy_dispatch demo_infer demo_train_on_batch demo_fit demo_train
              demo_batch_generator demo_iter_all demo_gt demo_lt neg_infinity infinity 0
              demo_get_metrics_by_names 10 (Some scenario_a) _ _ _ _ _ H)
    as (_ & _ & (_ & _ & Hlegacy)).
  exact (Hlegacy eq_refl).
Defined.


(** Validation every second epoch and no metric. *)
Definition scenario_no_metric : gmap string value :=
  <["val_every_n_epochs" := VInt 2]> ∅.

Lemma empty_metrics_fail_first_validation_witness :
  (reads (merge_config scenario_no_metric) (VInt 1) 0 2 5 0 /\
   valid_optimization (merge_config scenario_no_metric)) /\
  o_res (_train_batches demo_infer demo_train_on_batch demo_batch_generator demo_gt demo_lt
           neg_infinity infinity 2 scenario_no_metric [] (World 0 1%nat None))
  = Raise IndexError.
Proof.
  assert (Hreads : reads (merge_config scenario_no_metric) (VInt 1) 0 2 5 0)
    by (repeat split; vm_compute; reflexivity).
  assert (Hopt : valid_optimization (merge_config scenario_no_metric))
    by (left; vm_compute; reflexivity).
  split; [auto |].
  destruct (empty_metrics_fail_first_validation demo_infer demo_train_on_batch
              demo_batch_generator demo_gt demo_lt neg_infinity infinity 2
              scenario_no_metric (VInt 1) 0 2 5 0 0 1%nat Hreads Hopt) as (H & _);
    try lia; auto.
Defined.

(** ** The further properties at the concrete harness *)

Lemma unbounded_run_never_stops_witness :
  o_res (demo_train_batches 3 ∅ 1 None) = Timeout /\
  passes (o_tr (demo_train_batches 3 ∅ 1 None)) = 3%nat.
Proof.
  assert (Hreads : reads (merge_config ∅) (VInt 1) 0 0 5 0)
    by (repeat split; vm_compute; reflexivity).
  assert (Hopt : valid_optimization (merge_config ∅)) by (left; vm_compute; reflexivity).
  destruct (unbounded_run_never_stops demo_infer demo_train_on_batch demo_batch_generator
              demo_gt demo_lt neg_infinity infinity 3 ∅ demo_metrics (VInt 1) 0 0 5 0 0 1%nat
              Hreads Hopt) as (H1 & H2 & _); [lia | left; lia |].
  split; assumption.
Defined.

Lemma one_save_per_improvement_witness :
  saves (o_tr (demo_train_batches 10 scenario_b 1 None)) =
  Nat.max 1 (count_true (val_outcomes (o_tr (demo_train_batches 10 scenario_b 1 None)))).
Proof.
  assert (Hreads : reads (merge_config scenario_b) (VInt 1) 0 1 2 0)
    by (repeat split; vm_compute; reflexivity).
  assert (Hopt : valid_optimization (merge_config scenario_b))
    by (left; vm_compute; reflexivity).
  assert (Hr : o_res (demo_train_batches 10 scenario_b 1 None) = Val STOPPED_PATIENCE)
    by (vm_compute; reflexivity).
  destruct (one_save_per_improvement demo_infer demo_train_on_batch demo_batch_generator
              demo_gt demo_lt neg_infinity infinity 10 scenario_b demo_metrics
              (VInt 1) 0 1 2 0 0 1%nat STOPPED_PATIENCE Hreads Hopt Hr) as (H & _).
  exact H.
Defined.



Lemma train_experimental_no_key_error_witness :
  match o_res (demo_train_experimental 3 true false None 1) with
  | Raise (KeyError _) => False
  | _ => True
  end.
Proof.
  exact (train_experimental_no_key_error demo_infer demo_train_on_batch demo_fit demo_train
           demo_batch_generator demo_iter_all demo_gt demo_lt neg_infinity infinity 0
           demo_get_metrics_by_names 3 true false None (World 0 1%nat None)).
Defined.

(** A logging period and a validation period that are not numbers. *)
Definition scenario_log_string : gmap string value :=
  <["log_every_n_batches" := VStr "10"]> ∅.
Definition scenario_val_null : gmap string value :=
  <["val_every_n_epochs" := VNone]> ∅.

Lemma non_numeric_log_period_witness :
  demo_train_batches 5 scenario_log_string 1 (Some 0%nat) =
  Out (Raise TypeError) (World 0 1%nat (Some 0%nat)) [].
Proof.
  apply (non_numeric_log_period demo_infer demo_train_on_batch demo_batch_generator
           demo_gt demo_lt neg_infinity infinity 5 scenario_log_string demo_metrics
           (VStr "10")).
  - left. vm_compute. reflexivity.
  - vm_compute. reflexivity.
  - reflexivity.
Defined.

Lemma non_numeric_validation_period_witness :
  o_res (demo_train_batches 1 scenario_val_null 2 None) = Raise TypeError /\
  length (trained (o_tr (demo_train_batches 1 scenario_val_null 2 None))) = 2%nat /\
  saves (o_tr (demo_train_batches 1 scenario_val_null 2 None)) = 0%nat.
Proof.
  destruct (non_numeric_validation_period demo_infer demo_train_on_batch
              demo_batch_generator demo_gt demo_lt neg_infinity infinity 0
              scenario_val_null demo_metrics (VInt 1) 0 VNone 0 2%nat)
    as (H1 & _ & H2 & _ & H3).
  - vm_compute. reflexivity.
  - vm_compute. reflexivity.
  - vm_compute. reflexivity.
  - reflexivity.
  - left. vm_compute. reflexivity.
  - split; [exact H1 |]. split; [| exact H3].
    unfold demo_train_batches. rewrite H2. reflexivity.
Defined.

Lemma pass_without_logging_witness :
  o_tr (for_each [([1], [1]); ([2], [2])]
          (train_batch demo_infer demo_train_on_batch (merge_config ∅) demo_metrics false)
          (World 0 2%nat None, Locals 0 0 0 false 0 neg_infinity [] [])) =
  [EvTrainOnBatch ([1], [1]); EvTrainOnBatch ([2], [2])].
Proof.
  assert (Hv : merge_config ∅ !! "log_every_n_batches" = Some (VInt 0))
    by (vm_compute; reflexivity).
  assert (Hle : 0 <= 0) by lia.
  pose proof (pass_without_logging demo_infer demo_train_on_batch (merge_config ∅)
                demo_metrics (VInt 0) 0 [([1], [1]); ([2], [2])] Hv eq_refl Hle
                0 2%nat (Locals 0 0 0 false 0 neg_infinity [] [])) as H.
  exact (f_equal o_tr H).
Defined.

Lemma interim_counters_are_cumulative_witness :
  interim_counters (o_tr (demo_pass (demo_batch_generator 25 (VInt 1) Train true).2)) =
  [(0, 10, 10); (0, 20, 20)].
Proof.
  unfold demo_pass.
  assert (Hv : merge_config scenario_c !! "log_every_n_batches" = Some (VInt 10))
    by (vm_compute; reflexivity).
  assert (Hpos : 0 < 10) by lia.
  pose proof (interim_counters_are_cumulative demo_infer demo_train_on_batch
                (merge_config scenario_c) demo_metrics (VInt 10) 10
                (demo_batch_generator 25 (VInt 1) Train true).2 0 25%nat
                (Locals 0 0 0 false 0 neg_infinity [] []) Hv eq_refl Hpos) as H.
  refine (eq_trans H _). vm_compute. reflexivity.
Defined.

Lemma best_model_tests_ignore_trained_model_witness :
  o_tr (test_best_saved demo_infer demo_batch_generator 0
          (scenario_a ∪ experimental_defaults) demo_metrics (World 3 1%nat None)) =
  o_tr (test_best_saved demo_infer demo_batch_generator 0
          (scenario_a ∪ experimental_defaults) demo_metrics (World 0 1%nat None)).
Proof.
  exact (proj2 (best_model_tests_ignore_trained_model demo_infer demo_batch_generator 0
                  (scenario_a ∪ experimental_defaults) demo_metrics 3 0 1%nat None)).
Defined.

Lemma best_model_reports_witness :
  exists rv rt : @report float,
    map (fun e => match e with
                  | EvOut (PSplit sp r) => Some (sp, examples_seen r)
                  | _ => None
                  end)
        (o_tr (test_best_saved demo_infer demo_batch_generator 0
                 (scenario_a ∪ experimental_defaults) demo_metrics (World 3 1%nat None)))
    = [None; None; None; None; Some (Valid, examples_seen rv);
       None; None; Some (Test, examples_seen rt)] /\
    examples_seen rv = 1 /\ examples_seen rt = 2.
Proof.
  assert (Hvb : (scenario_a ∪ experimental_defaults) !! "validate_best" = Some (VBool true))
    by (vm_compute; reflexivity).
  assert (Htb : (scenario_a ∪ experimental_defaults) !! "test_best" = Some (VBool true))
    by (vm_compute; reflexivity).
  destruct (best_model_reports demo_infer demo_batch_generator 0
              (scenario_a ∪ experimental_defaults) demo_metrics (VBool true) (VBool true)
              3 1%nat Hvb Htb)
    as (rv & rt & Hv & Ht & H).
  exists rv, rt. rewrite H. clear H.
  vm_compute in Hv. vm_compute in Ht.
  injection Hv as <-. injection Ht as <-.
  vm_compute. repeat split.
Defined.



Lemma validation_block_witness :
  exists r,
    o_res (demo_test_model Valid None) = Val r /\
    map (fun r' => (impatience r', patience_limit r'))
        (valid_reports
           (o_tr (validation demo_infer demo_batch_generator (merge_config scenario_b)
                    demo_metrics demo_gt
                    (World 0 1%nat None, Locals 0 1 1 false 0 neg_infinity [] [])))) =
    [(Some (if demo_gt (demo_accuracy [7] [0]) neg_infinity then 0 else 1), Some (VInt 2))].
Proof.
  assert (Hbs : merge_config scenario_b !! "batch_size" = Some (VInt 1))
    by (vm_compute; reflexivity).
  assert (Hvp : merge_config scenario_b !! "validation_patience" = Some (VInt 2))
    by (vm_compute; reflexivity).
  assert (Hmf : demo_metrics <> []) by discriminate.
  destruct (validation_block demo_infer demo_batch_generator (merge_config scenario_b)
              demo_metrics demo_gt 0 1%nat (Locals 0 1 1 false 0 neg_infinity [] [])
              (VInt 1) (VInt 2) 2 Hbs Hvp eq_refl Hmf)
    as (r & name & sc & rest & Hr & Hm & Hp & _ & _ & _ & Hrep & _).
  exists r. split.
  - unfold demo_test_model. vm_compute in Hr. vm_compute. exact Hr.
  - rewrite Hrep. cbn [map impatience patience_limit]. rewrite Hp.
    vm_compute in Hr. injection Hr as <-. vm_compute in Hm. injection Hm as <- <- <-.
    vm_compute. reflexivity.
Defined.

(** * Concrete builders

    The reader returns the number of training examples it finds (two at
    the path it is given, whatever it is), the dataset keeps it, a
    vocabulary counts the examples it has seen, and the model starts from
    the number of vocabularies it is given.  The only trainable model is
    the one named ['intent_model']. *)

Arguments Built {A} a.
Arguments Failed {A} e.

Definition demo_usr_dir : json := JStr "download".
Definition demo_read (name path : json) : nat := 2.
Definition demo_build_dataset (name params : json) (data : nat) : nat := data.
Definition demo_build_vocab (name params : json) (mode : string) : Z := 0.
Definition demo_vocab_train (v : Z) (data : list (Z * Z)) : Z := v + Z.of_nat (length data).
Definition demo_build_model (name params : json) (kw : option (list (string * Z) * string))
  : Z :=
  match kw with
  | Some (vocabs, _) => Z.of_nat (length vocabs)
  | None => 0
  end.
Definition demo_is_trainable (name : json) : bool :=
  match name with
  | JStr s => String.eqb s "intent_model"
  | _ => false
  end.

Definition demo_reader_section : json := JDict [("name", JStr "dstc2_datasetreader")].
Definition demo_dataset_section : json := JDict [("name", JStr "dstc2_dataset")].
Definition demo_vocab : json := JDict [("name", JStr "default_vocab"); ("level", JStr "token")].
Definition demo_model_section : json := JDict [("name", JStr "intent_model")].

Definition demo_config : list (string * json) :=
  [("dataset_reader", demo_reader_section);
   ("dataset", demo_dataset_section);
   ("vocabs", JDict [("word_vocab", demo_vocab)]);
   ("model", demo_model_section)].

(** The same without the model. *)
Definition demo_config_no_model : list (string * json) :=
  [("dataset_reader", demo_reader_section);
   ("dataset", demo_dataset_section);
   ("vocabs", JDict [("word_vocab", demo_vocab)])].

(** The same without vocabularies. *)
Definition demo_config_no_vocabs : list (string * json) :=
  [("dataset_reader", demo_reader_section);
   ("dataset", demo_dataset_section);
   ("model", demo_model_section)].

Definition demo_train_model_from_config (config : json) (mode : string) :=
  train_model_from_config demo_train demo_iter_all demo_usr_dir demo_read demo_build_dataset
                          demo_build_vocab demo_vocab_train demo_build_model config mode.

Definition demo_build_experimental (config : json) :=
  build_experimental demo_iter_all demo_usr_dir demo_read demo_build_dataset
                     demo_build_vocab demo_vocab_train demo_build_model config.

Definition demo_train_agent_models (skill_configs : list json) :=
  train_agent_models demo_usr_dir demo_read demo_build_dataset
                     (Vc:=Z) demo_build_model demo_is_trainable skill_configs.

Lemma demo_vocab_section : vocab_section [("word_vocab", demo_vocab)].
Proof.
  split.
  - constructor; [intros [] | constructor].
  - repeat constructor. eexists. reflexivity.
Qed.

Lemma train_model_from_config_dataflow_witness :
  demo_train_model_from_config (JDict demo_config) "train" =
  ([BFromParams (JStr "dstc2_datasetreader") (JDict []); BRead demo_usr_dir;
    BFromParams (JStr "dstc2_dataset") demo_dataset_section;
    BFromParams (JStr "default_vocab") demo_vocab; BVocabTrain "word_vocab";
    BFromParams (JStr "intent_model") demo_model_section; BModelTrain 1 2%nat],
   Built 1001).
Proof.
  refine (eq_trans
    (train_model_from_config_dataflow demo_train demo_iter_all demo_usr_dir demo_read
       demo_build_dataset demo_build_vocab demo_vocab_train demo_build_model
       demo_config "train" demo_reader_section (JStr "dstc2_datasetreader")
       demo_dataset_section (JStr "dstc2_dataset")
       demo_model_section (JStr "intent_model") [("word_vocab", demo_vocab)]
       (conj eq_refl eq_refl) (conj eq_refl eq_refl) (conj eq_refl eq_refl)
       (or_introl eq_refl) demo_vocab_section) _).
  reflexivity.
Defined.

Lemma sections_are_read_in_order_witness :
  demo_train_model_from_config (JDict demo_config_no_model) "train" =
  ([BFromParams (JStr "dstc2_datasetreader") (JDict []); BRead demo_usr_dir;
    BFromParams (JStr "dstc2_dataset") demo_dataset_section;
    BFromParams (JStr "default_vocab") demo_vocab; BVocabTrain "word_vocab"],
   Failed (BKeyError "model")).
Proof.
  refine (eq_trans
    (proj2 (sections_are_read_in_order demo_train demo_iter_all demo_usr_dir demo_read
              demo_build_dataset demo_build_vocab demo_vocab_train demo_build_model
              demo_config_no_model "train")
       demo_reader_section (JStr "dstc2_datasetreader")
       demo_dataset_section (JStr "dstc2_dataset") [("word_vocab", demo_vocab)]
       (conj eq_refl eq_refl) (conj eq_refl eq_refl) eq_refl demo_vocab_section eq_refl) _).
  reflexivity.
Defined.

Lemma build_experimental_dataflow_witness :
  demo_build_experimental (JDict demo_config) =
  ([BFromParams (JStr "dstc2_datasetreader") (JDict []); BRead demo_usr_dir;
    BFromParams (JStr "dstc2_dataset") demo_dataset_section;
    BFromParams (JStr "default_vocab") demo_vocab; BVocabFit "word_vocab";
    BVocabSave "word_vocab";
    BFromParams (JStr "intent_model") demo_model_section],
   Built (1, 2%nat)).
Proof.
  refine (eq_trans
    (build_experimental_dataflow demo_iter_all demo_usr_dir demo_read
       demo_build_dataset demo_build_vocab demo_vocab_train demo_build_model
       demo_config demo_reader_section (JStr "dstc2_datasetreader")
       demo_dataset_section (JStr "dstc2_dataset")
       demo_model_section (JStr "intent_model") [("word_vocab", demo_vocab)]
       (conj eq_refl eq_refl) (conj eq_refl eq_refl) (conj eq_refl eq_refl)
       (or_introl eq_refl) demo_vocab_section) _).
  reflexivity.
Defined.

Lemma vocabs_section_is_optional_witness :
  demo_train_model_from_config (JDict (demo_config_no_vocabs ++ [("vocabs", JDict [])]))
                               "train" =
  demo_train_model_from_config (JDict demo_config_no_vocabs) "train".
Proof.
  exact (proj1 (vocabs_section_is_optional demo_train demo_iter_all demo_usr_dir demo_read
                  demo_build_dataset demo_build_vocab demo_vocab_train demo_vocab_train
                  demo_build_model demo_config_no_vocabs "train" eq_refl)).
Defined.

(** Two skills: a pattern-matching skill with nothing to train and no
    dataset, and an intent classifier. *)
Definition demo_skills : list json :=
  [JDict [("model", JDict [("name", JStr "hello_bot")])];
   JDict demo_config_no_vocabs].

Lemma train_agent_models_counts_witness :
  length (trainings (demo_train_agent_models demo_skills).1) = 1%nat /\
  skipped (demo_train_agent_models demo_skills).1 = [JStr "hello_bot"].
Proof.
  destruct (train_agent_models_counts demo_usr_dir demo_read demo_build_dataset (Vc:=Z)
              demo_build_model demo_is_trainable demo_skills eq_refl) as (H1 & _ & H3).
  split; [exact H1 |].
  apply (f_equal (map (fun o => default JNull o))) in H3. rewrite map_map in H3.
  cbn [default] in H3. rewrite map_id in H3. exact H3.
Defined.

Lemma incomplete_skill_witness :
  demo_train_agent_models
    ([JDict demo_config_no_vocabs]
     ++ JDict [("model", demo_model_section)] :: [JDict demo_config_no_vocabs]) =
  ([BFromParams (JStr "dstc2_datasetreader") (JDict []); BRead demo_usr_dir;
    BFromParams (JStr "dstc2_dataset") demo_dataset_section;
    BFromParams (JStr "intent_model") demo_model_section; BModelTrain 0 2%nat],
   Failed (BKeyError "dataset_reader")).
Proof.
  exact (incomplete_skill demo_usr_dir demo_read demo_build_dataset (Vc:=Z)
           demo_build_model demo_is_trainable [JDict demo_config_no_vocabs]
           [("model", demo_model_section)] [JDict demo_config_no_vocabs]
           _ demo_model_section (JStr "intent_model") eq_refl eq_refl eq_refl eq_refl).
Defined.

Lemma missing_train_section_witness :
  o_tr (demo_train_experimental 3 false false None 1) =
  EvErr MsgMissingTrainConfig :: o_tr (demo_train_experimental 3 false false (Some ∅) 1).
Proof.
  exact (proj2 (proj2 (missing_train_section demo_infer demo_train_on_batch demo_fit
                         demo_train demo_batch_generator demo_iter_all demo_gt demo_lt
                         neg_infinity infinity 0 demo_get_metrics_by_names
                         3 false false 0 1%nat))).
Defined.
